(** * The article extractor of app.py: text-mining pipeline

    A shallow embedding of the heuristic extractors of [app.py]
    (lines 99-434) together with the part of Python's [re], [str] and
    [float] that they rely on.

    Modelling conventions.
    - A Python [str] is a list of code points ([char := N]).  The
      character tables ([\d], [\s], [\w], case mapping) are those of
      CPython for the code points U+0000..U+00FF; above U+00FF a code
      point is taken to be caseless and to belong to no class.  A
      statement that rests on these tables is made for texts within
      U+0000..U+00FF ([Latin1]).
    - [re] is embedded as a backtracking matcher in continuation-passing
      style: alternatives are tried left to right, greedy repetitions
      try one more iteration first, lazy ones try the continuation first.
    - [float] is IEEE-754 binary64 with round-to-nearest-even, computed
      exactly over [Z]. *)

From Stdlib Require Import String Ascii List Bool Arith NArith ZArith Lia.
Import ListNotations.

Set Implicit Arguments.

(** ** Python strings *)

Module Str.

Local Open Scope N_scope.

(** A character is its code point; a string is the list of its characters. *)
Abbreviation char := N (only parsing).
Abbreviation str := (list N) (only parsing).

(** [py "abc"] is the Python literal ['abc'] (ASCII literals only). *)
Definition py (x : string) : str :=
  List.map N_of_ascii (list_ascii_of_string x).

Definition between (lo hi c : char) : bool := (lo <=? c) && (c <=? hi).

Definition char_eqb (a b : char) : bool := N.eqb a b.

Fixpoint str_eqb (a b : str) : bool :=
  match a, b with
  | [], [] => true
  | x :: a', y :: b' => char_eqb x y && str_eqb a' b'
  | _, _ => false
  end.

(** [Py_UNICODE_ISDECIMAL] on U+0000..U+00FF *)
Definition is_digit (c : char) : bool := between 48 57 c.

(** [Py_UNICODE_ISSPACE] on U+0000..U+00FF *)
Definition is_space (c : char) : bool :=
  between 9 13 c || between 28 32 c || N.eqb c 133 || N.eqb c 160.

(** [Py_UNICODE_ISALNUM(c) || c == '_'] on U+0000..U+00FF *)
Definition is_word (c : char) : bool :=
  between 48 57 c || between 65 90 c || between 97 122 c || N.eqb c 95
  || N.eqb c 170 || N.eqb c 178 || N.eqb c 179 || N.eqb c 181
  || N.eqb c 185 || N.eqb c 186 || between 188 190 c
  || between 192 214 c || between 216 246 c || between 248 255 c.

(** [Py_UNICODE_TOLOWER] on U+0000..U+00FF *)
Definition lower_char (c : char) : char :=
  if between 65 90 c then c + 32
  else if between 192 222 c && negb (N.eqb c 215) then c + 32
  else c.

(** [str.lower()] *)
Definition lower (s : str) : str := List.map lower_char s.

(** [prefix in s] at the head: [s.startswith(prefix)] *)
Fixpoint startswith (s prefix : str) : bool :=
  match prefix, s with
  | [], _ => true
  | p :: prefix', c :: s' => char_eqb p c && startswith s' prefix'
  | _ :: _, [] => false
  end.

(** [k in s] on strings *)
Fixpoint contains (s k : str) : bool :=
  startswith s k ||
  match s with
  | [] => false
  | _ :: s' => contains s' k
  end.

Fixpoint lstrip (s : str) : str :=
  match s with
  | c :: s' => if is_space c then lstrip s' else s
  | [] => []
  end.

Definition rstrip (s : str) : str := rev (lstrip (rev s)).

(** [s.strip()] *)
Definition strip (s : str) : str := rstrip (lstrip s).

(** [sep.join(l)] *)
Fixpoint join (sep : str) (l : list str) : str :=
  match l with
  | [] => []
  | [x] => x
  | x :: l' => x ++ sep ++ join sep l'
  end.

(** [s.replace(chr(c), '')] *)
Definition remove_char (c : char) (s : str) : str :=
  filter (fun x => negb (char_eqb x c)) s.

(** [x in l] on a list of strings *)
Definition mem (x : str) (l : list str) : bool := existsb (str_eqb x) l.

(** [list(dict.fromkeys(l))]: drop every repetition of an earlier element *)
Fixpoint dedup_from (seen : list str) (l : list str) : list str :=
  match l with
  | [] => []
  | x :: l' =>
      if mem x seen then dedup_from seen l'
      else x :: dedup_from (x :: seen) l'
  end.

Definition dedup (l : list str) : list str := dedup_from [] l.

(** [int(s)] on a string of ASCII digits *)
Definition int_of_digits (s : str) : Z :=
  fold_left (fun acc c => (10 * acc + (Z.of_N c - 48))%Z) s 0%Z.

Fixpoint digits_of_pos (fuel : nat) (n : N) (acc : str) : str :=
  match fuel with
  | O => acc
  | S f =>
      let acc' := (48 + n mod 10) :: acc in
      if n <? 10 then acc' else digits_of_pos f (n / 10) acc'
  end.

(** [str(n)] for a non-negative integer *)
Definition str_of_N (n : N) : str := digits_of_pos (S (N.to_nat (N.log2 n))) n [].

(** [str(n)] *)
Definition str_of_Z (z : Z) : str :=
  match z with
  | Zneg p => 45 :: str_of_N (Npos p)
  | _ => str_of_N (Z.to_N z)
  end.

End Str.
Import Str.

(** ** Regular expressions: the fragment of [re] used by app.py *)

Module Re.

(** Members of a bracketed class. *)
Inductive item :=
| ILit (c : char)
| IRange (lo hi : char)
| IDigit
| ISpace.

Inductive re :=
| Eps
| Cls (neg : bool) (items : list item)   (* [...] and [^...]; a literal; \d; \s; . *)
| Seq (a b : re)
| Alt (a b : re)                         (* a|b, left first *)
| Rep (a : re) (lo : nat) (hi : option nat) (greedy : bool)  (* a{lo,hi} *)
| Grp (n : nat) (a : re)                 (* capturing group number n *)
| WordB                                  (* \b *)
| Bol                                    (* ^ *)
| Eol.                                   (* $ *)

(** Matcher state: the character before the cursor, the text from the
    cursor on, and the groups captured so far (latest first). *)
Record st := mkSt { prev : option char; rest : str; caps : list (nat * str) }.

Fixpoint range_from (lo : char) (n : nat) : list char :=
  match n with
  | O => []
  | S n' => lo :: range_from (lo + 1)%N n'
  end.

Definition range (lo hi : char) : list char :=
  range_from lo (N.to_nat (hi + 1 - lo)).

(** With [re.I] the compiler lowers every member of the class and the
    matcher lowers the subject character ([IN_UNI_IGNORE]). *)
Definition item_mem (ci : bool) (c : char) (i : item) : bool :=
  match i with
  | ILit l => if ci then char_eqb (lower_char c) (lower_char l) else char_eqb c l
  | IRange lo hi =>
      if ci then existsb (fun x => char_eqb (lower_char c) (lower_char x)) (range lo hi)
      else between lo hi c
  | IDigit => is_digit c
  | ISpace => is_space c
  end.

Definition cls_mem (ci neg : bool) (items : list item) (c : char) : bool :=
  xorb neg (existsb (item_mem ci c) items).

Definition word_opt (o : option char) : bool :=
  match o with Some c => is_word c | None => false end.

Definition at_boundary (s : st) : bool :=
  xorb (word_opt (prev s)) (word_opt (hd_error (rest s))).

Definition at_bol (s : st) : bool :=
  match prev s with None => true | Some _ => false end.

(** [$] matches at the end and before a final newline. *)
Definition at_eol (s : st) : bool :=
  match rest s with
  | [] => true
  | [c] => char_eqb c 10%N
  | _ => false
  end.

(** The text consumed between two states of one run. *)
Definition consumed (s s' : st) : str :=
  firstn (length (rest s) - length (rest s')) (rest s).

Definition set_cap (n : nat) (s s' : st) : st :=
  mkSt (prev s') (rest s') ((n, consumed s s') :: caps s').

Definition progress (s s' : st) : bool :=
  Nat.ltb (length (rest s')) (length (rest s)).

Definition bound (hi : option nat) (lo : nat) (s : st) : nat :=
  match hi with
  | None => length (rest s)
  | Some h => Nat.min (h - lo) (length (rest s))
  end.

Section Matcher.
Variable A : Type.
Definition cont := st -> option A.
Variable body : st -> cont -> option A.

Definition orelse (x y : option A) : option A :=
  match x with Some _ => x | None => y end.

(** The [lo] compulsory iterations of a repetition. *)
Fixpoint rep_mand (lo : nat) (s : st) (k : cont) : option A :=
  match lo with
  | O => k s
  | S lo' => body s (fun s1 => rep_mand lo' s1 k)
  end.

(** At most [n] further iterations, each of which has to advance. *)
Fixpoint rep_opt (greedy : bool) (n : nat) (s : st) (k : cont) : option A :=
  match n with
  | O => k s
  | S n' =>
      let more := body s (fun s1 => if progress s s1 then rep_opt greedy n' s1 k else None) in
      if greedy then orelse more (k s) else orelse (k s) more
  end.

End Matcher.

Fixpoint run (A : Type) (ci : bool) (r : re) (s : st) (k : st -> option A) : option A :=
  match r with
  | Eps => k s
  | Cls neg items =>
      match rest s with
      | c :: t => if cls_mem ci neg items c then k (mkSt (Some c) t (caps s)) else None
      | [] => None
      end
  | Seq a b => run ci a s (fun s1 => run ci b s1 k)
  | Alt a b => orelse (run ci a s k) (run ci b s k)
  | Rep a lo hi greedy =>
      rep_mand (run ci a) lo s
        (fun s1 => rep_opt (run ci a) greedy (bound hi lo s1) s1 k)
  | Grp n a => run ci a s (fun s1 => k (set_cap n s s1))
  | WordB => if at_boundary s then k s else None
  | Bol => if at_bol s then k s else None
  | Eol => if at_eol s then k s else None
  end.

(** A match object: where it starts, what it covers, what is left after
    it, and its groups. *)
Record mobj := mkM { m_start : nat; m_text : str; m_after : st; m_caps : list (nat * str) }.

Fixpoint lookup (n : nat) (l : list (nat * str)) : option str :=
  match l with
  | [] => None
  | (k, v) :: l' => if Nat.eqb k n then Some v else lookup n l'
  end.

(** [m.group(n)]: [None] when the group took no part in the match. *)
Definition group (m : mobj) (n : nat) : option str := lookup n (m_caps m).

Definition match_at (ci : bool) (r : re) (pos : nat) (s : st) : option mobj :=
  run ci r s (fun s' => Some (mkM pos (consumed s s') s' (caps s'))).

(** Scan for the leftmost start at which the pattern matches. *)
Fixpoint search_from (ci : bool) (r : re) (pos : nat) (p : option char) (t : str) : option mobj :=
  match match_at ci r pos (mkSt p t []) with
  | Some m => Some m
  | None =>
      match t with
      | [] => None
      | c :: t' => search_from ci r (S pos) (Some c) t'
      end
  end.

(** [re.search(r, text)] *)
Definition search (ci : bool) (r : re) (text : str) : option mobj :=
  search_from ci r 0 None text.

(** [re.match(r, text)] *)
Definition rmatch (ci : bool) (r : re) (text : str) : option mobj :=
  match_at ci r 0 (mkSt None text []).

(** [re.finditer(r, text)]: successive non-overlapping matches.  After an
    empty match the scan moves on by one character. *)
Fixpoint finditer_from (fuel : nat) (ci : bool) (r : re) (pos : nat) (p : option char) (t : str) : list mobj :=
  match fuel with
  | O => []
  | S f =>
      match search_from ci r pos p t with
      | None => []
      | Some m =>
          let s' := m_after m in
          let pos' := m_start m + length (m_text m) in
          match m_text m, rest s' with
          | _ :: _, _ => m :: finditer_from f ci r pos' (prev s') (rest s')
          | [], c :: t' => m :: finditer_from f ci r (S pos') (Some c) t'
          | [], [] => [m]
          end
      end
  end.

Definition finditer (ci : bool) (r : re) (text : str) : list mobj :=
  finditer_from (S (length text)) ci r 0 None text.

(** [re.findall(r, text)] for a pattern with exactly one group *)
Definition findall1 (ci : bool) (r : re) (text : str) : list str :=
  List.map (fun m => match group m 1 with Some g => g | None => [] end)
           (finditer ci r text).

(** *** Pattern-building shorthands *)

Definition lit (c : char) : re := Cls false [ILit c].
Definition ch (x : string) : re :=
  match list_ascii_of_string x with
  | a :: _ => lit (N_of_ascii a)
  | [] => Eps
  end.
Fixpoint cat (l : list re) : re :=
  match l with
  | [] => Eps
  | [r] => r
  | r :: l' => Seq r (cat l')
  end.
(** [re.escape(s)] used as a pattern: the characters of [s], literally *)
Definition lits (s : str) : re := cat (List.map lit s).
Definition txt (x : string) : re := lits (py x).
Definition digit : re := Cls false [IDigit].
Definition space : re := Cls false [ISpace].
Definition nondigit : re := Cls true [IDigit].
Definition dot : re := Cls true [ILit 10%N].
Definition star (a : re) : re := Rep a 0 None true.
Definition plus (a : re) : re := Rep a 1 None true.
Definition lazy_star (a : re) : re := Rep a 0 None false.
Definition opt (a : re) : re := Rep a 0 (Some 1) true.
Definition rep (a : re) (lo hi : nat) : re := Rep a lo (Some hi) true.
Definition atleast (a : re) (lo : nat) : re := Rep a lo None true.
Definition set (x : string) : list item := List.map ILit (py x).
Definition rg (a b : string) : item :=
  match py a, py b with
  | x :: _, y :: _ => IRange x y
  | _, _ => IDigit
  end.

End Re.
Import Re.

(** ** Python dictionaries with string keys, in insertion order *)

Module Dict.

Fixpoint get (V : Type) (d : list (str * V)) (k : str) : option V :=
  match d with
  | [] => None
  | (k', v) :: d' => if str_eqb k' k then Some v else get d' k
  end.

(** [d[k] = v]: an existing key keeps its place *)
Fixpoint set (V : Type) (d : list (str * V)) (k : str) (v : V) : list (str * V) :=
  match d with
  | [] => [(k, v)]
  | (k', v') :: d' => if str_eqb k' k then (k', v) :: d' else (k', v') :: set d' k v
  end.

(** [d.setdefault(k, v)] *)
Definition setdefault (V : Type) (d : list (str * V)) (k : str) (v : V) : list (str * V) :=
  match get d k with
  | Some _ => d
  | None => d ++ [(k, v)]
  end.

Fixpoint insert_by (V : Type) (x : V * nat) (l : list (V * nat)) : list (V * nat) :=
  match l with
  | [] => [x]
  | y :: l' => if Nat.leb (snd x) (snd y) then x :: l else y :: insert_by x l'
  end.

(** [sorted(d.items(), key=lambda kv: kv[1])]; the sort is stable *)
Fixpoint sorted_by_value (V : Type) (l : list (V * nat)) : list (V * nat) :=
  match l with
  | [] => []
  | x :: l' => insert_by x (sorted_by_value l')
  end.

End Dict.

(** ** Gene/variant annotator (app.py, lines 221-272) *)

Record entry := mkEntry { gene : option str; annot : str }.

Definition gene_chars : list item :=
  [rg "A" "Z"; rg "a" "z"; rg "0" "9"; ILit 45%N; ILit 95%N].

(** Line 232: [\b (rs\d{3,}) \b], compiled with [re.I] *)
Definition rsid_re : re :=
  cat [WordB; Grp 1 (cat [ch "r"; ch "s"; atleast digit 3]); WordB].

(** Line 240, spaced out: [([A-Za-z0-9\-\_]+) \s* \( \s* ( RSID (?: [^\)]* ) \) )], with [re.I] *)
Definition pat1 (rsi : str) : re :=
  cat [Grp 1 (plus (Cls false gene_chars)); star space; ch "("; star space;
       Grp 2 (cat [lits rsi; star (Cls true (set ")")); ch ")"])].

(** Line 252: [RSID \s* \/ \s* ([A-Za-z0-9\-\_]+)] *)
Definition pat2 (rsi : str) : re :=
  cat [lits rsi; star space; ch "/"; star space; Grp 1 (plus (Cls false gene_chars))].

(** Line 260: [([A-Z0-9]{2,15}) \s{0,6} [^A-Za-z0-9]{0,6} RSID] *)
Definition pat3 (rsi : str) : re :=
  cat [Grp 1 (rep (Cls false [rg "A" "Z"; rg "0" "9"]) 2 15); rep space 0 6;
       rep (Cls true [rg "A" "Z"; rg "a" "z"; rg "0" "9"]) 0 6; lits rsi].

(** A group that took part in the match. *)
Definition grp (m : mobj) (n : nat) : str :=
  match group m n with Some g => g | None => [] end.

(** [rsids = list(dict.fromkeys(re.findall(...)))] *)
Definition find_rsids (text : str) : list str := dedup (findall1 true rsid_re text).

(** One turn of the loop over [enumerate(rsids)]: the entry stored under
    [rsi] and, when a gene was found, its name. *)
Definition associate (text rsi : str) : entry :=
  match search true (pat1 rsi) text with
  | Some m1 =>
      let gene := strip (grp m1 1) in
      let inner := strip (grp m1 2) in
      mkEntry (Some gene)
              (if startswith inner rsi then strip (skipn (length rsi) inner) else inner)
  | None =>
      match search false (pat2 rsi) text with
      | Some m2 => mkEntry (Some (strip (grp m2 1))) []
      | None =>
          match search false (pat3 rsi) text with
          | Some m3 => mkEntry (Some (strip (grp m3 1))) []
          | None => mkEntry None []
          end
      end
  end.

Fixpoint annotate_loop (text : str) (idx : nat) (rsids : list str)
    (gene_map : list (str * entry)) (gene_first_pos : list (str * nat))
  : list (str * entry) * list (str * nat) :=
  match rsids with
  | [] => (gene_map, gene_first_pos)
  | rsi :: tl =>
      let e := associate text rsi in
      let gene_map' := Dict.set gene_map rsi e in
      let gene_first_pos' :=
        match gene e with
        | Some g => Dict.setdefault gene_first_pos g idx
        | None => gene_first_pos
        end in
      annotate_loop text (S idx) tl gene_map' gene_first_pos'
  end.

Definition extract_rsids_and_genes_with_annotations (text : str)
  : list str * list (str * entry) * list str :=
  match text with
  | [] => ([], [], [])
  | _ =>
      let rsids := find_rsids text in
      let '(gene_map, gene_first_pos) := annotate_loop text 0 rsids [] [] in
      let genes_seen := Dict.sorted_by_value gene_first_pos in
      (rsids, gene_map, List.map fst genes_seen)
  end.

(** ** The numbered Gene cell (app.py, lines 373-405) *)

Definition opt_str_eqb (o : option str) (s : str) : bool :=
  match o with Some x => str_eqb x s | None => false end.

Definition entry_get_gene (e : option entry) : option str :=
  match e with Some x => gene x | None => None end.

Definition entry_get_annot (e : option entry) : str :=
  match e with Some x => annot x | None => [] end.

(** The display of one rsID inside its group. *)
Definition rs_display (rsi : str) (e : option entry) : str :=
  let a := strip (entry_get_annot e) in
  match a with
  | [] => rsi
  | _ =>
      if negb (startswith a (py "(")) && negb (startswith a (py " "))
      then rsi ++ py " " ++ a
      else rsi ++ a
  end.

Definition rs_for_gene (rsids : list str) (gene_map : list (str * entry)) (g : str) : list str :=
  List.map (fun rsi => rs_display rsi (Dict.get gene_map rsi))
    (filter (fun rsi => opt_str_eqb (entry_get_gene (Dict.get gene_map rsi)) g) rsids).

Fixpoint number_groups (idx : N) (rsids : list str) (gene_map : list (str * entry))
    (genes : list str) : list str :=
  match genes with
  | [] => []
  | g :: tl =>
      match rs_for_gene rsids gene_map g with
      | [] => number_groups idx rsids gene_map tl
      | l =>
          (str_of_N idx ++ py ":" ++ g ++ py "(" ++ join (py ", ") l ++ py ")")
            :: number_groups (idx + 1)%N rsids gene_map tl
      end
  end.

Fixpoint number_plain (i : N) (rsids : list str) : list str :=
  match rsids with
  | [] => []
  | rsi :: tl => (str_of_N i ++ py ":" ++ rsi) :: number_plain (i + 1)%N tl
  end.

Definition newline : str := [10%N].

Definition gene_cell_of (rsids : list str) (gene_map : list (str * entry))
    (genes_ordered : list str) : str :=
  let numbered_entries :=
    match genes_ordered with
    | [] => number_plain 1%N rsids
    | _ => number_groups 1%N rsids gene_map genes_ordered
    end in
  join newline numbered_entries.

(** The Gene cell as a function of the corpus. *)
Definition gene_cell (big : str) : str :=
  let '(rsids, gene_map, genes_ordered) := extract_rsids_and_genes_with_annotations big in
  gene_cell_of rsids gene_map genes_ordered.

(** ** Python floats: binary64, round to nearest even

    Only non-negative values occur: every string handed to [float()] is
    a group of digits and dots. *)

Module F64.

Local Open Scope Z_scope.

(** [Fin m e] is the number [m * 2^e]. *)
Inductive float :=
| Fin (m e : Z)
| Inf.

(** [n / d] rounded to the nearest integer, ties to even *)
Definition round_half_even (n d : Z) : Z :=
  let q := n / d in
  let r := n mod d in
  if 2 * r <? d then q
  else if d <? 2 * r then q + 1
  else if Z.even q then q else q + 1.

(** [2^l <= n / d] *)
Definition ge_pow2 (n d l : Z) : bool :=
  if 0 <=? l then d * 2 ^ l <=? n else d <=? n * 2 ^ (- l).

(** The binary64 number nearest to [n / d], for [0 <= n] and [0 < d]. *)
Definition round_q (n d : Z) : float :=
  if n <=? 0 then Fin 0 0
  else
    let l := Z.log2 n - Z.log2 d in
    let ex := if ge_pow2 n d l then l else l - 1 in
    let e := Z.max (ex - 52) (-1074) in
    let m := if 0 <=? e then round_half_even n (d * 2 ^ e)
             else round_half_even (n * 2 ^ (- e)) d in
    if (971 <? e) || ((e =? 971) && (2 ^ 53 <=? m)) then Inf else Fin m e.

Definition of_Z (z : Z) : float := round_q z 1.

Definition compare (a b : float) : comparison :=
  match a, b with
  | Inf, Inf => Eq
  | Inf, Fin _ _ => Gt
  | Fin _ _, Inf => Lt
  | Fin m1 e1, Fin m2 e2 =>
      let e := Z.min e1 e2 in
      Z.compare (m1 * 2 ^ (e1 - e)) (m2 * 2 ^ (e2 - e))
  end.

Definition ltb (a b : float) : bool :=
  match compare a b with Lt => true | _ => false end.
Definition leb (a b : float) : bool :=
  match compare a b with Gt => false | _ => true end.
Definition gtb (a b : float) : bool := ltb b a.

(** [a / b] for a finite non-zero divisor *)
Definition div (a b : float) : float :=
  match a, b with
  | Fin m1 e1, Fin m2 e2 =>
      round_q (m1 * 2 ^ (Z.max (e1 - e2) 0)) (m2 * 2 ^ (Z.max (e2 - e1) 0))
  | _, _ => Inf
  end.

Definition all_digits (s : str) : bool := forallb is_digit s.

Fixpoint split_dot (s : str) : str * option str :=
  match s with
  | [] => ([], None)
  | c :: t =>
      if char_eqb c 46%N then ([], Some t)
      else let '(a, b) := split_dot t in (c :: a, b)
  end.

(** [float(s)] on a string over digits and dots: digits with at most
    one dot among them and at least one digit; anything else over that
    alphabet is a [ValueError] ([None]).  Signs, exponents, blanks and
    the like, which [float()] also reads, do not occur in the strings
    the extractors pass and are not modelled. *)
Definition float_of_str (s : str) : option float :=
  let '(ip, fr) := split_dot s in
  let fp := match fr with Some f => f | None => [] end in
  if all_digits ip && all_digits fp && negb (Nat.eqb (length ip + length fp) 0)
  then Some (round_q (int_of_digits (ip ++ fp)) (10 ^ Z.of_nat (length fp)))
  else None.

Definition pad3 (s : str) : str :=
  repeat 48%N (3 - length s) ++ s.

(** [f"{x:.3f}"] *)
Definition format_3f (x : float) : str :=
  match x with
  | Inf => py "inf"
  | Fin m e =>
      let k := round_half_even (m * 1000 * 2 ^ (Z.max e 0)) (2 ^ (Z.max (- e) 0)) in
      str_of_Z (k / 1000) ++ py "." ++ pad3 (str_of_Z (k mod 1000))
  end.

End F64.

(** ** Configuration tables (app.py, lines 29-37) *)

Definition GENOTYPE_KEYWORDS : list str :=
  List.map py ["MassARRAY"; "massarray"; "MassARRAY genotyping"; "whole exome sequencing";
               "WES"; "PCR"; "TaqMan"; "microarray"; "sequencing"; "Sanger"; "genotyping"]%string.

Definition STUDY_DESIGN_KEYWORDS : list (str * list str) :=
  [ (py "Case control", List.map py ["case-control"; "case control"; "case-control study"]%string);
    (py "Cohort", List.map py ["cohort"; "prospective cohort"; "retrospective cohort"]%string);
    (py "Cross-sectional", List.map py ["cross-sectional"]%string);
    (py "RCT", List.map py ["randomized"; "randomised"; "randomized controlled trial"]%string);
    (py "Meta-analysis", List.map py ["meta-analysis"; "meta analysis"; "systematic review"]%string) ].

Definition REGION_KEYWORDS : list str :=
  List.map py ["Pakistan"; "Pashtun"; "KPK"; "Khyber"; "Sindh"; "Punjab"; "Balochistan";
               "India"; "China"; "USA"; "United States"]%string.

(** ** Heuristic extractors (app.py, lines 175-219 and 274-279) *)

(** What a cell of the row holds: a string or an integer. *)
Inductive value :=
| VStr (s : str)
| VInt (z : Z).

(** The loop over [STUDY_DESIGN_KEYWORDS.items()], on the lowered text. *)
Fixpoint design_scan (table : list (str * list str)) (t : str) : str :=
  match table with
  | [] => []
  | (label, keys) :: tl =>
      if existsb (contains t) keys then label else design_scan tl t
  end.

Definition find_study_design (text : str) : str :=
  match text with
  | [] => []
  | _ => design_scan STUDY_DESIGN_KEYWORDS (lower text)
  end.

(** [\b REGION \b], compiled with [re.I] *)
Definition region_re (r : str) : re := cat [WordB; lits r; WordB].

Definition found (o : option mobj) : bool :=
  match o with Some _ => true | None => false end.

Fixpoint region_scan (table : list str) (text : str) : str :=
  match table with
  | [] => []
  | r :: tl => if found (search true (region_re r) text) then r else region_scan tl text
  end.

Definition find_region (text : str) : str :=
  match text with
  | [] => []
  | _ => region_scan REGION_KEYWORDS text
  end.

Definition d09 : re := Cls false [rg "0" "9"].
Definition num26 : re := rep digit 2 6.

(** Line 194: [\b [nN] \s* = \s* (\d{2,6})] *)
Definition size_re1 : re :=
  cat [WordB; Cls false (set "nN"); star space; ch "="; star space; Grp 1 num26].

(** Line 196: [sample size (?:of )?(\d{2,6})] *)
Definition size_re2 : re :=
  cat [txt "sample size "; opt (txt "of "); Grp 1 num26].

(** Line 198: [(\d{2,6}) \s+ T2DM cases and controls each] *)
Definition size_re3 : re :=
  cat [Grp 1 num26; plus space; txt "T2DM cases and controls each"].

(** Line 200: [(\d{2,6}) \s+ (?:cases|subjects) [^\d]{0,30}? (\d{2,6}) \s+ controls] *)
Definition size_re4 : re :=
  cat [Grp 1 num26; plus space; Alt (txt "cases") (txt "subjects");
       Rep nondigit 0 (Some 30) false; Grp 2 num26; plus space; txt "controls"].

(** Line 204: [\b (\d{2,6}) \b] *)
Definition size_re5 : re := cat [WordB; Grp 1 num26; WordB].

(** [max(nums)] of a non-empty list *)
Definition list_max (z : Z) (l : list Z) : Z := fold_left Z.max l z.

Definition find_sample_size (text : str) : value :=
  match text with
  | [] => VStr []
  | _ =>
      let t := remove_char 44%N text in
      match search false size_re1 t with
      | Some m => VInt (int_of_digits (grp m 1))
      | None =>
      match search false size_re2 t with
      | Some m => VInt (int_of_digits (grp m 1))
      | None =>
      match search false size_re3 t with
      | Some m => VInt (int_of_digits (grp m 1) * 2)
      | None =>
      match search false size_re4 t with
      | Some m => VInt (int_of_digits (grp m 1) + int_of_digits (grp m 2))
      | None =>
          match List.map int_of_digits (findall1 false size_re5 t) with
          | [] => VStr []
          | n :: nums =>
              let big := list_max n nums in
              if (30 <=? big)%Z then VInt big else VStr []
          end
      end end end end
  end.

Definition PLUSMINUS : char := 177%N.

(** [[0-9]{1,3}(?:\.[0-9]+)?] *)
Definition age_num : re := cat [rep d09 1 3; opt (cat [ch "."; plus d09])].

(** [(?:±|\+/-)] *)
Definition pm : re := Alt (lit PLUSMINUS) (txt "+/-").

(** Line 212, with [re.I] *)
Definition age_re1 : re :=
  cat [txt "mean age"; rep (Cls true [rg "0" "9"]) 0 6; Grp 1 age_num;
       star space; pm; star space; Grp 2 age_num].

(** Line 214, with [re.I] *)
Definition age_re2 : re :=
  cat [txt "mean age "; opt (Alt (txt "was") (txt "of")); star space; Grp 1 age_num].

Definition colon_space : re := star (Cls false [ILit 58%N; ISpace]).

(** Line 216, with [re.I] *)
Definition age_re3 : re :=
  cat [txt "case"; colon_space; Grp 1 age_num; star space; pm; star space; Grp 2 age_num;
       star space; star dot; txt "control"; colon_space; Grp 3 age_num;
       star space; pm; star space; Grp 4 age_num].

Definition find_mean_age (text : str) : str :=
  match text with
  | [] => []
  | _ =>
      match search true age_re1 text with
      | Some m => grp m 1 ++ py " " ++ [PLUSMINUS] ++ py " " ++ grp m 2
      | None =>
      match search true age_re2 text with
      | Some m => grp m 1
      | None =>
      match search true age_re3 text with
      | Some m =>
          py "case:" ++ grp m 1 ++ [PLUSMINUS] ++ grp m 2 ++
          py " control:" ++ grp m 3 ++ [PLUSMINUS] ++ grp m 4
      | None => []
      end end end
  end.

Fixpoint method_scan (table : list str) (text : str) : str :=
  match table with
  | [] => []
  | key :: tl => if contains (lower text) (lower key) then key else method_scan tl text
  end.

Definition find_genotyping_method (text : str) : str :=
  match text with
  | [] => []
  | _ => method_scan GENOTYPE_KEYWORDS text
  end.

(** ** Allele frequencies (app.py, lines 281-296) *)

Definition non09 : re := Cls true [rg "0" "9"].

(** Line 285: [RSID [^0-9]{0,8} ([01]?\.\d{1,4})] *)
Definition freq_re1 (rsi : str) : re :=
  cat [lits rsi; rep non09 0 8; Grp 1 (cat [opt (Cls false (set "01")); ch "."; rep digit 1 4])].

(** Line 289: [RSID [^0-9]{0,8} ([0-9]{1,3}\.\d{1,2}) \s* %] *)
Definition freq_re2 (rsi : str) : re :=
  cat [lits rsi; rep non09 0 8; Grp 1 (cat [rep d09 1 3; ch "."; rep digit 1 2]);
       star space; ch "%"].

(** The value stored under one rsID. *)
Definition allele_freq (text rsi : str) : option str :=
  match search false (freq_re1 rsi) text with
  | Some m => Some (grp m 1)
  | None =>
      match search false (freq_re2 rsi) text with
      | Some m =>
          match F64.float_of_str (grp m 1) with
          | Some v => Some (F64.format_3f (F64.div v (F64.of_Z 100)))
          | None => Some (grp m 1 ++ py "%")
          end
      | None => None
      end
  end.

Definition extract_allele_freqs (text : str) (rsids : list str) : list (str * option str) :=
  let freqs := fold_left (fun d r => Dict.set d r None) rsids [] in
  match text with
  | [] => freqs
  | _ =>
      fold_left (fun d rsi =>
                   match allele_freq text rsi with
                   | Some f => Dict.set d rsi (Some f)
                   | None => d
                   end) rsids freqs
  end.

(** ** Odds ratios and p-values (app.py, lines 298-330) *)

(** [rs\d{3,}] as a group *)
Definition rs_grp (n : nat) : re := Grp n (cat [ch "r"; ch "s"; atleast digit 3]).

(** [[0-9]+\.[0-9]+] *)
Definition or_num : re := cat [plus d09; ch "."; plus d09].

(** [P \s* [=<>] \s* ([0-9\.>]+)] *)
Definition p_clause (n : nat) : re :=
  cat [ch "P"; star space; Cls false (set "=<>"); star space;
       Grp n (plus (Cls false [rg "0" "9"; ILit 46%N; ILit 62%N]))].

(** Line 301, with [re.I] *)
Definition or_re1 : re :=
  cat [opt (cat [rs_grp 1; rep (Cls true (set "(),;")) 0 40]);
       Alt (txt "OR") (txt "odds ratio"); star space; opt (Cls false (set "=:")); star space;
       Grp 2 or_num; WordB; Rep (Cls true (set ")")) 0 (Some 80) false;
       opt (p_clause 3)].

(** Line 304, with [re.I] *)
Definition or_re2 : re :=
  cat [rs_grp 1; rep (Cls true (set ")")) 0 40; ch "("; lazy_star dot; txt "OR";
       star space; opt (Cls false (set "=:")); star space; Grp 2 or_num;
       lazy_star dot; p_clause 3].

Record or_entry := mkOr { o_rsid : option str; o_OR : option str; o_P : option str }.

(** [f"{x}"] for a value that is a string or [None] *)
Definition fmt (o : option str) : str :=
  match o with Some s => s | None => py "None" end.

(** Truthiness of a value that is a string or [None] *)
Definition truthy (o : option str) : bool :=
  match o with Some (_ :: _) => true | _ => false end.

(** [x or ''] *)
Definition or_empty (o : option str) : str :=
  match o with Some s => s | None => [] end.

Definition entry_of (m : mobj) : or_entry := mkOr (group m 1) (group m 2) (group m 3).

Definition or_key (e : or_entry) : str :=
  if truthy (o_rsid e) then or_empty (o_rsid e)
  else py "OR_" ++ fmt (o_OR e) ++ py "_P_" ++ fmt (o_P e).

Definition extract_or_pvals (text : str) : list or_entry :=
  match text with
  | [] => []
  | _ =>
      let entries := List.map entry_of (finditer true or_re1 text)
                     ++ List.map entry_of (finditer true or_re2 text) in
      let unique := fold_left (fun u e => Dict.setdefault u (or_key e) e) entries [] in
      List.map snd unique
  end.

Definition UP : char := 8593%N.
Definition ARROW : char := 8594%N.
Definition DOWN : char := 8595%N.

Definition RISK_UP : str := py "Risk " ++ [UP].
Definition RISK_DOWN : str := py "Risk " ++ [DOWN].
Definition NO_CHANGE : str := py "No change".
Definition NOT_SIGNIFICANT : str := py "No significant effect (ns)".

(** The literal [0.05] *)
Definition p_threshold : F64.float := F64.round_q 5 100.

(** [p_sig]: [Some true], [Some false] or [None] *)
Definition p_significant (p_str : str) : option bool :=
  match p_str with
  | [] => None
  | _ =>
      let s := if contains p_str (py ">") then remove_char 62%N p_str else p_str in
      match F64.float_of_str s with
      | Some p => Some (F64.leb p p_threshold)
      | None => None
      end
  end.

Definition infer_effect_direction (or_str p_str : str) : str :=
  match F64.float_of_str or_str with
  | None => []
  | Some orv =>
      let p_sig := p_significant p_str in
      let eff := if F64.gtb orv (F64.of_Z 1) then RISK_UP
                 else if F64.ltb orv (F64.of_Z 1) then RISK_DOWN
                 else NO_CHANGE in
      match p_sig with
      | Some false => NOT_SIGNIFICANT
      | _ => eff
      end
  end.

(** ** The parsed page

    What app.py asks of the BeautifulSoup tree. *)

Record MetaTag := mkMeta { a_name : option str; a_property : option str; a_content : option str }.

Record Tag := mkTag {
  t_name : str;
  t_class : list str;            (* tag.get('class', []) *)
  t_id : option str;             (* tag.get('id') *)
  t_text : str;                  (* tag.get_text() *)
  t_text_strip : str             (* tag.get_text(' ', strip=True) *)
}.

Record Page := mkPage {
  metas : list MetaTag;                    (* the meta elements, in document order *)
  title_string : option (option str);      (* soup.title, and its .string *)
  page_text : str;                         (* soup.get_text(' ') *)
  tags : list Tag;                         (* every element, in document order *)
  authors_box : option (list Tag)          (* select_one(...): its descendants, in order *)
}.

(** A run of Python code: a value, or an exception that escapes. *)
Inductive result (A : Type) :=
| Ok (a : A)
| Raise (exn : str).
Arguments Ok {A} a.
Arguments Raise {A} exn.

Definition bind (A B : Type) (x : result A) (f : A -> result B) : result B :=
  match x with
  | Ok a => f a
  | Raise e => Raise e
  end.

Definition opt_eqb (o : option str) (k : str) : bool :=
  match o with Some x => str_eqb x k | None => false end.

Definition content_of (t : option MetaTag) : option str :=
  match t with
  | Some m => if truthy (a_content m) then Some (strip (or_empty (a_content m))) else None
  | None => None
  end.

(** Lines 99-106 *)
Definition get_meta (soup : Page) (key : str) : option str :=
  match content_of (find (fun m => opt_eqb (a_name m) key) (metas soup)) with
  | Some c => Some c
  | None => content_of (find (fun m => opt_eqb (a_property m) key) (metas soup))
  end.

(** [a or b] on values that are strings or [None] *)
Definition por (a b : option str) : option str := if truthy a then a else b.

(** Line 137: [^ [A-Z][a-z]+ (?: \s+ [A-Z][a-z]+ )+ $] *)
Definition name_re : re :=
  cat [Bol; Cls false [rg "A" "Z"]; plus (Cls false [rg "a" "z"]);
       Rep (cat [plus space; Cls false [rg "A" "Z"]; plus (Cls false [rg "a" "z"])]) 1 None true;
       Eol].

Definition looks_like_name (txt : str) : bool :=
  match txt with
  | [] => false
  | _ => found (rmatch false name_re txt)
  end.

(** The first text among [l] that looks like a person's name *)
Definition first_name_in (l : list Tag) : str :=
  match find looks_like_name (List.map t_text_strip l) with
  | Some txt => txt
  | None => []
  end.

Definition tag_named (names : list str) (t : Tag) : bool := mem (t_name t) names.

Record Metadata := mkMetadata {
  title : str; first_author : str; authors_list : str; journal : str;
  doi : str; pmid : str; year : str
}.

(** Line 117: [(\d{4})] *)
Definition year_re : re := Grp 1 (rep digit 4 4).

(** Line 121: [© \s* (\d{4})] *)
Definition copyright_re : re := cat [lit 169%N; star space; Grp 1 (rep digit 4 4)].

Section Article.

(** [html.unescape] *)
Variable unescape : str -> str.

(** Line 110: the title, where [soup.title.string.strip()] fails on a
    title element without a single string inside. *)
Definition title_of (soup : Page) : result str :=
  match por (get_meta soup (py "citation_title")) (get_meta soup (py "og:title")) with
  | Some (c :: t) => Ok (c :: t)
  | _ =>
      match title_string soup with
      | Some (Some s) => Ok (strip s)
      | Some None => Raise (py "AttributeError: 'NoneType' object has no attribute 'strip'")
      | None => Ok []
      end
  end.

(** Lines 108-158 *)
Definition extract_basic_metadata (soup : Page) : result Metadata :=
  bind (title_of soup) (fun title =>
  let journal := or_empty (por (por (get_meta soup (py "citation_journal_title"))
                                    (get_meta soup (py "citation_journal")))
                               (por (get_meta soup (py "og:site_name")) (Some []))) in
  let doi := or_empty (por (por (get_meta soup (py "citation_doi"))
                                (get_meta soup (py "DC.identifier"))) (Some [])) in
  let pmid := or_empty (por (get_meta soup (py "citation_pmid")) (Some [])) in
  let date := or_empty (por (por (get_meta soup (py "citation_publication_date"))
                                 (get_meta soup (py "citation_date"))) (Some [])) in
  let year :=
    match date with
    | [] => []
    | _ => match search false year_re date with Some m => grp m 1 | None => [] end
    end in
  let year :=
    match year with
    | [] => match search false copyright_re (page_text soup) with
            | Some m => grp m 1
            | None => []
            end
    | _ => year
    end in
  let authors_meta :=
    List.map (fun m => strip (or_empty (a_content m)))
      (filter (fun m => opt_eqb (a_name m) (py "citation_author") && truthy (a_content m))
              (metas soup)) in
  let first_author := match authors_meta with a :: _ => a | [] => [] end in
  let authors_str := join (py ", ") authors_meta in
  let found_authors :=
    match first_author with
    | _ :: _ => (first_author, authors_str)
    | [] =>
        let fa :=
          match authors_box soup with
          | Some inside =>
              first_name_in
                (firstn 30 (filter (tag_named (List.map py ["a"; "span"; "li"]%string)) inside))
          | None => []
          end in
        let fa :=
          match fa with
          | _ :: _ => fa
          | [] => first_name_in (firstn 120 (filter (tag_named [py "a"]) (tags soup)))
          end in
        (fa, match authors_str with [] => fa | _ => authors_str end)
    end in
  let first_author := fst found_authors in
  let authors_str := snd found_authors in
  Ok (mkMetadata
        (match title with [] => [] | _ => unescape title end)
        first_author
        (match authors_str with [] => first_author | _ => authors_str end)
        (match journal with [] => [] | _ => unescape journal end)
        doi pmid year)).

End Article.

(** ** The abstract (app.py, lines 161-172) *)

Definition is_abstract_box (t : Tag) : bool :=
  tag_named (List.map py ["div"; "section"; "p"]%string) t
  && (contains (lower (join (py " ") (t_class t))) (py "abstract")
      || contains (lower (or_empty (t_id t))) (py "abstract")).

(** [max(paras, key=lambda p: len(p.get_text()))]: the first of the longest *)
Fixpoint longest (best : Tag) (l : list Tag) : Tag :=
  match l with
  | [] => best
  | p :: tl =>
      if Nat.ltb (length (t_text best)) (length (t_text p)) then longest p tl
      else longest best tl
  end.

Definition get_abstract_text (soup : Page) : str :=
  match por (por (get_meta soup (py "citation_abstract")) (get_meta soup (py "og:description")))
            (get_meta soup (py "description")) with
  | Some (c :: t) => c :: t
  | _ =>
      match find is_abstract_box (tags soup) with
      | Some abs_tag => t_text_strip abs_tag
      | None =>
          match filter (tag_named [py "p"]) (tags soup) with
          | p :: paras => t_text_strip (longest p paras)
          | [] => []
          end
      end
  end.

(** ** Assembling the row (app.py, lines 333-434) *)

Definition ARROW_SEP : str := py " " ++ [ARROW] ++ py " ".

(** Lines 353-361: the three lines of one odds-ratio entry *)
Definition or_lines (item : or_entry) : str * str * str :=
  let rsi := or_empty (o_rsid item) in
  let orv := or_empty (o_OR item) in
  let p := or_empty (o_P item) in
  let label := match rsi with [] => py "OR:" ++ orv | _ => rsi end in
  let eff := match orv with [] => [] | _ => infer_effect_direction orv p end in
  (label ++ py " (OR=" ++ orv ++ py ") P=" ++ p,
   label ++ ARROW_SEP ++ match eff with [] => py "Unknown" | _ => eff end,
   label ++ ARROW_SEP ++ p).

(** Line 365, with [re.I]: [RSID [^.]{0,80} P \s* [=<>] \s* ([0-9\.>]+)] *)
Definition p_only_re (rsi : str) : re :=
  cat [lits rsi; rep (Cls true (set ".")) 0 80; p_clause 1].

(** Lines 363-368 *)
Fixpoint p_only_lines (big : str) (rsids : list str) : list (str * str) :=
  match rsids with
  | [] => []
  | rsi :: tl =>
      match search true (p_only_re rsi) big with
      | Some m => (rsi ++ ARROW_SEP ++ grp m 1, rsi ++ ARROW_SEP ++ py "P=" ++ grp m 1)
                    :: p_only_lines big tl
      | None => p_only_lines big tl
      end
  end.

(** [gene_map.get(r,{}).get('gene','')]: the default is used only when
    the key is missing *)
Definition gene_or_default (gene_map : list (str * entry)) (r : str) : option str :=
  match Dict.get gene_map r with
  | Some e => gene e
  | None => Some []
  end.

(** [allele_freqs.get(r)] *)
Definition freq_get (freqs : list (str * option str)) (r : str) : option str :=
  match Dict.get freqs r with
  | Some v => v
  | None => None
  end.

(** Line 370 *)
Definition allele_freq_cell (rsids : list str) (gene_map : list (str * entry))
    (allele_freqs : list (str * option str)) : str :=
  join newline
    (List.map (fun r => fmt (gene_or_default gene_map r) ++ py " (" ++ r ++ py ")" ++ ARROW_SEP
                          ++ fmt (freq_get allele_freqs r))
              (filter (fun r => truthy (freq_get allele_freqs r)) rsids)).

Definition COLUMNS : list str :=
  List.map py ["Author(s)"; "Title"; "Year"; "Journal"; "DOI/PMID"; "Study Design"; "Region";
               "Sample Size (Cases)"; "Mean Age"; "Gene"; "SNP/Variant"; "Genotyping Method";
               "Allele Frequency (Cases)"; "Reported Association"; "Effect Direction"; "p-value";
               "Quality Score (NOS)"; "Comments/Remarks"]%string.

Definition row := list (str * value).

(** Everything [parse_article] derives from the corpus. *)
Record derived := mkDerived {
  d_study_design : str; d_region : str; d_sample_size : value; d_mean_age : str;
  d_gene_cell : str; d_snp_list : str; d_method : str; d_allele_cell : str;
  d_assoc : str; d_effect : str; d_pvalue : str; d_quality : str; d_comments : str
}.

Definition derive (big : str) : derived :=
  let study_design := find_study_design big in
  let region := find_region big in
  let sample_size := find_sample_size big in
  let mean_age := find_mean_age big in
  let '(rsids, gene_map, genes_ordered) := extract_rsids_and_genes_with_annotations big in
  let genotyping_method := find_genotyping_method big in
  let allele_freqs := extract_allele_freqs big rsids in
  let or_pvals := extract_or_pvals big in
  let lines := List.map or_lines or_pvals in
  let reported_assoc_lines := List.map (fun l => fst (fst l)) lines in
  let effect_dir_lines := List.map (fun l => snd (fst l)) lines in
  let pvalue_lines := List.map snd lines in
  let extra := match or_pvals with [] => p_only_lines big rsids | _ => [] end in
  let pvalue_lines := pvalue_lines ++ List.map fst extra in
  let reported_assoc_lines := reported_assoc_lines ++ List.map snd extra in
  let quality :=
    if found (search true (txt "SIFT") big) || found (search true (txt "PolyPhen") big)
    then py "1:SIFT score 2:PolyPhen score" else [] in
  let comments :=
    if contains (lower study_design) (py "case control")
    then py "Case-control study; sample size estimation and replication required."
    else py "Parsed heuristically from abstract/meta." in
  mkDerived study_design region sample_size mean_age
    (gene_cell_of rsids gene_map genes_ordered)
    (join newline rsids)
    genotyping_method
    (allele_freq_cell rsids gene_map allele_freqs)
    (join newline reported_assoc_lines)
    (join newline effect_dir_lines)
    (join newline pvalue_lines)
    quality comments.

Section Parse.

Variable unescape : str -> str.

(** Line 339: the corpus *)
Definition corpus (meta : Metadata) (abstract text : str) : str :=
  join (py " ") [title meta; authors_list meta; journal meta; doi meta; abstract; text].

(** [parse_article], from the parsed page on *)
Definition parse_article (soup : Page) : result row :=
  bind (extract_basic_metadata unescape soup) (fun meta =>
  let abstract := get_abstract_text soup in
  let big := corpus meta abstract (page_text soup) in
  let d := derive big in
  let author_display :=
    match first_author meta with [] => authors_list meta | a => a end in
  let ids :=
    match pmid meta, doi meta with
    | [], [] => []
    | _, _ => strip (py "PMID: " ++ pmid meta ++ newline ++ py "DOI: " ++ doi meta)
    end in
  Ok (combine COLUMNS
        [VStr author_display; VStr (title meta); VStr (year meta); VStr (journal meta);
         VStr ids; VStr (d_study_design d); VStr (d_region d); d_sample_size d;
         VStr (d_mean_age d); VStr (d_gene_cell d); VStr (d_snp_list d); VStr (d_method d);
         VStr (d_allele_cell d); VStr (d_assoc d); VStr (d_effect d); VStr (d_pvalue d);
         VStr (d_quality d); VStr (d_comments d)])).

End Parse.

(** ** What a pattern matches, stated without the search order *)

Module Sem.

(** [n] steps of [R] in a row *)
Fixpoint pow (R : st -> st -> Prop) (n : nat) (s s' : st) : Prop :=
  match n with
  | O => s' = s
  | S n' => exists s1, R s s1 /\ pow R n' s1 s'
  end.

Definition advancing (R : st -> st -> Prop) (s s' : st) : Prop :=
  R s s' /\ progress s s' = true.

Definition upto (hi : option nat) (lo j : nat) : Prop :=
  match hi with
  | None => True
  | Some h => j <= h - lo
  end.

(** [M ci r s s']: pattern [r] can take the matcher from [s] to [s']. *)
Fixpoint M (ci : bool) (r : re) (s s' : st) : Prop :=
  match r with
  | Eps => s' = s
  | Cls neg items =>
      exists c t, rest s = c :: t /\ cls_mem ci neg items c = true
                  /\ s' = mkSt (Some c) t (caps s)
  | Seq a b => exists s1, M ci a s s1 /\ M ci b s1 s'
  | Alt a b => M ci a s s' \/ M ci b s s'
  | Rep a lo hi _ =>
      exists s1 j, pow (M ci a) lo s s1 /\ upto hi lo j /\ pow (advancing (M ci a)) j s1 s'
  | Grp n a => exists s1, M ci a s s1 /\ s' = set_cap n s s1
  | WordB => at_boundary s = true /\ s' = s
  | Bol => at_bol s = true /\ s' = s
  | Eol => at_eol s = true /\ s' = s
  end.

(** The character before the cursor once [w] has been read. *)
Fixpoint after (p : option char) (w : str) : option char :=
  match w with
  | [] => p
  | c :: w' => after (Some c) w'
  end.

(** Moving over [w], whatever happens to the groups. *)
Definition moves (s : st) (w : str) (s' : st) : Prop :=
  rest s = w ++ rest s' /\ prev s' = after (prev s) w.

(** Reading [w] and nothing else: the groups stay as they are. *)
Definition reads (s : st) (w : str) (s' : st) : Prop :=
  moves s w s' /\ caps s' = caps s.

(** The state in which a search looks at the text [a ++ b] between [a] and [b]. *)
Definition at_split (a b : str) : st := mkSt (after None a) b [].

End Sem.
Import Sem.

(** ** The claims' vocabulary *)


(** [k] occurs in [t] *)
Definition Occurs (k t : str) : Prop := exists a b, t = a ++ k ++ b.

(** Two characters that [re.I] identifies *)
Definition same_letter (c l : char) : Prop := lower_char c = lower_char l.

(** [r] occurs in [text] as a whole word, in any letter case *)
Definition WholeWord (r text : str) : Prop :=
  exists a w b,
    text = a ++ w ++ b /\ Forall2 same_letter w r
    /\ at_boundary (at_split a (w ++ b)) = true
    /\ at_boundary (at_split (a ++ w) b) = true.

(** The spelling of an rsID token: r or R, s or S, three digits or more *)
Definition RsidShape (x : str) : Prop :=
  exists c1 c2 ds,
    x = c1 :: c2 :: ds /\ (c1 = 114%N \/ c1 = 82%N) /\ (c2 = 115%N \/ c2 = 83%N)
    /\ 3 <= length ds /\ Forall (fun d => is_digit d = true) ds.

(** The hits of the rsID pattern: where each token starts, and the token *)
Definition rsid_hits (text : str) : list (nat * str) :=
  List.map (fun m => (m_start m, grp m 1)) (finditer true rsid_re text).

(** [text[i : i + len(x)] == x] *)
Definition substring_at (text : str) (i : nat) (x : str) : Prop :=
  exists a b, text = a ++ x ++ b /\ length a = i.

(** Strictly increasing *)
Fixpoint increasing (l : list nat) : Prop :=
  match l with
  | [] => True
  | x :: l' => match l' with [] => True | y :: _ => x < y end /\ increasing l'
  end.

(** ** Sample size as a cascade of rules

    The reading of the specification: an ordered list of rules, the
    first that succeeds gives the value. *)











(** ** Gene groups: the claims' vocabulary *)

(** The gene stored for an rsID. *)
Definition gene_of (gene_map : list (str * entry)) (r : str) : option str :=
  entry_get_gene (Dict.get gene_map r).

(** Index, in [rsids], of the first rsID whose gene is [g]. *)
Fixpoint first_with (f : str -> option str) (g : str) (rsids : list str) : option nat :=
  match rsids with
  | [] => None
  | r :: tl => if opt_str_eqb (f r) g then Some 0 else option_map S (first_with f g tl)
  end.

(** The line of the group that comes [k]-th, counting from 0. *)
Definition group_line (rsids : list str) (gene_map : list (str * entry)) (k : nat) (g : str) : str :=
  str_of_N (N.of_nat (S k)) ++ py ":" ++ g ++ py "("
    ++ join (py ", ") (rs_for_gene rsids gene_map g) ++ py ")".

Fixpoint lines_from (rsids : list str) (gene_map : list (str * entry)) (k : nat)
    (genes : list str) : list str :=
  match genes with
  | [] => []
  | g :: tl => group_line rsids gene_map k g :: lines_from rsids gene_map (S k) tl
  end.

(** The genes met along [rsids], each with the index of its first rsID;
    [seen] are the genes met before. *)
Fixpoint first_positions (f : str -> option str) (idx : nat) (rsids seen : list str)
  : list (str * nat) :=
  match rsids with
  | [] => []
  | r :: tl =>
      match f r with
      | Some g =>
          if mem g seen then first_positions f (S idx) tl seen
          else (g, idx) :: first_positions f (S idx) tl (g :: seen)
      | None => first_positions f (S idx) tl seen
      end
  end.

(** ** Allele frequencies: the claims' vocabulary *)

Definition Digits (ds : str) : Prop := Forall (fun d => is_digit d = true) ds.






(** ** Effect direction: the claims' vocabulary *)

(** The form of a retained odds ratio: digits, a point, digits *)
Definition OrForm (s : str) : Prop :=
  exists ip ds, s = ip ++ 46%N :: ds /\ Digits ip /\ Digits ds /\ ip <> [] /\ ds <> [].

(** The marker chosen from the odds ratio alone. *)
Definition by_ratio (orv : F64.float) : str :=
  match F64.compare orv (F64.of_Z 1) with
  | Gt => RISK_UP
  | Lt => RISK_DOWN
  | Eq => NO_CHANGE
  end.

(** ** Pages used in the statements *)

(** The title hints of line 110 give nothing. *)
Definition no_title_hint (soup : Page) : Prop :=
  truthy (por (get_meta soup (py "citation_title")) (get_meta soup (py "og:title"))) = false.

(** A page that holds nothing but a text. *)
Definition text_page (text : str) : Page := mkPage [] None text [] None.

(** A page whose only content is an empty title element. *)
Definition empty_title_page : Page := mkPage [] (Some None) [] [] None.

(** ** Vocabulary of the proofs *)

(** The match object built from a run from [s] to [s']. *)
Definition mobj_of (pos : nat) (s s' : st) : mobj := mkM pos (consumed s s') s' (caps s').

(** [c] is matched by the literal [l] *)
Definition lit_ok (ci : bool) (c l : char) : Prop := cls_mem ci false [ILit l] c = true.

(** [r] reads exactly the strings that satisfy [P] and touches no group. *)
Definition Reads (ci : bool) (r : re) (P : str -> Prop) : Prop :=
  forall s s', M ci r s s' <-> exists w, reads s w s' /\ P w.

(** The state after reading [w], with [t] left. *)
Definition advance (s : st) (w t : str) : st := mkSt (after (prev s) w) t (caps s).

(** [x] is the first element of [l] that satisfies [P]. *)
Definition FirstIn (A : Type) (P : A -> Prop) (l : list A) (x : A) : Prop :=
  exists pre post, l = pre ++ x :: post /\ P x /\ forall y, In y pre -> ~ P y.




(** * Further definitions

    The permission gate, and the vocabulary of the statements that are
    spelled out character by character. *)

(** ** The domain of the character tables

    The tables of [Str] are those of CPython on U+0000..U+00FF.  A
    statement that depends on them beyond what the patterns spell out in
    ASCII is made of the strings of that range. *)

(** Every character of [s] is in U+0000..U+00FF. *)
Definition Latin1 (s : str) : Prop := Forall (fun c => (c < 256)%N) s.

(** [c] is the ASCII character [l], or the same letter in the other case. *)
Definition AsciiCase (c l : char) : Prop :=
  c = l
  \/ ((97 <= l <= 122)%N /\ (c + 32 = l)%N)
  \/ ((65 <= l <= 90)%N /\ c = (l + 32)%N).

(** [w] spells [k] in some letter case. *)
Definition Spells (w k : str) : Prop := Forall2 AsciiCase w k.



(** ** The permission gate (app.py, lines 41-87) *)

(** Line 62, with [re.I]: [Status: \s* ON] *)
Definition status_on_re : re := cat [txt "Status:"; star space; txt "ON"].

(** Line 64, with [re.I]: [Status: \s* OFF] *)
Definition status_off_re : re := cat [txt "Status:"; star space; txt "OFF"].

(** [check_application_status], from the outcome of the connection test
    and of the request on: [response] is the text of the README page, or
    the exception that [requests.get] or [raise_for_status] raised. *)
Definition check_application_status (internet : bool) (response : result str) : bool * str :=
  if negb internet then (false, py "internet")
  else
    match response with
    | Raise _ => (false, py "unreachable")
    | Ok text =>
        let content := strip text in
        if found (search true status_on_re content) then (true, py "enabled")
        else if found (search true status_off_re content) then (false, py "disabled")
        else (false, py "disabled")
    end.

(** [show_permission_dialog]: the dialog shown, if any, as its title and
    message, and the value returned. *)
Definition show_permission_dialog (status_type : str) : option (str * str) * bool :=
  if str_eqb status_type (py "internet")
  then (Some (py "No Internet Connection", py "Please connect to internet to use application"),
        false)
  else if mem status_type [py "disabled"; py "unreachable"]
  then (Some (py "Permission Required",
              py "Please obtain permissions from Farrukh to use this application."),
        false)
  else (None, false).

(** The README says that the status is on: [Status:], blanks, [ON], in
    any letter case. *)
Definition StatusOn (content : str) : Prop :=
  exists a w1 sp w2 b,
    content = a ++ w1 ++ sp ++ w2 ++ b
    /\ Spells w1 (py "Status:")
    /\ Forall (fun c => is_space c = true) sp
    /\ Spells w2 (py "ON").

(** The text of the page and the contents of its meta elements are
    within U+0000..U+00FF. *)
Definition Latin1Page (soup : Page) : Prop :=
  Latin1 (page_text soup)
  /\ Forall (fun m => match a_content m with Some c => Latin1 c | None => True end)
            (metas soup).

(** The body of the response, when there is one, is within U+0000..U+00FF. *)
Definition Latin1Response (response : result str) : Prop :=
  match response with
  | Ok text => Latin1 text
  | Raise _ => True
  end.

(** Lines 437-442 *)
Definition DEFAULT_COLS : list str :=
  List.map py ["Author(s)"; "Title"; "Year"; "Journal"; "DOI/PMID"; "Study Design"; "Region";
               "Sample Size (Cases)"; "Mean Age"; "Gene"; "SNP/Variant"; "Genotyping Method";
               "Allele Frequency (Cases)"; "Reported Association"; "Effect Direction"; "p-value";
               "Quality Score (NOS)"; "Comments/Remarks"]%string.

(** ** Groups: where a captured string can come from *)

(** [Cap ci r n x]: some group numbered [n] inside [r] can capture [x]. *)
Fixpoint Cap (ci : bool) (r : re) (n : nat) (x : str) : Prop :=
  match r with
  | Grp k a => (k = n /\ exists s s', M ci a s s' /\ consumed s s' = x) \/ Cap ci a n x
  | Seq a b => Cap ci a n x \/ Cap ci b n x
  | Alt a b => Cap ci a n x \/ Cap ci b n x
  | Rep a _ _ _ => Cap ci a n x
  | _ => False
  end.

(** Group [n] takes part in every match of [r]. *)
Fixpoint always_sets (r : re) (n : nat) : bool :=
  match r with
  | Grp k a => Nat.eqb k n || always_sets a n
  | Seq a b => always_sets a n || always_sets b n
  | Alt a b => always_sets a n && always_sets b n
  | Rep a lo _ _ => negb (Nat.eqb lo 0) && always_sets a n
  | _ => false
  end.

(** The groups of a pattern, each with what it encloses. *)
Fixpoint groups_of (r : re) : list (nat * re) :=
  match r with
  | Grp k a => (k, a) :: groups_of a
  | Seq a b => groups_of a ++ groups_of b
  | Alt a b => groups_of a ++ groups_of b
  | Rep a _ _ _ => groups_of a
  | _ => []
  end.

(** The label of an odds-ratio entry (line 357) *)
Definition or_label (e : or_entry) : str :=
  match or_empty (o_rsid e) with
  | [] => py "OR:" ++ or_empty (o_OR e)
  | r => r
  end.

(** The four markers of [infer_effect_direction] *)
Definition MARKERS : list str := [RISK_UP; RISK_DOWN; NO_CHANGE; NOT_SIGNIFICANT].

(** Neither the first nor the last character is a blank. *)
Definition Stripped (s : str) : Prop :=
  (forall c t, s = c :: t -> is_space c = false)
  /\ (forall t c, s = t ++ [c] -> is_space c = false).

(** Between [lo] and [hi] digits *)
Definition DigitRun (lo hi : nat) (x : str) : Prop :=
  lo <= length x <= hi /\ Digits x.

(** A string of the characters of a p-value: digits, points, greater-than signs *)
Definition PChars (x : str) : Prop :=
  x <> [] /\ Forall (fun c => is_digit c = true \/ c = 46%N \/ c = 62%N) x.

(** The form of an odds-ratio entry: its odds ratio, and its rsID and
    p-value when it has them. *)
Definition entry_formed (e : or_entry) : Prop :=
  (exists x, o_OR e = Some x /\ OrForm x)
  /\ (forall r, o_rsid e = Some r -> RsidShape r)
  /\ (forall p, o_P e = Some p -> PChars p).

(** Line 301 up to the odds ratio, that is without its last three parts:
    the word boundary, the lazy gap and the optional p-value. *)
Definition or_head : re :=
  cat [opt (cat [rs_grp 1; rep (Cls true (set "(),;")) 0 40]);
       Alt (txt "OR") (txt "odds ratio"); star space; opt (Cls false (set "=:")); star space;
       Grp 2 or_num].

(** A character of a gene name: an ASCII letter or digit, a hyphen or an
    underscore. *)
Definition gene_char (c : char) : bool :=
  (between 48 57 c || between 65 90 c || between 97 122 c || N.eqb c 45 || N.eqb c 95)%N.

(** The text holds nothing spelled like an rsID. *)
Definition NoRsid (text : str) : Prop := forall x, RsidShape x -> ~ Occurs x text.

(** A string without line break *)
Definition one_line (l : str) : Prop := ~ In 10%N l.

(** The two remarks of line 410 *)
Definition CASE_CONTROL_REMARK : str :=
  py "Case-control study; sample size estimation and replication required.".
Definition HEURISTIC_REMARK : str := py "Parsed heuristically from abstract/meta.".

(** The number of line breaks in a cell *)
Definition line_breaks (cell : str) : nat := count_occ N.eq_dec cell 10%N.

(** [x] is the first of the longest among [l], by the length of [t_text]. *)
Definition FirstLongest (l : list Tag) (x : Tag) : Prop :=
  exists pre post,
    l = pre ++ x :: post
    /\ (forall q, In q pre -> length (t_text q) < length (t_text x))
    /\ (forall q, In q post -> length (t_text q) <= length (t_text x)).

(** The form of an age: one to three digits, then possibly a point and
    digits. *)
Definition AgeForm (x : str) : Prop :=
  exists ip fr,
    x = ip ++ fr /\ 1 <= length ip <= 3 /\ Digits ip
    /\ (fr = [] \/ exists ds, fr = 46%N :: ds /\ ds <> [] /\ Digits ds).

(** A page of three paragraphs, the last two of the same raw length. *)
Definition paragraphs_page : Page :=
  mkPage [] None (py "Aims Results")
    [mkTag (py "p") [] None (py "Aims") (py "Aims");
     mkTag (py "p") [] None (py " Results ") (py "Results");
     mkTag (py "p") [] None (py "Methods. ") (py "Methods.")] None.

(** The number of points in a string *)
Definition points (s : str) : nat := count_occ N.eq_dec s 46%N.

(** A capital letter of U+0000..U+00FF: A to Z, and U+00C0 to U+00DE
    without the multiplication sign. Its small letter is 32 further. *)
Definition capital (c : char) : Prop :=
  (65 <= c <= 90)%N \/ ((192 <= c <= 222)%N /\ c <> 215%N).

(** One letter in either case, or one and the same character *)
Definition CasePair (c d : char) : Prop :=
  c = d \/ (capital c /\ d = (c + 32)%N) \/ (capital d /\ c = (d + 32)%N).

(** The quality marker of line 408 *)
Definition QUALITY_MARKER : str := py "1:SIFT score 2:PolyPhen score".

(** [STUDY_DESIGN_KEYWORDS] without the trigger phrases that begin with
    another trigger phrase of the same label. *)
Definition STUDY_DESIGN_CORE : list (str * list str) :=
  [ (py "Case control", List.map py ["case-control"; "case control"]%string);
    (py "Cohort", List.map py ["cohort"]%string);
    (py "Cross-sectional", List.map py ["cross-sectional"]%string);
    (py "RCT", List.map py ["randomized"; "randomised"]%string);
    (py "Meta-analysis", List.map py ["meta-analysis"; "meta analysis"; "systematic review"]%string) ].



(** The text spells the phrase [k] somewhere, in some letter case. *)
Definition Mentions (k text : str) : Prop :=
  exists a w b, text = a ++ w ++ b /\ Spells w k.



(** ** The allele frequency that is taken *)




(** * Proofs *)

Unset Implicit Arguments.

Module ReFacts.

Section Engine.
Variable A : Type.
Variable ci : bool.

Lemma orelse_some (x y : option A) (v : A) :
  orelse x y = Some v -> x = Some v \/ (x = None /\ y = Some v).
Proof. destruct x; simpl; intros H; [left | right]; auto. Qed.

Lemma orelse_left (x y : option A) (v : A) :
  x = Some v -> exists w, orelse x y = Some w.
Proof. intros ->. simpl. eauto. Qed.

Lemma orelse_right (x y : option A) (v : A) :
  y = Some v -> exists w, orelse x y = Some w.
Proof. intros ->. destruct x; simpl; eauto. Qed.

Section Body.
Variable body : st -> cont A -> option A.
Variable R : st -> st -> Prop.
Hypothesis body_sound :
  forall s k x, body s k = Some x -> exists s', R s s' /\ k s' = Some x.
Hypothesis body_complete :
  forall s s' k x, R s s' -> k s' = Some x -> exists y, body s k = Some y.

Lemma rep_mand_sound lo : forall s k x,
  rep_mand body lo s k = Some x -> exists s1, pow R lo s s1 /\ k s1 = Some x.
Proof.
  induction lo as [|lo IH]; simpl; intros s k x H.
  - exists s. auto.
  - apply body_sound in H. destruct H as (s1 & HR & H).
    apply IH in H. destruct H as (s2 & Hp & Hk).
    exists s2. split; [exists s1; auto | exact Hk].
Qed.

Lemma rep_mand_complete lo : forall s s1 k x,
  pow R lo s s1 -> k s1 = Some x -> exists y, rep_mand body lo s k = Some y.
Proof.
  induction lo as [|lo IH]; simpl; intros s s1 k x Hp Hk.
  - subst s1. eauto.
  - destruct Hp as (s2 & HR & Hp).
    destruct (IH _ _ _ _ Hp Hk) as (y & Hy).
    eapply body_complete; eauto.
Qed.

Lemma rep_opt_sound g n : forall s k x,
  rep_opt body g n s k = Some x ->
  exists j s', j <= n /\ pow (advancing R) j s s' /\ k s' = Some x.
Proof.
  induction n as [|n IH]; simpl; intros s k x H.
  - exists 0, s. simpl. auto.
  - assert (Hmore : forall v,
        body s (fun s1 => if progress s s1 then rep_opt body g n s1 k else None) = Some v ->
        exists j s', j <= S n /\ pow (advancing R) j s s' /\ k s' = Some v).
    { intros v Hv. apply body_sound in Hv. destruct Hv as (s1 & HR & Hv).
      destruct (progress s s1) eqn:Hprog; [|discriminate].
      apply IH in Hv. destruct Hv as (j & s' & Hj & Hp & Hk).
      exists (S j), s'. split; [lia|]. split; [|exact Hk].
      exists s1. split; [split; assumption | exact Hp]. }
    assert (Hstop : forall v, k s = Some v ->
        exists j s', j <= S n /\ pow (advancing R) j s s' /\ k s' = Some v).
    { intros v Hv. exists 0, s. simpl. split; [lia | auto]. }
    destruct g; apply orelse_some in H; destruct H as [H | [_ H]]; auto.
Qed.

Lemma pow_advancing_length j : forall s s',
  pow (advancing R) j s s' -> j + length (rest s') <= length (rest s).
Proof.
  induction j as [|j IH]; simpl; intros s s' H.
  - subst. lia.
  - destruct H as (s1 & [_ Hprog] & Hp). apply IH in Hp.
    unfold progress in Hprog. apply Nat.ltb_lt in Hprog. lia.
Qed.

Lemma rep_opt_complete g n : forall j s s' k x,
  pow (advancing R) j s s' -> j <= n -> k s' = Some x ->
  exists y, rep_opt body g n s k = Some y.
Proof.
  induction n as [|n IH]; simpl; intros j s s' k x Hp Hj Hk.
  - assert (j = 0) by lia. subst j. simpl in Hp. subst s'. eauto.
  - destruct j as [|j].
    + simpl in Hp. subst s'.
      destruct g; [eapply orelse_right | eapply orelse_left]; eauto.
    + simpl in Hp. destruct Hp as (s1 & [HR Hprog] & Hp).
      assert (Hj' : j <= n) by lia.
      destruct (IH _ _ _ _ _ Hp Hj' Hk) as (y & Hy).
      assert (Hm : exists v,
        body s (fun s1 => if progress s s1 then rep_opt body g n s1 k else None) = Some v).
      { eapply body_complete; [exact HR|]. rewrite Hprog. exact Hy. }
      destruct Hm as (v & Hv).
      destruct g; [eapply orelse_left | eapply orelse_right]; eauto.
Qed.

End Body.

(** Whatever the matcher returns was reached through a match of the pattern. *)
Lemma run_sound (r : re) : forall s (k : cont A) x,
  run ci r s k = Some x -> exists s', M ci r s s' /\ k s' = Some x.
Proof.
  induction r as [|neg items|a IHa b IHb|a IHa b IHb|a IHa lo hi g|n a IHa| | |];
    simpl; intros s k x H.
  - eauto.
  - destruct (rest s) as [|c t] eqn:Hr; [discriminate|].
    destruct (cls_mem ci neg items c) eqn:Hc; [|discriminate].
    eexists. split; [|exact H]. exists c, t. auto.
  - apply IHa in H. destruct H as (s1 & Ha & H).
    apply IHb in H. destruct H as (s2 & Hb & H). eauto.
  - apply orelse_some in H. destruct H as [H | [_ H]].
    + apply IHa in H. destruct H as (s' & ? & ?). eauto.
    + apply IHb in H. destruct H as (s' & ? & ?). eauto.
  - apply (rep_mand_sound (run ci a) (M ci a) IHa) in H. destruct H as (s1 & Hp & H).
    apply (rep_opt_sound (run ci a) (M ci a) IHa) in H. destruct H as (j & s' & Hj & Hq & Hk).
    exists s'. split; [|exact Hk]. exists s1, j. split; [exact Hp|]. split; [|exact Hq].
    unfold upto, bound in *. destruct hi; [lia | exact I].
  - apply IHa in H. destruct H as (s1 & Ha & H). eauto.
  - destruct (at_boundary s) eqn:Hb; [eauto | discriminate].
  - destruct (at_bol s) eqn:Hb; [eauto | discriminate].
  - destruct (at_eol s) eqn:Hb; [eauto | discriminate].
Qed.

(** Whenever the pattern has a match that the continuation accepts, the
    matcher returns a result. *)
Lemma run_complete (r : re) : forall s s' (k : cont A) x,
  M ci r s s' -> k s' = Some x -> exists y, run ci r s k = Some y.
Proof.
  induction r as [|neg items|a IHa b IHb|a IHa b IHb|a IHa lo hi g|n a IHa| | |];
    simpl; intros s s' k x HM Hk.
  - subst. eauto.
  - destruct HM as (c & t & Hr & Hc & ->). rewrite Hr, Hc. eauto.
  - destruct HM as (s1 & Ha & Hb).
    destruct (IHb _ _ _ _ Hb Hk) as (y & Hy).
    eapply IHa; eauto.
  - destruct HM as [Ha | Hb].
    + destruct (IHa _ _ _ _ Ha Hk) as (y & Hy). eapply orelse_left; eauto.
    + destruct (IHb _ _ _ _ Hb Hk) as (y & Hy). eapply orelse_right; eauto.
  - destruct HM as (s1 & j & Hp & Hj & Hq).
    assert (Hb : j <= bound hi lo s1).
    { pose proof (pow_advancing_length _ _ _ _ Hq) as Hl.
      unfold upto, bound in *. destruct hi; lia. }
    destruct (rep_opt_complete (run ci a) (M ci a) IHa g _ _ _ _ k _ Hq Hb Hk) as (y & Hy).
    eapply (rep_mand_complete (run ci a) (M ci a) IHa); eauto.
  - destruct HM as (s1 & Ha & ->). eapply IHa; eauto.
  - destruct HM as [Hb ->]. rewrite Hb. eauto.
  - destruct HM as [Hb ->]. rewrite Hb. eauto.
  - destruct HM as [Hb ->]. rewrite Hb. eauto.
Qed.

End Engine.

(** *** Positions *)

Lemma after_app (p : option char) (a b : str) : after p (a ++ b) = after (after p a) b.
Proof. revert p. induction a as [|c a IH]; simpl; intros p; auto. Qed.

Lemma moves_nil (s : st) : moves s [] s.
Proof. split; reflexivity. Qed.

Lemma moves_app (s s1 s2 : st) (w1 w2 : str) :
  moves s w1 s1 -> moves s1 w2 s2 -> moves s (w1 ++ w2) s2.
Proof.
  intros [H1 P1] [H2 P2]. split.
  - rewrite H1, H2, app_assoc. reflexivity.
  - rewrite P2, P1, after_app. reflexivity.
Qed.

Lemma moves_length (s s' : st) (w : str) :
  moves s w s' -> length (rest s) = length w + length (rest s').
Proof. intros [H _]. rewrite H, length_app. reflexivity. Qed.

Lemma consumed_moves (s s' : st) (w : str) : moves s w s' -> consumed s s' = w.
Proof.
  intros H. unfold consumed. rewrite (moves_length _ _ _ H).
  destruct H as [H _]. rewrite H.
  replace (length w + length (rest s') - length (rest s')) with (length w) by lia.
  rewrite firstn_app, firstn_all, Nat.sub_diag. simpl. apply app_nil_r.
Qed.

Lemma reads_nil (s : st) : reads s [] s.
Proof. split; [apply moves_nil | reflexivity]. Qed.

Lemma reads_app (s s1 s2 : st) (w1 w2 : str) :
  reads s w1 s1 -> reads s1 w2 s2 -> reads s (w1 ++ w2) s2.
Proof.
  intros [H1 C1] [H2 C2]. split; [eapply moves_app; eauto | congruence].
Qed.

(** A state is known by its three fields. *)
Lemma st_ext (s s' : st) :
  prev s = prev s' -> rest s = rest s' -> caps s = caps s' -> s = s'.
Proof. destruct s, s'; simpl; intros; subst; reflexivity. Qed.

Lemma reads_functional (s s1 s2 : st) (w : str) :
  reads s w s1 -> reads s w s2 -> s1 = s2.
Proof.
  intros [[H1 P1] C1] [[H2 P2] C2]. apply st_ext; try congruence.
  rewrite H1 in H2. apply app_inv_head in H2. exact H2.
Qed.

Lemma pow_moves (R : st -> st -> Prop) :
  (forall s s', R s s' -> exists w, moves s w s') ->
  forall n s s', pow R n s s' -> exists w, moves s w s'.
Proof.
  intros HR n. induction n as [|n IH]; simpl; intros s s' H.
  - subst. exists []. apply moves_nil.
  - destruct H as (s1 & H1 & H2). apply HR in H1. apply IH in H2.
    destruct H1 as (w1 & H1), H2 as (w2 & H2). exists (w1 ++ w2). eapply moves_app; eauto.
Qed.

Lemma pow_weaken (R R' : st -> st -> Prop) :
  (forall s s', R s s' -> R' s s') ->
  forall n s s', pow R n s s' -> pow R' n s s'.
Proof.
  intros HR n. induction n as [|n IH]; simpl; intros s s' H; [exact H|].
  destruct H as (s1 & H1 & H2). exists s1. split; auto.
Qed.

(** A match moves the cursor forward over some stretch of the text. *)
Lemma M_moves (ci : bool) (r : re) : forall s s', M ci r s s' -> exists w, moves s w s'.
Proof.
  induction r as [|neg items|a IHa b IHb|a IHa b IHb|a IHa lo hi g|n a IHa| | |];
    simpl; intros s s' H.
  - subst. exists []. apply moves_nil.
  - destruct H as (c & t & Hr & _ & ->). exists [c]. split; simpl; auto.
  - destruct H as (s1 & Ha & Hb). apply IHa in Ha. apply IHb in Hb.
    destruct Ha as (w1 & Ha), Hb as (w2 & Hb). exists (w1 ++ w2). eapply moves_app; eauto.
  - destruct H as [H | H]; auto.
  - destruct H as (s1 & j & Hp & _ & Hq).
    apply (pow_moves _ IHa) in Hp.
    apply (pow_weaken (advancing (M ci a)) (M ci a)) in Hq; [|intros ? ? [? _]; assumption].
    apply (pow_moves _ IHa) in Hq.
    destruct Hp as (w1 & Hp), Hq as (w2 & Hq). exists (w1 ++ w2). eapply moves_app; eauto.
  - destruct H as (s1 & Ha & ->). apply IHa in Ha. destruct Ha as (w & Ha).
    exists w. exact Ha.
  - destruct H as [_ ->]. exists []. apply moves_nil.
  - destruct H as [_ ->]. exists []. apply moves_nil.
  - destruct H as [_ ->]. exists []. apply moves_nil.
Qed.

(** *** Searching *)

Lemma match_at_sound (ci : bool) (r : re) (pos : nat) (s : st) (m : mobj) :
  match_at ci r pos s = Some m -> exists s', M ci r s s' /\ m = mobj_of pos s s'.
Proof.
  unfold match_at. intros H. apply run_sound in H.
  destruct H as (s' & HM & H). exists s'. split; [exact HM|].
  injection H as <-. reflexivity.
Qed.

Lemma match_at_complete (ci : bool) (r : re) (pos : nat) (s s' : st) :
  M ci r s s' -> exists m, match_at ci r pos s = Some m.
Proof.
  intros H. unfold match_at. eapply run_complete; [exact H | reflexivity].
Qed.

Lemma match_at_none (ci : bool) (r : re) (pos : nat) (s : st) :
  match_at ci r pos s = None -> forall s', ~ M ci r s s'.
Proof.
  intros H s' HM. destruct (match_at_complete ci r pos s s' HM) as (m & Hm). congruence.
Qed.

Lemma search_from_none (ci : bool) (r : re) (t : str) : forall pos p,
  search_from ci r pos p t = None ->
  forall u v s', t = u ++ v -> ~ M ci r (mkSt (after p u) v []) s'.
Proof.
  induction t as [|c t IH]; simpl; intros pos p H u v s' Ht.
  - destruct (match_at ci r pos (mkSt p [] [])) eqn:Hm; [discriminate|].
    symmetry in Ht. apply app_eq_nil in Ht. destruct Ht; subst. simpl.
    eapply match_at_none; eauto.
  - destruct (match_at ci r pos (mkSt p (c :: t) [])) eqn:Hm; [discriminate|].
    destruct u as [|c' u]; simpl in *.
    + subst v. eapply match_at_none; eauto.
    + injection Ht as <- ->. eapply IH; eauto.
Qed.

Lemma search_from_some (ci : bool) (r : re) (t : str) : forall pos p m,
  search_from ci r pos p t = Some m ->
  exists u v s',
    t = u ++ v /\ M ci r (mkSt (after p u) v []) s'
    /\ m = mobj_of (pos + length u) (mkSt (after p u) v []) s'
    /\ forall u' v' s'', t = u' ++ v' -> length u' < length u ->
                         ~ M ci r (mkSt (after p u') v' []) s''.
Proof.
  induction t as [|c t IH]; simpl; intros pos p m H.
  - destruct (match_at ci r pos (mkSt p [] [])) eqn:Hm; [|discriminate].
    injection H as ->. apply match_at_sound in Hm. destruct Hm as (s' & HM & ->).
    exists [], [], s'. simpl. rewrite Nat.add_0_r. repeat split; auto.
    intros; lia.
  - destruct (match_at ci r pos (mkSt p (c :: t) [])) eqn:Hm.
    + injection H as ->. apply match_at_sound in Hm. destruct Hm as (s' & HM & ->).
      exists [], (c :: t), s'. simpl. rewrite Nat.add_0_r. repeat split; auto.
      intros; lia.
    + apply IH in H. destruct H as (u & v & s' & -> & HM & -> & Hleft).
      exists (c :: u), v, s'. simpl. rewrite Nat.add_succ_r. repeat split; auto.
      intros u' v' s'' Ht Hlen. destruct u' as [|c' u']; simpl in *.
      * subst v'. eapply match_at_none; eauto.
      * injection Ht as <- Ht. apply (Hleft u' v' s'' Ht). lia.
Qed.

Lemma search_from_complete (ci : bool) (r : re) (t : str) (pos : nat) (p : option char)
    (u v : str) (s' : st) :
  t = u ++ v -> M ci r (mkSt (after p u) v []) s' ->
  exists m, search_from ci r pos p t = Some m.
Proof.
  intros Ht HM. destruct (search_from ci r pos p t) eqn:H; [eauto|].
  exfalso. eapply search_from_none; eauto.
Qed.

(** [re.search] finds a match exactly when the pattern matches somewhere. *)
Lemma found_search (ci : bool) (r : re) (text : str) :
  found (search ci r text) = true <->
  exists a b s', text = a ++ b /\ M ci r (at_split a b) s'.
Proof.
  unfold search. split.
  - destruct (search_from ci r 0 None text) eqn:H; [|discriminate]. intros _.
    apply search_from_some in H. destruct H as (u & v & s' & Ht & HM & _).
    exists u, v, s'. auto.
  - intros (a & b & s' & Ht & HM).
    destruct (search_from_complete ci r text 0 None a b s' Ht HM) as (m & ->). reflexivity.
Qed.

(** Every match that [re.finditer] yields sits in the text where it says. *)
Lemma finditer_from_spec (ci : bool) (r : re) (fuel : nat) : forall a t m,
  In m (finditer_from fuel ci r (length a) (after None a) t) ->
  exists u v s',
    t = u ++ v /\ M ci r (at_split (a ++ u) v) s'
    /\ m = mobj_of (length (a ++ u)) (at_split (a ++ u) v) s'.
Proof.
  induction fuel as [|fuel IH]; simpl; intros a t m Hin; [contradiction|].
  destruct (search_from ci r (length a) (after None a) t) as [m0|] eqn:Hs; [|contradiction].
  apply search_from_some in Hs. destruct Hs as (u & v & s' & Ht & HM & Hm0 & _).
  assert (Hsplit : mkSt (after (after None a) u) v [] = at_split (a ++ u) v).
  { unfold at_split. rewrite after_app. reflexivity. }
  rewrite Hsplit in HM, Hm0. rewrite <- length_app in Hm0.
  assert (Hhead : exists u0 v0 s0,
             t = u0 ++ v0 /\ M ci r (at_split (a ++ u0) v0) s0
             /\ m0 = mobj_of (length (a ++ u0)) (at_split (a ++ u0) v0) s0).
  { exists u, v, s'. auto. }
  destruct (M_moves _ _ _ _ HM) as (w & Hw).
  pose proof (consumed_moves _ _ _ Hw) as Hc.
  destruct Hw as [Hrest Hprev]. simpl in Hrest, Hprev.
  assert (Htail : forall x t',
             rest s' = x ++ t' ->
             In m (finditer_from fuel ci r (length (a ++ u ++ w ++ x))
                     (after None (a ++ u ++ w ++ x)) t') ->
             exists u1 v1 s1,
               t = u1 ++ v1 /\ M ci r (at_split (a ++ u1) v1) s1
               /\ m = mobj_of (length (a ++ u1)) (at_split (a ++ u1) v1) s1).
  { intros x t' Ht' Hin'. apply IH in Hin'.
    destruct Hin' as (u1 & v1 & s1 & Ht1 & HM1 & Hm1).
    exists (u ++ w ++ x ++ u1), v1, s1.
    replace (a ++ u ++ w ++ x ++ u1) with ((a ++ u ++ w ++ x) ++ u1)
      by (rewrite <- !app_assoc; reflexivity).
    repeat split; auto.
    rewrite Ht, Hrest, Ht', Ht1, <- !app_assoc. reflexivity. }
  assert (Hm0t : m_text m0 = w) by (rewrite Hm0; exact Hc).
  assert (Hm0a : m_after m0 = s') by (rewrite Hm0; reflexivity).
  assert (Hm0s : m_start m0 = length (a ++ u)) by (rewrite Hm0; reflexivity).
  rewrite Hm0t, Hm0a, Hm0s in Hin.
  destruct w as [|c w].
  - destruct (rest s') as [|c' t'] eqn:Hr'.
    + destruct Hin as [<- | []]. exact Hhead.
    + destruct Hin as [<- | Hin]; [exact Hhead|].
      apply (Htail [c'] t'); [reflexivity|].
      simpl app. simpl in Hin. rewrite Nat.add_0_r in Hin.
      replace (length (a ++ u ++ [c'])) with (S (length (a ++ u)))
        by (rewrite !length_app; simpl; lia).
      replace (after None (a ++ u ++ [c'])) with (Some c')
        by (rewrite app_assoc, after_app; reflexivity).
      exact Hin.
  - destruct Hin as [<- | Hin]; [exact Hhead|].
    apply (Htail [] (rest s')); [reflexivity|].
    rewrite app_nil_r.
    replace (length (a ++ u ++ c :: w)) with (length (a ++ u) + length (c :: w))
      by (rewrite !length_app; simpl; lia).
    replace (after None (a ++ u ++ c :: w)) with (prev s')
      by (rewrite Hprev; unfold at_split; simpl prev; rewrite app_assoc, (after_app None (a ++ u)); reflexivity).
    exact Hin.
Qed.


Lemma increasing_cons (x : nat) (l : list nat) :
  (forall y, In y l -> x < y) -> increasing l -> increasing (x :: l).
Proof.
  intros H Hl. simpl. split; [|exact Hl].
  destruct l as [|y l]; [exact I|]. apply H. left. reflexivity.
Qed.


(** *** Patterns made of single characters *)

Lemma M_cls_iff (ci neg : bool) (items : list item) (s s' : st) :
  M ci (Cls neg items) s s' <->
  exists c, reads s [c] s' /\ cls_mem ci neg items c = true.
Proof.
  simpl. split.
  - intros (c & t & Hr & Hc & ->). exists c. repeat split; simpl; auto.
  - intros (c & [[Hr Hp] Hcaps] & Hc). exists c, (rest s'). repeat split; auto.
    apply st_ext; simpl; auto.
Qed.

Lemma M_cat_cons (ci : bool) (x : re) (l : list re) (s s' : st) :
  M ci (cat (x :: l)) s s' <-> exists s1, M ci x s s1 /\ M ci (cat l) s1 s'.
Proof.
  destruct l as [|y l].
  - simpl. split.
    + intros H. exists s'. auto.
    + intros (s1 & H & ->). exact H.
  - reflexivity.
Qed.

Lemma M_cat2 (ci : bool) (x y : re) (s s' : st) :
  M ci (cat [x; y]) s s' <-> exists s1, M ci x s s1 /\ M ci y s1 s'.
Proof. reflexivity. Qed.

Lemma M_lits (ci : bool) (w0 : str) : forall s s',
  M ci (lits w0) s s' <-> exists w, reads s w s' /\ Forall2 (lit_ok ci) w w0.
Proof.
  unfold lits. induction w0 as [|l w0 IH]; intros s s'.
  - simpl. split.
    + intros ->. exists []. split; [apply reads_nil | constructor].
    + intros (w & Hr & Hf). inversion Hf; subst.
      symmetry. eapply reads_functional; [apply reads_nil | exact Hr].
  - cbn [List.map]. rewrite M_cat_cons. split.
    + intros (s1 & H1 & H2). apply M_cls_iff in H1. destruct H1 as (c & Hc & Hok).
      apply IH in H2. destruct H2 as (w & Hw & Hf).
      exists (c :: w). split; [exact (reads_app _ _ _ _ _ Hc Hw) | constructor; assumption].
    + intros (w & Hr & Hf). inversion Hf as [|c l' w' w0' Hok Hf' E1 E2]; subst.
      destruct Hr as [[Hrest Hprev] Hcaps]. simpl in Hrest, Hprev.
      exists (mkSt (Some c) (w' ++ rest s') (caps s)). split.
      * apply M_cls_iff. exists c. repeat split; auto.
      * apply IH. exists w'. repeat split; auto.
Qed.


Lemma lit_ok_ci (c l : char) : lit_ok true c l <-> same_letter c l.
Proof.
  unfold lit_ok, cls_mem, same_letter. simpl. rewrite orb_false_r. unfold char_eqb.
  apply N.eqb_eq.
Qed.


Lemma Forall2_ci (w w0 : str) : Forall2 (lit_ok true) w w0 <-> Forall2 same_letter w w0.
Proof.
  split; induction 1; constructor; auto; apply lit_ok_ci; assumption.
Qed.

Section ClassRuns.
Variables (ci neg : bool) (items : list item).
Let ok (c : char) : Prop := cls_mem ci neg items c = true.

Lemma pow_cls (n : nat) : forall s s',
  pow (M ci (Cls neg items)) n s s' <->
  exists w, length w = n /\ reads s w s' /\ Forall ok w.
Proof.
  induction n as [|n IH]; intros s s'; cbn [pow].
  - split.
    + intros ->. exists []. split; [reflexivity|]. split; [apply reads_nil | constructor].
    + intros (w & Hl & Hr & _). destruct w; [|discriminate].
      eapply reads_functional; [exact Hr | apply reads_nil].
  - split.
    + intros (s1 & H1 & H2). apply M_cls_iff in H1. destruct H1 as (c & Hc & Hok).
      apply IH in H2. destruct H2 as (w & Hl & Hw & Hf).
      exists (c :: w). split; [simpl; lia|].
      split; [exact (reads_app _ _ _ _ _ Hc Hw) | constructor; assumption].
    + intros (w & Hl & Hr & Hf). destruct w as [|c w]; [discriminate|].
      inversion Hf as [|? ? Hok Hf']; subst.
      destruct Hr as [[Hrest Hprev] Hcaps]. simpl in Hrest, Hprev.
      exists (mkSt (Some c) (w ++ rest s') (caps s)). split.
      * apply M_cls_iff. exists c. repeat split; auto.
      * apply IH. exists w. repeat split; auto.
Qed.

Lemma pow_adv_cls (n : nat) : forall s s',
  pow (advancing (M ci (Cls neg items))) n s s' <-> pow (M ci (Cls neg items)) n s s'.
Proof.
  induction n as [|n IH]; intros s s'; cbn [pow]; [reflexivity|].
  split.
  - intros (s1 & [H1 _] & H2). exists s1. split; [exact H1 | apply IH; exact H2].
  - intros (s1 & H1 & H2). exists s1. split; [|apply IH; exact H2].
    split; [exact H1|].
    apply M_cls_iff in H1. destruct H1 as (c & [[Hr _] _] & _).
    unfold progress. rewrite Hr. simpl. apply Nat.ltb_lt. lia.
Qed.

(** A repeated class reads a run of its characters, between [lo] and
    the upper limit long. *)
Lemma M_rep_cls (lo : nat) (hi : option nat) (g : bool) (s s' : st) :
  M ci (Rep (Cls neg items) lo hi g) s s' <->
  exists w, reads s w s' /\ Forall ok w /\ lo <= length w /\ upto hi lo (length w - lo).
Proof.
  cbn [M]. split.
  - intros (s1 & j & Hp & Hj & Hq).
    apply pow_adv_cls in Hq. apply pow_cls in Hp, Hq.
    destruct Hp as (w1 & Hl1 & Hr1 & Hf1), Hq as (w2 & Hl2 & Hr2 & Hf2).
    exists (w1 ++ w2). rewrite length_app.
    split; [exact (reads_app _ _ _ _ _ Hr1 Hr2)|].
    split; [apply Forall_app; auto|].
    split; [lia|].
    replace (length w1 + length w2 - lo) with j by lia. exact Hj.
  - intros (w & Hr & Hf & Hlo & Hhi).
    rewrite <- (firstn_skipn lo w) in Hr, Hf.
    apply Forall_app in Hf. destruct Hf as [Hf1 Hf2].
    destruct Hr as [[Hrest Hprev] Hcaps]. rewrite <- app_assoc in Hrest.
    rewrite after_app in Hprev.
    exists (mkSt (after (prev s) (firstn lo w)) (skipn lo w ++ rest s') (caps s)),
           (length w - lo).
    split; [|split; [exact Hhi|]].
    + apply pow_cls. exists (firstn lo w). repeat split; auto.
      apply firstn_length_le. exact Hlo.
    + apply pow_adv_cls, pow_cls. exists (skipn lo w). repeat split; auto.
      apply length_skipn.
Qed.

End ClassRuns.

End ReFacts.
Import ReFacts.

(** ** Strings and lists *)

Module StrFacts.

Lemma char_eqb_eq (a b : char) : char_eqb a b = true <-> a = b.
Proof. apply N.eqb_eq. Qed.

Lemma str_eqb_eq (a : str) : forall b, str_eqb a b = true <-> a = b.
Proof.
  induction a as [|x a IH]; intros [|y b]; simpl; split; intros H;
    try reflexivity; try discriminate.
  - apply andb_true_iff in H. destruct H as [H1 H2].
    apply char_eqb_eq in H1. apply IH in H2. congruence.
  - injection H as -> ->. apply andb_true_iff. split.
    + apply char_eqb_eq. reflexivity.
    + apply IH. reflexivity.
Qed.

Lemma str_eqb_refl (a : str) : str_eqb a a = true.
Proof. apply str_eqb_eq. reflexivity. Qed.

Lemma str_eqb_neq (a b : str) : str_eqb a b = false <-> a <> b.
Proof.
  split.
  - intros H E. apply str_eqb_eq in E. congruence.
  - intros H. destruct (str_eqb a b) eqn:E; [|reflexivity].
    apply str_eqb_eq in E. contradiction.
Qed.

Lemma mem_In (x : str) (l : list str) : mem x l = true <-> In x l.
Proof.
  unfold mem. rewrite existsb_exists. split.
  - intros (y & Hy & E). apply str_eqb_eq in E. subst. exact Hy.
  - intros H. exists x. split; [exact H | apply str_eqb_refl].
Qed.

Lemma mem_not_In (x : str) (l : list str) : mem x l = false <-> ~ In x l.
Proof.
  split.
  - intros H Hin. apply mem_In in Hin. congruence.
  - intros H. destruct (mem x l) eqn:E; [|reflexivity].
    apply mem_In in E. contradiction.
Qed.

Lemma startswith_iff (p : str) : forall s, startswith s p = true <-> exists b, s = p ++ b.
Proof.
  induction p as [|c p IH]; intros [|d s]; simpl.
  - split; [intros _; exists []; reflexivity | reflexivity].
  - split; [intros _; exists (d :: s); reflexivity | reflexivity].
  - split; [discriminate | intros (b & H); discriminate].
  - rewrite andb_true_iff, char_eqb_eq, IH. split.
    + intros (-> & b & ->). exists b. reflexivity.
    + intros (b & H). injection H as -> ->. split; [reflexivity | exists b; reflexivity].
Qed.

(** [k in t] holds exactly when [k] occurs in [t]. *)
Lemma contains_Occurs (k : str) : forall t, contains t k = true <-> Occurs k t.
Proof.
  unfold Occurs. induction t as [|c t IH]; cbn [contains].
  - rewrite orb_false_r, startswith_iff. split.
    + intros (b & H). exists [], b. exact H.
    + intros (a & b & H). destruct a; [exists b; exact H | discriminate].
  - rewrite orb_true_iff, startswith_iff, IH. split.
    + intros [(b & H) | (a & b & H)].
      * exists [], b. exact H.
      * exists (c :: a), b. simpl. congruence.
    + intros (a & b & H). destruct a as [|d a].
      * left. exists b. exact H.
      * right. injection H as -> ->. exists a, b. reflexivity.
Qed.







End StrFacts.
Import StrFacts.

(** ** The rsID pattern *)

Lemma between_iff (lo hi c : char) : between lo hi c = true <-> (lo <= c <= hi)%N.
Proof.
  unfold between. rewrite andb_true_iff, !N.leb_le. tauto.
Qed.

Lemma between_false (lo hi c : char) : between lo hi c = false <-> ~ (lo <= c <= hi)%N.
Proof.
  rewrite <- between_iff. destruct (between lo hi c); split; intros; try congruence.
Qed.

Ltac lower_cases c :=
  unfold same_letter, lower_char;
  repeat match goal with
  | |- context [between ?lo ?hi c] =>
      let E := fresh "E" in
      destruct (between lo hi c) eqn:E;
      [apply between_iff in E | apply between_false in E]
  | |- context [N.eqb c ?k] =>
      let E := fresh "E" in
      destruct (N.eqb_spec c k) as [E | E]
  end; simpl.

Lemma same_letter_r (c : char) : same_letter c 114%N -> c = 114%N \/ c = 82%N.
Proof. lower_cases c; intros H; lia. Qed.

Lemma same_letter_s (c : char) : same_letter c 115%N -> c = 115%N \/ c = 83%N.
Proof. lower_cases c; intros H; lia. Qed.

Lemma rsid_re_eq :
  rsid_re = Seq WordB (Seq (Grp 1 (Seq (lit 114%N) (Seq (lit 115%N) (Rep digit 3 None true)))) WordB).
Proof. reflexivity. Qed.

(** What one match of the rsID pattern covers and captures. *)
Lemma rsid_match (s s' : st) :
  M true rsid_re s s' ->
  exists x, moves s x s' /\ RsidShape x /\ caps s' = (1, x) :: caps s.
Proof.
  rewrite rsid_re_eq. cbn [M].
  intros (s1 & [_ ->] & s2 & (s3 & (s4 & H1 & s5 & H2 & H3) & ->) & [_ ->]).
  apply M_cls_iff in H1, H2. apply (M_rep_cls true false [IDigit] 3 None true) in H3.
  destruct H1 as (c1 & R1 & O1), H2 as (c2 & R2 & O2), H3 as (ds & R3 & F3 & L3 & _).
  pose proof (reads_app _ _ _ _ _ R1 (reads_app _ _ _ _ _ R2 R3)) as [Hm Hc].
  simpl app in Hm.
  exists (c1 :: c2 :: ds). split; [exact Hm|]. split.
  - exists c1, c2, ds. split; [reflexivity|].
    split; [apply same_letter_r, lit_ok_ci; exact O1|].
    split; [apply same_letter_s, lit_ok_ci; exact O2|].
    split; [exact L3|].
    eapply Forall_impl; [|exact F3]. intros d Hd.
    unfold cls_mem in Hd. simpl in Hd. rewrite orb_false_r in Hd. exact Hd.
  - unfold set_cap. simpl. rewrite (consumed_moves _ _ _ Hm), Hc. reflexivity.
Qed.

Lemma rsid_hits_spec (text : str) (i : nat) (x : str) :
  In (i, x) (rsid_hits text) -> substring_at text i x /\ RsidShape x.
Proof.
  unfold rsid_hits, finditer. intros H. apply in_map_iff in H.
  destruct H as (m & E & Hin).
  apply (finditer_from_spec true rsid_re _ [] text m) in Hin.
  destruct Hin as (u & v & s' & Ht & HM & Hm). simpl app in *.
  apply rsid_match in HM. destruct HM as (y & [Hrest _] & Hshape & Hcaps).
  simpl in Hrest, Hcaps.
  assert (Hx : x = y /\ i = length u).
  { rewrite Hm in E. unfold grp, group, mobj_of in E. simpl in E.
    rewrite Hcaps in E. simpl in E. injection E as <- <-. auto. }
  destruct Hx as [-> ->]. split; [|exact Hshape].
  exists u, (rest s'). split; [|reflexivity]. rewrite Ht, Hrest. reflexivity.
Qed.

Lemma find_rsids_hits (text : str) : find_rsids text = dedup (List.map snd (rsid_hits text)).
Proof.
  unfold find_rsids, findall1, rsid_hits. rewrite map_map. reflexivity.
Qed.


(** ** Study design and region *)




Lemma find_study_design_scan (text : str) :
  find_study_design text = design_scan STUDY_DESIGN_KEYWORDS (lower text).
Proof. destruct text; reflexivity. Qed.

Lemma region_re_eq (r : str) : region_re r = Seq WordB (Seq (lits r) WordB).
Proof. reflexivity. Qed.

Lemma at_split_reads (a b w : str) (s' : st) :
  reads (at_split a b) w s' -> b = w ++ rest s' /\ s' = at_split (a ++ w) (rest s').
Proof.
  intros [[Hrest Hprev] Hcaps]. simpl in *. split; [exact Hrest|].
  apply st_ext; simpl; auto. rewrite Hprev, after_app. reflexivity.
Qed.

(** The region pattern finds exactly the whole-word occurrences. *)
Lemma region_found (r text : str) :
  found (search true (region_re r) text) = true <-> WholeWord r text.
Proof.
  rewrite found_search, region_re_eq. unfold WholeWord. split.
  - intros (a & b & s' & Ht & HM). cbn [M] in HM.
    destruct HM as (s1 & [B1 ->] & s2 & HL & [B2 ->]).
    apply M_lits in HL. destruct HL as (w & Hw & Hf).
    apply at_split_reads in Hw. destruct Hw as [Hb Hs].
    exists a, w, (rest s2). rewrite <- Hb, <- Hs.
    split; [rewrite Ht; reflexivity|]. split; [apply Forall2_ci; exact Hf|]. auto.
  - intros (a & w & b & Ht & Hf & B1 & B2).
    exists a, (w ++ b), (at_split (a ++ w) b). split; [exact Ht|].
    cbn [M]. exists (at_split a (w ++ b)). split; [auto|].
    exists (at_split (a ++ w) b). split; [|auto].
    apply M_lits. exists w. split; [|apply Forall2_ci; exact Hf].
    split; [split|]; simpl; auto. apply after_app.
Qed.

Lemma region_scan_first (text : str) (table : list str) :
  (exists r, FirstIn (fun r => WholeWord r text) table r /\ region_scan table text = r)
  \/ ((forall r, In r table -> ~ WholeWord r text) /\ region_scan table text = []).
Proof.
  induction table as [|r table IH]; simpl.
  - right. split; [intros e [] | reflexivity].
  - destruct (found (search true (region_re r) text)) eqn:E.
    + left. exists r. split; [|reflexivity].
      exists [], table. split; [reflexivity|]. split; [apply region_found; exact E|].
      intros y [].
    + assert (N : ~ WholeWord r text).
      { intros H. apply region_found in H. congruence. }
      destruct IH as [(e & (pre & post & -> & He & Hpre) & Hres) | [Hnone Hres]].
      * left. exists e. split; [|exact Hres].
        exists (r :: pre), post. split; [reflexivity|]. split; [exact He|].
        intros y [<- | Hy]; [exact N | apply Hpre; exact Hy].
      * right. split; [|exact Hres].
        intros e [<- | He]; [exact N | apply Hnone; exact He].
Qed.

Lemma region_scan_ext (t1 t2 : str) (table : list str) :
  (forall r, In r table -> (WholeWord r t1 <-> WholeWord r t2)) ->
  region_scan table t1 = region_scan table t2.
Proof.
  induction table as [|r table IH]; simpl; intros H; [reflexivity|].
  assert (E : found (search true (region_re r) t1) = found (search true (region_re r) t2)).
  { apply eq_true_iff_eq. rewrite !region_found. apply H. left. reflexivity. }
  rewrite E. destruct (found (search true (region_re r) t2)); [reflexivity|].
  apply IH. intros e He. apply H. right. exact He.
Qed.

Lemma WholeWord_nonempty (r : str) : WholeWord r [] -> r = [].
Proof.
  intros (a & w & b & Ht & Hf & _). symmetry in Ht.
  apply app_eq_nil in Ht. destruct Ht as [_ Ht]. apply app_eq_nil in Ht.
  destruct Ht as [-> _]. inversion Hf. reflexivity.
Qed.

Lemma find_region_scan (text : str) : find_region text = region_scan REGION_KEYWORDS text.
Proof.
  destruct text as [|c text]; [|reflexivity].
  destruct (region_scan_first [] REGION_KEYWORDS) as [(r & (pre & post & E & Hw & _) & _) | [_ H]].
  - apply WholeWord_nonempty in Hw. subst r. exfalso.
    assert (Hin : In [] REGION_KEYWORDS) by (rewrite E; apply in_elt).
    vm_compute in Hin. repeat (destruct Hin as [Hin | Hin]; [discriminate|]). exact Hin.
  - rewrite H. reflexivity.
Qed.

(** ** Effect direction *)

Lemma compare_antisym (a b : F64.float) : F64.compare a b = CompOpp (F64.compare b a).
Proof.
  destruct a as [m1 e1|], b as [m2 e2|]; simpl; try reflexivity.
  rewrite (Z.min_comm e2 e1). apply Z.compare_antisym.
Qed.


Lemma remove_absent (c : char) (s : str) :
  contains s [c] = false -> remove_char c s = s.
Proof.
  induction s as [|d s IH]; [reflexivity|].
  cbn [contains]. intros H. apply orb_false_iff in H. destruct H as [H1 H2].
  assert (Hnil : startswith s [] = true) by (destruct s; reflexivity).
  cbn [startswith] in H1. rewrite Hnil, andb_true_r in H1.
  unfold remove_char in *. cbn [filter].
  unfold char_eqb in *. rewrite N.eqb_sym, H1. simpl. rewrite (IH H2). reflexivity.
Qed.

Lemma p_significant_spec (p_str : str) :
  p_str <> [] ->
  p_significant p_str =
  option_map (fun p => F64.leb p p_threshold) (F64.float_of_str (remove_char 62%N p_str)).
Proof.
  intros Hne. unfold p_significant. destruct p_str as [|c t]; [contradiction|].
  destruct (contains (c :: t) (py ">")) eqn:E.
  - destruct (F64.float_of_str (remove_char 62%N (c :: t))); reflexivity.
  - rewrite (remove_absent 62%N (c :: t) E).
    destruct (F64.float_of_str (c :: t)); reflexivity.
Qed.

Lemma eff_by_ratio (orv : F64.float) :
  (if F64.gtb orv (F64.of_Z 1) then RISK_UP
   else if F64.ltb orv (F64.of_Z 1) then RISK_DOWN else NO_CHANGE) = by_ratio orv.
Proof.
  unfold by_ratio, F64.gtb, F64.ltb. rewrite (compare_antisym (F64.of_Z 1) orv).
  destruct (F64.compare orv (F64.of_Z 1)); reflexivity.
Qed.

Lemma split_dot_digits (ip ds : str) :
  Digits ip -> F64.split_dot (ip ++ 46%N :: ds) = (ip, Some ds).
Proof.
  induction 1 as [|c ip Hc _ IH]; simpl; [reflexivity|].
  assert (E : char_eqb c 46%N = false).
  { unfold is_digit in Hc. apply between_iff in Hc. unfold char_eqb.
    apply N.eqb_neq. lia. }
  rewrite E, IH. reflexivity.
Qed.

Lemma all_digits_iff (s : str) : F64.all_digits s = true <-> Digits s.
Proof. unfold F64.all_digits, Digits. rewrite forallb_forall, Forall_forall. reflexivity. Qed.

(** [float()] reads every string of digits, a point and digits. *)
Lemma digits_point_float (ip ds : str) :
  Digits ip -> Digits ds -> ip <> [] ->
  exists x, F64.float_of_str (ip ++ 46%N :: ds) = Some x.
Proof.
  intros Hi Hd Hne. unfold F64.float_of_str.
  rewrite (split_dot_digits ip ds Hi).
  apply all_digits_iff in Hi, Hd. rewrite Hi, Hd. simpl.
  destruct ip as [|c ip]; [contradiction|]. simpl. eauto.
Qed.



(** ** Sample size *)

Lemma list_max_spec (nums : list Z) : forall n,
  In (list_max n nums) (n :: nums) /\ forall x, In x (n :: nums) -> (x <= list_max n nums)%Z.
Proof.
  unfold list_max. induction nums as [|y nums IH]; intros n; simpl.
  - split; [auto | intros x [<- | []]; lia].
  - destruct (IH (Z.max n y)) as [Hin Hmax]. split.
    + destruct Hin as [H | H]; [|auto].
      rewrite <- H. destruct (Z.max_spec n y) as [[_ ->] | [_ ->]]; auto.
    + intros x Hx. assert (Hm : (Z.max n y <= fold_left Z.max nums (Z.max n y))%Z)
        by (apply Hmax; left; reflexivity).
      destruct Hx as [<- | [<- | Hx]]; [lia | lia | apply Hmax; right; exact Hx].
Qed.

(** ** Dictionaries *)

Module DictFacts.

Lemma str_eqb_sym (a b : str) : str_eqb a b = str_eqb b a.
Proof. apply eq_true_iff_eq. rewrite !str_eqb_eq. split; congruence. Qed.

Section Values.
Variable V : Type.

Lemma get_set (d : list (str * V)) (k k' : str) (v : V) :
  Dict.get (Dict.set d k v) k' = if str_eqb k k' then Some v else Dict.get d k'.
Proof.
  induction d as [|[k0 v0] d IH]; simpl.
  - reflexivity.
  - destruct (str_eqb k0 k) eqn:E; simpl.
    + apply str_eqb_eq in E. subst k0. destruct (str_eqb k k'); reflexivity.
    + rewrite IH. destruct (str_eqb k0 k') eqn:E'; [|reflexivity].
      apply str_eqb_eq in E'. subst k0. rewrite str_eqb_neq in E.
      destruct (str_eqb k k') eqn:E''; [|reflexivity].
      apply str_eqb_eq in E''. congruence.
Qed.

Lemma get_fold_set (F : str -> V) (l : list str) : forall d k,
  Dict.get (fold_left (fun d r => Dict.set d r (F r)) l d) k =
  if mem k l then Some (F k) else Dict.get d k.
Proof.
  induction l as [|r l IH]; intros d k; [reflexivity|].
  cbn [fold_left]. rewrite IH, get_set.
  unfold mem. cbn [existsb]. fold (mem k l). rewrite (str_eqb_sym k r).
  destruct (mem k l); [rewrite orb_true_r; reflexivity|]. rewrite orb_false_r.
  destruct (str_eqb r k) eqn:E; [|reflexivity].
  apply str_eqb_eq in E. subst. reflexivity.
Qed.

Lemma get_None (d : list (str * V)) (k : str) :
  Dict.get d k = None <-> ~ In k (List.map fst d).
Proof.
  induction d as [|[k0 v0] d IH]; simpl; [tauto|].
  destruct (str_eqb k0 k) eqn:E.
  - apply str_eqb_eq in E. split; [discriminate | intros H; exfalso; auto].
  - apply str_eqb_neq in E. rewrite IH. tauto.
Qed.

Lemma setdefault_spec (d : list (str * V)) (k : str) (v : V) :
  Dict.setdefault d k v = if mem k (List.map fst d) then d else d ++ [(k, v)].
Proof.
  unfold Dict.setdefault. destruct (Dict.get d k) eqn:E.
  - destruct (mem k (List.map fst d)) eqn:E'; [reflexivity|].
    apply mem_not_In, get_None in E'. congruence.
  - apply get_None, mem_not_In in E. rewrite E. reflexivity.
Qed.

End Values.

Lemma insert_by_head (V : Type) (x : V * nat) (l : list (V * nat)) :
  (forall y, In y l -> snd x <= snd y) -> Dict.insert_by x l = x :: l.
Proof.
  destruct l as [|y l]; simpl; [reflexivity|]. intros H.
  assert (E : (snd x <=? snd y) = true) by (apply Nat.leb_le, H; left; reflexivity).
  rewrite E. reflexivity.
Qed.

(** Sorting by value leaves a list alone whose values already go up. *)
Lemma sorted_by_value_id (V : Type) (l : list (V * nat)) :
  increasing (List.map snd l) -> Dict.sorted_by_value l = l.
Proof.
  induction l as [|x l IH]; simpl; [reflexivity|].
  intros [Hx Hl]. rewrite (IH Hl). apply insert_by_head.
  clear IH. revert x Hx. induction l as [|y l IH]; intros x Hx z Hz; [contradiction|].
  simpl in Hx, Hl. destruct Hz as [<- | Hz]; [lia|].
  destruct Hl as [Hy Hl]. specialize (IH Hl y Hy z Hz). lia.
Qed.

End DictFacts.
Import DictFacts.

(** ** Gene groups *)

Section Groups.
Variable f : str -> option str.

Lemma first_positions_lower (rsids : list str) : forall idx seen x,
  In x (first_positions f idx rsids seen) -> idx <= snd x.
Proof.
  induction rsids as [|r tl IH]; intros idx seen x; simpl; [contradiction|].
  destruct (f r) as [g|]; [destruct (mem g seen)|]; simpl; intros H.
  - apply IH in H. lia.
  - destruct H as [<- | H]; [simpl; lia | apply IH in H; lia].
  - apply IH in H. lia.
Qed.

Lemma first_positions_increasing (rsids : list str) : forall idx seen,
  increasing (List.map snd (first_positions f idx rsids seen)).
Proof.
  induction rsids as [|r tl IH]; intros idx seen; simpl; [exact I|].
  destruct (f r) as [g|]; [destruct (mem g seen)|]; try apply IH.
  cbn [List.map snd]. apply increasing_cons; [|apply IH].
  intros y Hy. apply in_map_iff in Hy. destruct Hy as (x & <- & Hx).
  apply first_positions_lower in Hx. lia.
Qed.

Lemma first_positions_In (rsids : list str) : forall idx seen g,
  In g (List.map fst (first_positions f idx rsids seen)) <->
  ~ In g seen /\ exists r, In r rsids /\ f r = Some g.
Proof.
  induction rsids as [|r tl IH]; intros idx seen g; simpl.
  - split; [contradiction | intros [_ (r & [] & _)]].
  - destruct (f r) as [g0|] eqn:Ef; [destruct (mem g0 seen) eqn:Em|].
    + apply mem_In in Em. rewrite IH. split.
      * intros [Hn (r' & Hr' & Hf)]. split; [exact Hn|]. exists r'. auto.
      * intros [Hn (r' & [<- | Hr'] & Hf)]; (split; [exact Hn|]).
        -- exfalso. rewrite Ef in Hf. injection Hf as ->. contradiction.
        -- exists r'. auto.
    + apply mem_not_In in Em. simpl. rewrite IH. simpl. split.
      * intros [<- | [Hn (r' & Hr' & Hf)]].
        -- split; [exact Em|]. exists r. auto.
        -- split; [tauto|]. exists r'. auto.
      * intros [Hn (r' & Hr' & Hf)].
        destruct (str_eqb g0 g) eqn:Eg.
        -- apply str_eqb_eq in Eg. auto.
        -- apply str_eqb_neq in Eg. right. split; [tauto|].
           destruct Hr' as [<- | Hr']; [congruence|]. exists r'. auto.
    + rewrite IH. split.
      * intros [Hn (r' & Hr' & Hf)]. split; [exact Hn|]. exists r'. auto.
      * intros [Hn (r' & [<- | Hr'] & Hf)]; [congruence|].
        split; [exact Hn|]. exists r'. auto.
Qed.

Lemma first_positions_NoDup (rsids : list str) : forall idx seen,
  NoDup (List.map fst (first_positions f idx rsids seen)).
Proof.
  induction rsids as [|r tl IH]; intros idx seen; simpl; [constructor|].
  destruct (f r) as [g|]; [destruct (mem g seen)|]; try apply IH.
  simpl. constructor; [|apply IH].
  rewrite first_positions_In. simpl. tauto.
Qed.

Lemma first_with_In (g : str) (rsids : list str) :
  (exists r, In r rsids /\ f r = Some g) -> exists a, first_with f g rsids = Some a.
Proof.
  induction rsids as [|r tl IH]; simpl; [intros (r & [] & _)|].
  intros (r' & Hr' & Hf). destruct (opt_str_eqb (f r) g) eqn:E; [eauto|].
  destruct Hr' as [<- | Hr'].
  - rewrite Hf in E. simpl in E. rewrite str_eqb_refl in E. discriminate.
  - destruct IH as (a & Ha); [eauto|]. rewrite Ha. simpl. eauto.
Qed.

Lemma opt_str_eqb_false (r g g' : str) :
  f r = Some g -> g <> g' -> opt_str_eqb (f r) g' = false.
Proof. intros -> H. simpl. apply str_eqb_neq. exact H. Qed.

(** The genes come in the order of their first rsIDs. *)
Lemma first_positions_order (rsids : list str) : forall idx seen i j g1 g2,
  nth_error (List.map fst (first_positions f idx rsids seen)) i = Some g1 ->
  nth_error (List.map fst (first_positions f idx rsids seen)) j = Some g2 ->
  i < j ->
  exists a b, first_with f g1 rsids = Some a /\ first_with f g2 rsids = Some b /\ a < b.
Proof.
  induction rsids as [|r tl IH]; intros idx seen i j g1 g2 H1 H2 Hij; simpl in *.
  - destruct i; discriminate.
  - assert (Hshift : forall seen' idx',
      nth_error (List.map fst (first_positions f idx' tl seen')) i = Some g1 ->
      nth_error (List.map fst (first_positions f idx' tl seen')) j = Some g2 ->
      opt_str_eqb (f r) g1 = false -> opt_str_eqb (f r) g2 = false ->
      exists a b,
        (if opt_str_eqb (f r) g1 then Some 0 else option_map S (first_with f g1 tl)) = Some a
        /\ (if opt_str_eqb (f r) g2 then Some 0 else option_map S (first_with f g2 tl)) = Some b
        /\ a < b).
    { intros seen' idx' K1 K2 E1 E2.
      destruct (IH _ _ _ _ _ _ K1 K2 Hij) as (a & b & Ha & Hb & Hab).
      rewrite E1, E2, Ha, Hb. simpl. exists (S a), (S b). repeat split; lia. }
    destruct (f r) as [g|] eqn:Ef; [destruct (mem g seen) eqn:Em|].
    + apply mem_In in Em.
      pose proof (nth_error_In _ _ H1) as I1. pose proof (nth_error_In _ _ H2) as I2.
      apply first_positions_In in I1, I2.
      apply (Hshift seen (S idx)); auto; apply str_eqb_neq; intros ->; tauto.
    + apply mem_not_In in Em. destruct j as [|j]; [lia|]. simpl in H2.
      pose proof (nth_error_In _ _ H2) as I2. apply first_positions_In in I2.
      destruct I2 as [N2 X2].
      assert (E2 : str_eqb g g2 = false).
      { apply str_eqb_neq. intros ->. apply N2. left. reflexivity. }
      destruct i as [|i]; simpl in H1.
      * injection H1 as ->. simpl. rewrite str_eqb_refl, E2.
        destruct (first_with_In g2 tl X2) as (b & ->). simpl.
        exists 0, (S b). repeat split; lia.
      * pose proof (nth_error_In _ _ H1) as I1. apply first_positions_In in I1.
        destruct I1 as [N1 X1].
        assert (E1 : str_eqb g g1 = false).
        { apply str_eqb_neq. intros ->. apply N1. left. reflexivity. }
        assert (Hij' : i < j) by lia.
        destruct (IH _ _ _ _ _ _ H1 H2 Hij') as (a & b & Ha & Hb & Hab).
        simpl. rewrite E1, E2, Ha, Hb. simpl. exists (S a), (S b). repeat split; lia.
    + apply (Hshift seen (S idx)); auto.
Qed.

Lemma mem_ext (x : str) (s1 s2 : list str) :
  (forall y, In y s1 <-> In y s2) -> mem x s1 = mem x s2.
Proof. intros H. apply eq_true_iff_eq. rewrite !mem_In. apply H. Qed.

Lemma first_positions_seen_perm (rsids : list str) : forall idx s1 s2,
  (forall x, In x s1 <-> In x s2) ->
  first_positions f idx rsids s1 = first_positions f idx rsids s2.
Proof.
  induction rsids as [|r tl IH]; intros idx s1 s2 H; simpl; [reflexivity|].
  destruct (f r) as [g|]; [|apply IH; exact H].
  rewrite (mem_ext g s1 s2 H). destruct (mem g s2); [apply IH; exact H|].
  f_equal. apply IH. intros x. simpl. rewrite H. tauto.
Qed.

Lemma first_with_ext (f' : str -> option str) (g : str) (rsids : list str) :
  (forall r, In r rsids -> f r = f' r) -> first_with f g rsids = first_with f' g rsids.
Proof.
  induction rsids as [|r tl IH]; simpl; intros H; [reflexivity|].
  rewrite (H r), IH; auto.
Qed.

End Groups.

Section Annotate.
Variable text : str.
Let f (r : str) : option str := gene (associate text r).

Lemma annotate_loop_spec (rsids : list str) : forall idx gm gfp,
  annotate_loop text idx rsids gm gfp =
  (fold_left (fun d r => Dict.set d r (associate text r)) rsids gm,
   gfp ++ first_positions f idx rsids (List.map fst gfp)).
Proof.
  induction rsids as [|r tl IH]; intros idx gm gfp; simpl.
  - rewrite app_nil_r. reflexivity.
  - rewrite IH. f_equal. unfold f at 2.
    destruct (gene (associate text r)) as [g|]; [|reflexivity].
    rewrite setdefault_spec. destruct (mem g (List.map fst gfp)) eqn:E.
    + reflexivity.
    + rewrite <- app_assoc, map_app. simpl.
      rewrite (first_positions_seen_perm f tl (S idx) (List.map fst gfp ++ [g]) (g :: List.map fst gfp)).
      * reflexivity.
      * intros x. rewrite in_app_iff. simpl. tauto.
Qed.

End Annotate.

Lemma number_groups_lines (rsids : list str) (gene_map : list (str * entry)) (genes : list str) :
  (forall g, In g genes -> rs_for_gene rsids gene_map g <> []) ->
  forall k, number_groups (N.of_nat (S k)) rsids gene_map genes
            = lines_from rsids gene_map k genes.
Proof.
  induction genes as [|g tl IH]; intros H k; cbn [number_groups lines_from]; [reflexivity|].
  assert (Hg : rs_for_gene rsids gene_map g <> []) by (apply H; left; reflexivity).
  unfold group_line.
  destruct (rs_for_gene rsids gene_map g) as [|x l] eqn:E; [contradiction|].
  cbv iota. f_equal.
  replace (N.of_nat (S k) + 1)%N with (N.of_nat (S (S k))) by lia.
  apply IH. intros g' Hg'. apply H. right. exact Hg'.
Qed.

Lemma rs_for_gene_nonempty (rsids : list str) (gene_map : list (str * entry)) (g r : str) :
  In r rsids -> gene_of gene_map r = Some g -> rs_for_gene rsids gene_map g <> [].
Proof.
  intros Hin Hg. unfold rs_for_gene. intros E. apply map_eq_nil in E.
  assert (Hf : In r (filter (fun rsi => opt_str_eqb (entry_get_gene (Dict.get gene_map rsi)) g) rsids)).
  { apply filter_In. split; [exact Hin|]. unfold gene_of in Hg. rewrite Hg. simpl.
    apply str_eqb_refl. }
  rewrite E in Hf. contradiction.
Qed.

(** C6: the gene groups come in the order of the rsID index at which
    each gene is first met, one group per gene name; a group lists its
    rsIDs in the order of the rsID list; so a gene met with two rsIDs
    has both in its one group. *)
Theorem gene_groups_by_first_variant (text : str) :
  let '(rsids, gene_map, genes) := extract_rsids_and_genes_with_annotations text in
  NoDup genes
  /\ (forall g, In g genes <-> exists r, In r rsids /\ gene_of gene_map r = Some g)
  /\ (forall i j g1 g2,
        nth_error genes i = Some g1 -> nth_error genes j = Some g2 -> i < j ->
        exists a b, first_with (gene_of gene_map) g1 rsids = Some a
                    /\ first_with (gene_of gene_map) g2 rsids = Some b /\ a < b)
  /\ (genes <> [] ->
      gene_cell_of rsids gene_map genes = join newline (lines_from rsids gene_map 0 genes))
  /\ (forall g, rs_for_gene rsids gene_map g =
                List.map (fun r => rs_display r (Dict.get gene_map r))
                  (filter (fun r => opt_str_eqb (gene_of gene_map r) g) rsids))
  /\ gene_cell (py "GLIS3 rs6415788 and GLIS3 rs806052") = py "1:GLIS3(rs6415788, rs806052)".
Proof.
  unfold extract_rsids_and_genes_with_annotations.
  destruct text as [|c0 t0].
  { split; [constructor|]. split; [intros g; split; [intros [] | intros (r & [] & _)]|].
    split; [intros [|i] j g1 g2 H; discriminate|].
    split; [intros H; exfalso; apply H; reflexivity|].
    split; [reflexivity | vm_compute; reflexivity]. }
  set (text := c0 :: t0). set (rsids := find_rsids text).
  rewrite (annotate_loop_spec text rsids 0 [] []). cbn [app List.map].
  set (f := fun r => gene (associate text r)).
  set (gene_map := fold_left (fun d r => Dict.set d r (associate text r)) rsids []).
  rewrite (sorted_by_value_id _ _ (first_positions_increasing f rsids 0 [])).
  set (genes := List.map fst (first_positions f 0 rsids [])).
  assert (Hget : forall r, In r rsids -> gene_of gene_map r = f r).
  { intros r Hr. unfold gene_of, gene_map. rewrite get_fold_set.
    apply mem_In in Hr. rewrite Hr. reflexivity. }
  assert (Hin : forall g, In g genes <-> exists r, In r rsids /\ gene_of gene_map r = Some g).
  { intros g. unfold genes. rewrite first_positions_In. split.
    - intros [_ (r & Hr & Hf)]. exists r. split; [exact Hr|]. rewrite Hget; auto.
    - intros (r & Hr & Hg). split; [intros []|]. exists r. split; [exact Hr|].
      rewrite <- Hget; auto. }
  split; [apply first_positions_NoDup|].
  split; [exact Hin|].
  split.
  { intros i j g1 g2 H1 H2 Hij.
    destruct (first_positions_order f rsids 0 [] i j g1 g2 H1 H2 Hij) as (a & b & Ha & Hb & Hab).
    exists a, b. rewrite !(first_with_ext (gene_of gene_map) f) by exact Hget. auto. }
  split.
  { intros Hne. unfold gene_cell_of. destruct genes as [|g tl] eqn:Eg; [contradiction|].
    f_equal. apply (number_groups_lines rsids gene_map (g :: tl)) with (k := 0).
    intros g' Hg'. apply Hin in Hg'. destruct Hg' as (r & Hr & Hg').
    eapply rs_for_gene_nonempty; eauto. }
  split; [reflexivity | vm_compute; reflexivity].
Qed.

(** ** Patterns that only read *)

Lemma reads_advance (s : st) (w t : str) : rest s = w ++ t -> reads s w (advance s w t).
Proof. intros H. split; [split|]; simpl; auto. Qed.

Lemma reads_split (s s' : st) (w1 w2 : str) :
  reads s (w1 ++ w2) s' ->
  reads s w1 (advance s w1 (w2 ++ rest s')) /\ reads (advance s w1 (w2 ++ rest s')) w2 s'.
Proof.
  intros [[Hrest Hprev] Hcaps]. split.
  - apply reads_advance. rewrite Hrest, app_assoc. reflexivity.
  - split; [split|]; simpl; auto. rewrite Hprev, after_app. reflexivity.
Qed.

Lemma Reads_lits (ci : bool) (w0 : str) :
  Reads ci (lits w0) (fun w => Forall2 (lit_ok ci) w w0).
Proof. intros s s'. apply M_lits. Qed.

Lemma Reads_rep_cls (ci neg : bool) (items : list item) (lo : nat) (hi : option nat) (g : bool) :
  Reads ci (Rep (Cls neg items) lo hi g)
    (fun w => Forall (fun c => cls_mem ci neg items c = true) w
              /\ lo <= length w /\ upto hi lo (length w - lo)).
Proof. intros s s'. apply M_rep_cls. Qed.

Lemma Reads_cls (ci neg : bool) (items : list item) :
  Reads ci (Cls neg items) (fun w => exists c, w = [c] /\ cls_mem ci neg items c = true).
Proof.
  intros s s'. rewrite M_cls_iff. split.
  - intros (c & Hr & Hc). exists [c]. split; [exact Hr|]. exists c. auto.
  - intros (w & Hr & c & -> & Hc). exists c. auto.
Qed.

Lemma Reads_seq (ci : bool) (a b : re) (P Q : str -> Prop) :
  Reads ci a P -> Reads ci b Q ->
  Reads ci (Seq a b) (fun w => exists w1 w2, w = w1 ++ w2 /\ P w1 /\ Q w2).
Proof.
  intros Ha Hb s s'. cbn [M]. split.
  - intros (s1 & H1 & H2). apply Ha in H1. apply Hb in H2.
    destruct H1 as (w1 & R1 & P1), H2 as (w2 & R2 & Q2).
    exists (w1 ++ w2). split; [exact (reads_app _ _ _ _ _ R1 R2)|]. exists w1, w2. auto.
  - intros (w & Hr & w1 & w2 & -> & P1 & Q2).
    apply reads_split in Hr. destruct Hr as [R1 R2].
    exists (advance s w1 (w2 ++ rest s')). split; [apply Ha | apply Hb]; eauto.
Qed.

Lemma Reads_weaken (ci : bool) (r : re) (P Q : str -> Prop) :
  (forall w, P w <-> Q w) -> Reads ci r P -> Reads ci r Q.
Proof.
  intros H Hr s s'. rewrite (Hr s s'). split; intros (w & R & Pw); exists w; (split; [exact R|]); apply H; exact Pw.
Qed.

(** A group around a pattern that only reads records what was read. *)
Lemma M_grp_reads (ci : bool) (n : nat) (a : re) (P : str -> Prop) (s s' : st) :
  Reads ci a P ->
  (M ci (Grp n a) s s' <->
   exists w, moves s w s' /\ P w /\ caps s' = (n, w) :: caps s).
Proof.
  intros Ha. cbn [M]. split.
  - intros (s1 & H1 & ->). apply Ha in H1. destruct H1 as (w & [Hm Hc] & Pw).
    exists w. unfold set_cap. simpl. rewrite (consumed_moves _ _ _ Hm), Hc.
    destruct Hm as [? ?]. repeat split; auto.
  - intros (w & [Hrest Hprev] & Pw & Hc).
    exists (advance s w (rest s')). split.
    + apply Ha. exists w. split; [apply reads_advance; exact Hrest | exact Pw].
    + apply st_ext; simpl; auto.
      unfold consumed. simpl. rewrite Hrest, length_app.
      replace (length w + length (rest s') - length (rest s')) with (length w) by lia.
      rewrite firstn_app, firstn_all, Nat.sub_diag. simpl. rewrite app_nil_r. exact Hc.
Qed.

(** ** The allele-frequency patterns *)





Lemma digit_mem (c : char) : cls_mem false false [IDigit] c = true <-> is_digit c = true.
Proof. unfold cls_mem. simpl. rewrite orb_false_r. reflexivity. Qed.


Lemma Forall_iff (P Q : char -> Prop) (w : str) :
  (forall c, P c <-> Q c) -> (Forall P w <-> Forall Q w).
Proof. intros H. split; apply Forall_impl; intros c; apply H. Qed.










(** ** [re.search], by its result *)


Lemma search_none (ci : bool) (r : re) (text : str) :
  search ci r text = None ->
  forall a b s', text = a ++ b -> ~ M ci r (at_split a b) s'.
Proof.
  unfold search. intros H a b s' Ht. exact (search_from_none ci r text 0 None H a b s' Ht).
Qed.


(** ** The frequency of one rsID *)



















(** ** The documented Gene cell *)

(** C1: on the corpus of the module's own example the Gene cell is not
    the documented one: the annotation is glued to the rsID, and the
    closing parenthesis captured with the rsID comes back as an
    annotation. *)
Theorem gene_cell_of_documented_example (unescape : str -> str) :
  gene_cell (py "PPARG (rs1801282 (Pro12Ala)) and HNF4A (rs745975)")
  = py "1:PPARG(rs1801282(Pro12Ala))" ++ newline ++ py "2:HNF4A(rs745975 ))"
  /\ gene_cell (py "PPARG (rs1801282 (Pro12Ala)) and HNF4A (rs745975)")
     <> py "1:PPARG(rs1801282 (Pro12Ala))" ++ newline ++ py "2:HNF4A(rs745975)"
  /\ associate (py "PPARG (rs1801282 (Pro12Ala)) and HNF4A (rs745975)") (py "rs1801282")
     = mkEntry (Some (py "PPARG")) (py "(Pro12Ala)")
  /\ associate (py "PPARG (rs1801282 (Pro12Ala)) and HNF4A (rs745975)") (py "rs745975")
     = mkEntry (Some (py "HNF4A")) (py ")")
  /\ exists r,
       parse_article unescape
         (text_page (py "PPARG (rs1801282 (Pro12Ala)) and HNF4A (rs745975)")) = Ok r
       /\ Dict.get r (py "Gene")
          = Some (VStr (py "1:PPARG(rs1801282(Pro12Ala))" ++ newline ++ py "2:HNF4A(rs745975 ))")).
Proof.
  split; [vm_compute; reflexivity|].
  split; [vm_compute; discriminate|].
  split; [vm_compute; reflexivity|].
  split; [vm_compute; reflexivity|].
  eexists. split; vm_compute; reflexivity.
Qed.

(** ** The metadata extractor *)

(** C3: the metadata extractor is not total: with no title hint and a
    title element that holds no string, line 110 raises; on every other
    page it returns its seven strings. *)
Theorem metadata_raises_on_empty_title (unescape : str -> str) :
  extract_basic_metadata unescape empty_title_page
  = Raise (py "AttributeError: 'NoneType' object has no attribute 'strip'")
  /\ parse_article unescape empty_title_page
     = Raise (py "AttributeError: 'NoneType' object has no attribute 'strip'")
  /\ (forall soup,
        (exists e, extract_basic_metadata unescape soup = Raise e)
        <-> (no_title_hint soup /\ title_string soup = Some None)).
Proof.
  split; [reflexivity|]. split; [reflexivity|].
  intros soup. unfold extract_basic_metadata, title_of, no_title_hint.
  destruct (por (get_meta soup (py "citation_title")) (get_meta soup (py "og:title")))
    as [[|c t]|]; destruct (title_string soup) as [[s|]|]; cbn [bind truthy];
    (split; [intros (e & H) | intros [H1 H2]]);
    try discriminate; try (split; reflexivity); eauto.
Qed.

(** ** The allele-frequency cell *)

(** C8: an rsID with a frequency and no gene gets the line
    [None (rs12345) -> 0.25]: the missing gene is written out as None. *)
Theorem allele_cell_prints_None (unescape : str -> str) :
  exists r,
    parse_article unescape (text_page (py "variant rs12345 (MAF 0.25)")) = Ok r
    /\ Dict.get r (py "Allele Frequency (Cases)")
       = Some (VStr (py "None (rs12345) " ++ [ARROW] ++ py " 0.25"))
    /\ Dict.get r (py "Gene") = Some (VStr (py "1:rs12345"))
    /\ Dict.get r (py "SNP/Variant") = Some (VStr (py "rs12345")).
Proof.
  eexists. split; [vm_compute; reflexivity|].
  split; [vm_compute; reflexivity|]. split; vm_compute; reflexivity.
Qed.

(** * Groups, words and greedy repetition *)

(** ** Captured groups *)

Module Captures.

Lemma lookup_set_cap (n k : nat) (s s1 : st) :
  lookup n (caps (set_cap k s s1)) =
  if Nat.eqb k n then Some (consumed s s1) else lookup n (caps s1).
Proof. reflexivity. Qed.

Lemma pow_caps (R : st -> st -> Prop) (Q : st -> Prop) :
  (forall s s', R s s' -> Q s -> Q s') ->
  forall j s s', pow R j s s' -> Q s -> Q s'.
Proof.
  intros HR j. induction j as [|j IH]; simpl; intros s s' H Hq.
  - subst. exact Hq.
  - destruct H as (s1 & H1 & H2). eauto.
Qed.

(** A captured string is what some group of that number has read. *)
Lemma caps_provenance (ci : bool) (n : nat) (x : str) (r : re) : forall s s',
  M ci r s s' -> lookup n (caps s') = Some x ->
  lookup n (caps s) = Some x \/ Cap ci r n x.
Proof.
  induction r as [|neg items|a IHa b IHb|a IHa b IHb|a IHa lo hi g|k a IHa| | |];
    cbn [M Cap]; intros s s' H Hl.
  - subst. auto.
  - destruct H as (c & t & _ & _ & ->). auto.
  - destruct H as (s1 & Ha & Hb).
    destruct (IHb _ _ Hb Hl) as [H1 | H1]; [|auto].
    destruct (IHa _ _ Ha H1); auto.
  - destruct H as [H | H]; [destruct (IHa _ _ H Hl) | destruct (IHb _ _ H Hl)]; auto.
  - destruct H as (s1 & j & Hp & _ & Hq).
    assert (Hgen : forall R, (forall t t', R t t' -> M ci a t t') ->
              forall i t t', pow R i t t' -> lookup n (caps t') = Some x ->
                             lookup n (caps t) = Some x \/ Cap ci a n x).
    { intros R HR i. induction i as [|i IHi]; simpl; intros t t' Hpow Hlk.
      - subst. auto.
      - destruct Hpow as (t1 & H1 & H2).
        destruct (IHi _ _ H2 Hlk) as [H3 | H3]; [|auto].
        apply (IHa _ _ (HR _ _ H1) H3). }
    destruct (Hgen (advancing (M ci a)) (fun t t' H => proj1 H) _ _ _ Hq Hl) as [H1 | H1]; [|auto].
    apply (Hgen (M ci a) (fun t t' H => H) _ _ _ Hp H1).
  - destruct H as (s1 & Ha & ->). rewrite lookup_set_cap in Hl.
    destruct (Nat.eqb_spec k n) as [E | E].
    + injection Hl as <-. right. left. split; [exact E|]. eauto.
    + destruct (IHa _ _ Ha Hl); auto.
  - destruct H as [_ ->]. auto.
  - destruct H as [_ ->]. auto.
  - destruct H as [_ ->]. auto.
Qed.

(** A group that is set stays set, and a group on every path gets set. *)
Lemma caps_set (ci : bool) (n : nat) (r : re) : forall s s',
  M ci r s s' ->
  lookup n (caps s) <> None \/ always_sets r n = true ->
  lookup n (caps s') <> None.
Proof.
  induction r as [|neg items|a IHa b IHb|a IHa b IHb|a IHa lo hi g|k a IHa| | |];
    cbn [M always_sets]; intros s s' H Hs.
  - subst. destruct Hs; [assumption | discriminate].
  - destruct H as (c & t & _ & _ & ->). simpl. destruct Hs; [assumption | discriminate].
  - destruct H as (s1 & Ha & Hb).
    destruct Hs as [Hs | Hs]; [apply (IHb _ _ Hb); left; apply (IHa _ _ Ha); auto|].
    apply orb_true_iff in Hs. destruct Hs as [Hs | Hs].
    + apply (IHb _ _ Hb). left. apply (IHa _ _ Ha). auto.
    + apply (IHb _ _ Hb). auto.
  - destruct Hs as [Hs | Hs].
    + destruct H as [H | H]; [apply (IHa _ _ H) | apply (IHb _ _ H)]; auto.
    + apply andb_true_iff in Hs. destruct Hs as [H1 H2].
      destruct H as [H | H]; [apply (IHa _ _ H) | apply (IHb _ _ H)]; auto.
  - destruct H as (s1 & j & Hp & _ & Hq).
    assert (Hkeep : forall R, (forall t t', R t t' -> M ci a t t') ->
              forall i t t', pow R i t t' -> lookup n (caps t) <> None ->
                             lookup n (caps t') <> None).
    { intros R HR i t t' Hpow.
      refine (pow_caps R (fun u => lookup n (caps u) <> None) _ i t t' Hpow).
      intros u u' Hu Hq'. apply (IHa _ _ (HR _ _ Hu)). auto. }
    apply (Hkeep (advancing (M ci a)) (fun t t' H => proj1 H) _ _ _ Hq).
    destruct Hs as [Hs | Hs]; [apply (Hkeep (M ci a) (fun t t' H => H) _ _ _ Hp Hs)|].
    apply andb_true_iff in Hs. destruct Hs as [Hlo Ha].
    destruct lo as [|lo]; [discriminate|]. simpl in Hp.
    destruct Hp as (t1 & H1 & H2).
    apply (Hkeep (M ci a) (fun t t' H => H) _ _ _ H2).
    apply (IHa _ _ H1). auto.
  - destruct H as (s1 & Ha & ->). rewrite lookup_set_cap.
    destruct (Nat.eqb_spec k n) as [E | E]; [discriminate|].
    apply (IHa _ _ Ha). destruct Hs as [Hs | Hs]; [auto|].
    simpl in Hs. auto.
  - destruct H as [_ ->]. destruct Hs; [assumption | discriminate].
  - destruct H as [_ ->]. destruct Hs; [assumption | discriminate].
  - destruct H as [_ ->]. destruct Hs; [assumption | discriminate].
Qed.

(** A captured string was read by one of the pattern's groups. *)
Lemma Cap_groups (ci : bool) (n : nat) (x : str) (r : re) :
  Cap ci r n x ->
  exists a, In (n, a) (groups_of r) /\ exists s s', M ci a s s' /\ consumed s s' = x.
Proof.
  induction r as [|neg items|a IHa b IHb|a IHa b IHb|a IHa lo hi g|k a IHa| | |];
    cbn [Cap groups_of]; intros H; try contradiction.
  - destruct H as [H | H]; [destruct (IHa H) as (c & Hin & Hc) | destruct (IHb H) as (c & Hin & Hc)];
      exists c; (split; [apply in_or_app; auto | exact Hc]).
  - destruct H as [H | H]; [destruct (IHa H) as (c & Hin & Hc) | destruct (IHb H) as (c & Hin & Hc)];
      exists c; (split; [apply in_or_app; auto | exact Hc]).
  - auto.
  - destruct H as [[-> H] | H].
    + exists a. split; [left; reflexivity | exact H].
    + destruct (IHa H) as (c & Hin & Hc). exists c. split; [right; exact Hin | exact Hc].
Qed.

Lemma groups_of_cat_cons (r : re) (l : list re) :
  groups_of (cat (r :: l)) = groups_of r ++ groups_of (cat l).
Proof. destruct l as [|y l]; simpl; [rewrite app_nil_r|]; reflexivity. Qed.

Lemma groups_of_lits (w : str) : groups_of (lits w) = [].
Proof.
  unfold lits. induction w as [|c w IH]; [reflexivity|].
  cbn [List.map]. rewrite groups_of_cat_cons, IH. reflexivity.
Qed.

(** What a group around a reading pattern captures has the pattern's form. *)
Lemma Cap_reads (ci : bool) (a : re) (P : str -> Prop) (x : str) :
  Reads ci a P -> (exists s s', M ci a s s' /\ consumed s s' = x) -> P x.
Proof.
  intros Ha (s & s' & HM & <-). apply Ha in HM. destruct HM as (w & [Hm _] & Pw).
  rewrite (consumed_moves _ _ _ Hm). exact Pw.
Qed.

Lemma Cap_cat_cons (ci : bool) (n : nat) (x : str) (r : re) (l : list re) :
  Cap ci (cat (r :: l)) n x -> Cap ci r n x \/ Cap ci (cat l) n x.
Proof. destruct l as [|y l]; simpl; auto. Qed.

(** Literal text captures nothing. *)
Lemma Cap_lits (ci : bool) (n : nat) (x w : str) : ~ Cap ci (lits w) n x.
Proof.
  unfold lits. induction w as [|c w IH]; [simpl; auto|].
  cbn [List.map]. intros H. apply Cap_cat_cons in H. destruct H as [H | H]; [exact H | auto].
Qed.

(** The groups of a search result come from the groups of the pattern. *)
Lemma match_at_group (ci : bool) (r : re) (pos : nat) (p : option char) (t : str)
    (m : mobj) (n : nat) (x : str) :
  match_at ci r pos (mkSt p t []) = Some m -> group m n = Some x -> Cap ci r n x.
Proof.
  intros H Hg. apply match_at_sound in H. destruct H as (s' & HM & ->).
  unfold group, mobj_of in Hg. simpl in Hg.
  destruct (caps_provenance ci n x r _ _ HM Hg) as [H | H]; [discriminate | exact H].
Qed.

Lemma match_at_sets (ci : bool) (r : re) (pos : nat) (p : option char) (t : str)
    (m : mobj) (n : nat) :
  match_at ci r pos (mkSt p t []) = Some m -> always_sets r n = true ->
  exists x, group m n = Some x.
Proof.
  intros H Hs. apply match_at_sound in H. destruct H as (s' & HM & ->).
  unfold group, mobj_of. simpl.
  pose proof (caps_set ci n r _ _ HM (or_intror Hs)) as Hn.
  destruct (lookup n (caps s')) as [x|]; [eauto | contradiction].
Qed.

(** A search result is the result of a match at some place. *)
Lemma search_from_at (ci : bool) (r : re) (t : str) : forall pos p m,
  search_from ci r pos p t = Some m ->
  exists pos' p' t', match_at ci r pos' (mkSt p' t' []) = Some m.
Proof.
  induction t as [|c t IH]; simpl; intros pos p m H.
  - destruct (match_at ci r pos (mkSt p [] [])) eqn:E; [|discriminate].
    injection H as <-. eauto.
  - destruct (match_at ci r pos (mkSt p (c :: t) [])) eqn:E.
    + injection H as <-. eauto.
    + eauto.
Qed.

Lemma finditer_from_at (ci : bool) (r : re) (fuel : nat) : forall pos p t m,
  In m (finditer_from fuel ci r pos p t) ->
  exists pos' p' t', match_at ci r pos' (mkSt p' t' []) = Some m.
Proof.
  induction fuel as [|fuel IH]; simpl; intros pos p t m Hin; [contradiction|].
  destruct (search_from ci r pos p t) as [m0|] eqn:Hs; [|contradiction].
  apply search_from_at in Hs.
  destruct (m_text m0) as [|c w]; [destruct (rest (m_after m0))|];
    destruct Hin as [<- | Hin]; try exact Hs; try contradiction; eauto.
Qed.

Lemma search_group (ci : bool) (r : re) (text : str) (m : mobj) (n : nat) (x : str) :
  search ci r text = Some m -> group m n = Some x -> Cap ci r n x.
Proof.
  unfold search. intros H Hg. apply search_from_at in H.
  destruct H as (pos & p & t & H). eapply match_at_group; eauto.
Qed.

Lemma search_sets (ci : bool) (r : re) (text : str) (m : mobj) (n : nat) :
  search ci r text = Some m -> always_sets r n = true -> exists x, group m n = Some x.
Proof.
  unfold search. intros H Hs. apply search_from_at in H.
  destruct H as (pos & p & t & H). eapply match_at_sets; eauto.
Qed.

Lemma finditer_group (ci : bool) (r : re) (text : str) (m : mobj) (n : nat) (x : str) :
  In m (finditer ci r text) -> group m n = Some x -> Cap ci r n x.
Proof.
  unfold finditer. intros H Hg. apply finditer_from_at in H.
  destruct H as (pos & p & t & H). eapply match_at_group; eauto.
Qed.

Lemma finditer_sets (ci : bool) (r : re) (text : str) (m : mobj) (n : nat) :
  In m (finditer ci r text) -> always_sets r n = true -> exists x, group m n = Some x.
Proof.
  unfold finditer. intros H Hs. apply finditer_from_at in H.
  destruct H as (pos & p & t & H). eapply match_at_sets; eauto.
Qed.

(** [grp] of a group that is set *)
Lemma grp_group (m : mobj) (n : nat) (x : str) : group m n = Some x -> grp m n = x.
Proof. unfold grp. intros ->. reflexivity. Qed.

End Captures.
Import Captures.

(** ** Characters under [re.I] *)

Lemma is_digit_lower (c : char) : is_digit (lower_char c) = is_digit c.
Proof.
  unfold is_digit. apply eq_true_iff_eq. rewrite !between_iff.
  lower_cases c; lia.
Qed.

Lemma is_word_lower (c : char) : is_word (lower_char c) = is_word c.
Proof.
  unfold is_word. apply eq_true_iff_eq.
  rewrite !orb_true_iff, !between_iff, !N.eqb_eq.
  lower_cases c; lia.
Qed.

Lemma is_space_lower (c : char) : is_space (lower_char c) = is_space c.
Proof.
  unfold is_space. apply eq_true_iff_eq.
  rewrite !orb_true_iff, !between_iff, !N.eqb_eq.
  lower_cases c; lia.
Qed.

Lemma lower_char_cases (c : char) :
  lower_char c = c
  \/ (lower_char c = (c + 32)%N /\ ((65 <= c <= 90)%N \/ (192 <= c <= 222)%N)).
Proof.
  unfold lower_char.
  destruct (between 65 90 c) eqn:E1; [apply between_iff in E1; auto|].
  destruct (between 192 222 c) eqn:E2; [apply between_iff in E2 | auto].
  destruct (negb (c =? 215)%N); simpl; auto.
Qed.

Lemma lower_char_idem (c : char) : lower_char (lower_char c) = lower_char c.
Proof.
  destruct (lower_char_cases c) as [E | [E H]]; rewrite E; [exact E|].
  unfold lower_char.
  assert (E1 : between 65 90 (c + 32) = false) by (apply between_false; lia).
  assert (E2 : between 192 222 (c + 32) = false) by (apply between_false; lia).
  rewrite E1, E2. reflexivity.
Qed.

Lemma digit_caseless (c : char) : is_digit c = true -> lower_char c = c.
Proof.
  unfold is_digit. intros H. apply between_iff in H. unfold lower_char.
  assert (E : between 65 90 c = false) by (apply between_false; lia).
  assert (E' : between 192 222 c = false) by (apply between_false; lia).
  rewrite E, E'. reflexivity.
Qed.

(** With [re.I] the class [[0-9]] still holds the digits and nothing else. *)
Lemma d09_mem_ci (c : char) : cls_mem true false [rg "0" "9"] c = true <-> is_digit c = true.
Proof.
  unfold cls_mem. cbn [xorb existsb item_mem rg py List.map list_ascii_of_string].
  rewrite orb_false_r, existsb_exists. split.
  - intros (x & Hx & E). apply N.eqb_eq in E.
    assert (Dx : is_digit x = true).
    { vm_compute in Hx. repeat (destruct Hx as [<- | Hx]; [reflexivity|]). contradiction. }
    rewrite <- is_digit_lower, E, is_digit_lower. exact Dx.
  - intros H. exists c. split; [|apply N.eqb_eq; reflexivity].
    unfold is_digit in H. apply between_iff in H.
    assert (Hc : (c = 48 \/ c = 49 \/ c = 50 \/ c = 51 \/ c = 52 \/ c = 53 \/ c = 54
                  \/ c = 55 \/ c = 56 \/ c = 57)%N) by lia.
    vm_compute. intuition.
Qed.

Lemma point_ci (c : char) : lit_ok true c 46%N <-> c = 46%N.
Proof.
  rewrite lit_ok_ci. split; [|intros ->; reflexivity].
  lower_cases c; intros H; lia.
Qed.

Lemma gt_ci (c : char) : same_letter c 62%N <-> c = 62%N.
Proof. split; [|intros ->; reflexivity]. lower_cases c; intros H; lia. Qed.

Lemma same_letter_P (c : char) : same_letter c 80%N -> is_word c = true.
Proof.
  intros H. assert (Hc : c = 80%N \/ c = 112%N) by (revert H; lower_cases c; intros H; lia).
  destruct Hc as [-> | ->]; reflexivity.
Qed.

(** ** The forms read by the odds-ratio patterns *)

Lemma Reads_or_num : Reads true or_num OrForm.
Proof.
  eapply Reads_weaken;
    [|apply Reads_seq; [apply Reads_rep_cls | apply Reads_seq; [apply Reads_cls | apply Reads_rep_cls]]].
  intros w. unfold OrForm, Digits, upto. split.
  - intros (w1 & w2 & -> & (F1 & L1 & _) & w3 & w4 & -> & (c & -> & Hc) & F4 & L4 & _).
    apply (point_ci c) in Hc. subst c.
    exists w1, w4. split; [reflexivity|].
    split; [apply (Forall_iff _ _ w1 d09_mem_ci); exact F1|].
    split; [apply (Forall_iff _ _ w4 d09_mem_ci); exact F4|].
    split; intros ->; simpl in *; lia.
  - intros (ip & ds & -> & Hi & Hd & Ni & Nd).
    exists ip, (46%N :: ds). split; [reflexivity|].
    split; [split; [apply (Forall_iff _ _ ip d09_mem_ci); exact Hi|]|].
    { split; [destruct ip; [contradiction | simpl; lia] | exact I]. }
    exists [46%N], ds. split; [reflexivity|].
    split; [exists 46%N; split; [reflexivity | apply (point_ci 46%N); reflexivity]|].
    split; [apply (Forall_iff _ _ ds d09_mem_ci); exact Hd|].
    split; [destruct ds; [contradiction | simpl; lia] | exact I].
Qed.

Lemma Reads_rs_body : Reads true (cat [ch "r"; ch "s"; atleast digit 3]) RsidShape.
Proof.
  eapply Reads_weaken;
    [|apply Reads_seq; [apply Reads_cls | apply Reads_seq; [apply Reads_cls | apply Reads_rep_cls]]].
  intros w. unfold RsidShape, upto. split.
  - intros (w1 & w2 & -> & (c1 & -> & H1) & w3 & w4 & -> & (c2 & -> & H2) & F & L & _).
    exists c1, c2, w4. split; [reflexivity|].
    split; [apply same_letter_r, lit_ok_ci; exact H1|].
    split; [apply same_letter_s, lit_ok_ci; exact H2|].
    split; [exact L|].
    eapply Forall_impl; [|exact F]. intros d Hd.
    unfold cls_mem in Hd. simpl in Hd. rewrite orb_false_r in Hd. exact Hd.
  - intros (c1 & c2 & ds & -> & H1 & H2 & L & F).
    exists [c1], (c2 :: ds). split; [reflexivity|].
    split.
    { exists c1. split; [reflexivity|]. apply lit_ok_ci.
      destruct H1 as [-> | ->]; reflexivity. }
    exists [c2], ds. split; [reflexivity|].
    split.
    { exists c2. split; [reflexivity|]. apply lit_ok_ci.
      destruct H2 as [-> | ->]; reflexivity. }
    split; [|split; [exact L | exact I]].
    eapply Forall_impl; [|exact F]. intros d Hd.
    unfold cls_mem. simpl. rewrite orb_false_r. exact Hd.
Qed.

Lemma item_d09_ci (c : char) : item_mem true c (rg "0" "9") = true <-> is_digit c = true.
Proof.
  rewrite <- d09_mem_ci. unfold cls_mem. cbn [xorb existsb]. rewrite orb_false_r. reflexivity.
Qed.

Lemma item_lit_ci (c l : char) : item_mem true c (ILit l) = true <-> same_letter c l.
Proof. apply N.eqb_eq. Qed.

Lemma pchar_mem_ci (c : char) :
  cls_mem true false [rg "0" "9"; ILit 46%N; ILit 62%N] c = true <->
  is_digit c = true \/ c = 46%N \/ c = 62%N.
Proof.
  unfold cls_mem. cbn [xorb existsb]. rewrite !orb_true_iff.
  rewrite item_d09_ci, !item_lit_ci, gt_ci, <- lit_ok_ci, point_ci.
  split; [intros [H | [H | [H | H]]]; auto; discriminate | tauto].
Qed.

Lemma Reads_p_value :
  Reads true (plus (Cls false [rg "0" "9"; ILit 46%N; ILit 62%N])) PChars.
Proof.
  eapply Reads_weaken; [|apply Reads_rep_cls].
  intros w. unfold PChars, upto. rewrite (Forall_iff _ _ w pchar_mem_ci). split.
  - intros (F & L & _). split; [intros ->; simpl in L; lia | exact F].
  - intros (N & F). split; [exact F|]. split; [destruct w; [contradiction | simpl; lia] | exact I].
Qed.

(** ** Letter case spelled out *)

Lemma Latin1_py (x : string) : Latin1 (py x).
Proof.
  unfold Latin1, py. apply Forall_forall. intros c H. apply in_map_iff in H.
  destruct H as (a & <- & _). apply N_ascii_bounded.
Qed.

Lemma lower_char_upper (x : char) : (65 <= x <= 90)%N -> lower_char x = (x + 32)%N.
Proof.
  intros H. unfold lower_char.
  assert (E : between 65 90 x = true) by (apply between_iff; exact H).
  rewrite E. reflexivity.
Qed.

Lemma lower_char_small (x : char) : (x < 65 \/ 90 < x < 192)%N -> lower_char x = x.
Proof.
  intros H. unfold lower_char.
  assert (E1 : between 65 90 x = false) by (apply between_false; lia).
  assert (E2 : between 192 222 x = false) by (apply between_false; lia).
  rewrite E1, E2. reflexivity.
Qed.

(** Under [re.I] a character matches an ASCII character of the pattern
    exactly when it is that character or the same letter in the other
    case. *)
Lemma same_letter_ascii (c l : char) : (l < 128)%N -> (same_letter c l <-> AsciiCase c l).
Proof.
  intros Hl. unfold same_letter, AsciiCase. split.
  - intros E.
    destruct (N.le_gt_cases 65 l) as [H1 | H1]; [destruct (N.le_gt_cases l 90) as [H2 | H2]|].
    + rewrite (lower_char_upper l) in E by lia.
      destruct (lower_char_cases c) as [Ec | [Ec Hc]]; rewrite Ec in E; lia.
    + rewrite (lower_char_small l) in E by lia.
      destruct (lower_char_cases c) as [Ec | [Ec Hc]]; rewrite Ec in E; lia.
    + rewrite (lower_char_small l) in E by lia.
      destruct (lower_char_cases c) as [Ec | [Ec Hc]]; rewrite Ec in E; lia.
  - intros [-> | [[H E] | [H ->]]]; [reflexivity | |].
    + rewrite (lower_char_upper c), (lower_char_small l) by lia. exact E.
    + rewrite (lower_char_small (l + 32)), (lower_char_upper l) by lia. reflexivity.
Qed.

Lemma Forall2_iff (A B : Type) (P Q : A -> B -> Prop) (R : B -> Prop) (w : list A) (k : list B) :
  (forall c l, R l -> (P c l <-> Q c l)) -> Forall R k ->
  (Forall2 P w k <-> Forall2 Q w k).
Proof.
  intros H Hk. split; intros F; induction F as [|c l w k Hc _ IH]; constructor;
    inversion Hk; subst; try (apply IH; assumption); apply (H c l); assumption.
Qed.

Lemma spells_ci (w k : str) :
  Forall (fun l => (l < 128)%N) k -> (Forall2 same_letter w k <-> Spells w k).
Proof. intros Hk. apply (Forall2_iff _ _ _ _ _ w k same_letter_ascii Hk). Qed.



(** ** Word boundaries spelled out *)

Lemma after_last (p : option char) (w : str) (c : char) : after p (w ++ [c]) = Some c.
Proof. rewrite after_app. reflexivity. Qed.





(** ** Every match is found

    For a pattern whose matches are not empty, never reach into one
    another and end in one place only, [re.finditer] yields all of them. *)



Section Complete.
Variables (ci : bool) (r : re).
Hypothesis advances : forall s s', M ci r s s' -> progress s s' = true.
Hypothesis apart : forall a b s' a2 b2 s2,
  a ++ b = a2 ++ b2 -> M ci r (at_split a b) s' -> M ci r (at_split a2 b2) s2 ->
  length a < length a2 -> length b2 <= length (rest s').
Hypothesis one_end : forall s s1 s2, M ci r s s1 -> M ci r s s2 -> s1 = s2.



End Complete.

(** ** Words of their own

    The patterns [\b ( body ) \b] whose body reads word characters only. *)

Section WordTokens.
Variables (ci : bool) (body : re) (P : str -> Prop).
Hypothesis body_reads : Reads ci body P.
Hypothesis body_words : forall w, P w -> w <> [] /\ Forall (fun c => is_word c = true) w.










End WordTokens.

(** ** Greedy repetition of a character class

    A greedy [c{lo,hi}] hands the longest admissible run to what follows
    and gives characters back one at a time until what follows succeeds. *)








Section Greedy.
Variable A : Type.
Variables (ci neg : bool) (items : list item).
Let ok (c : char) : Prop := cls_mem ci neg items c = true.







End Greedy.

(** ** [re.search], by the start it settles on *)



(** * rsIDs, sample size, table selection and allele frequency *)

(** ** The rsID list (app.py, line 232) *)







(** ** The sample size (app.py, lines 191-208) *)









(** ** Study design and region (app.py, lines 175-189) *)









(** ** Which frequency is taken *)















(** * Further properties *)

(** ** Odds-ratio entries (app.py, lines 298-312) *)

Section Unique.
Variables (V : Type) (key : V -> str).

Lemma fold_setdefault_In (l : list V) : forall u k v,
  In (k, v) (fold_left (fun u e => Dict.setdefault u (key e) e) l u) ->
  In (k, v) u \/ (In v l /\ k = key v).
Proof.
  induction l as [|e l IH]; intros u k v H; simpl in *; [auto|].
  apply IH in H. destruct H as [H | [H1 H2]]; [|auto].
  rewrite setdefault_spec in H. destruct (mem (key e) (List.map fst u)); [auto|].
  apply in_app_or in H. destruct H as [H | [H | []]]; [auto|].
  injection H as <- <-. auto.
Qed.

Lemma fold_setdefault_NoDup (l : list V) : forall u,
  NoDup (List.map fst u) ->
  NoDup (List.map fst (fold_left (fun u e => Dict.setdefault u (key e) e) l u)).
Proof.
  induction l as [|e l IH]; intros u H; simpl; [exact H|].
  apply IH. rewrite setdefault_spec. destruct (mem (key e) (List.map fst u)) eqn:E; [exact H|].
  apply mem_not_In in E. rewrite map_app. simpl.
  apply NoDup_app; [exact H | repeat constructor; auto |].
  intros x Hx [<- | []]. contradiction.
Qed.

End Unique.

Lemma or_re1_groups :
  groups_of or_re1
  = [(1, cat [ch "r"; ch "s"; atleast digit 3]); (2, or_num);
     (3, plus (Cls false [rg "0" "9"; ILit 46%N; ILit 62%N]))].
Proof. reflexivity. Qed.

Lemma or_re2_groups :
  groups_of or_re2
  = [(1, cat [ch "r"; ch "s"; atleast digit 3]); (2, or_num);
     (3, plus (Cls false [rg "0" "9"; ILit 46%N; ILit 62%N]))].
Proof. reflexivity. Qed.

(** What the three groups of either pattern can hold. *)
Lemma or_groups_form (r : re) (n : nat) (x : str) :
  groups_of r
  = [(1, cat [ch "r"; ch "s"; atleast digit 3]); (2, or_num);
     (3, plus (Cls false [rg "0" "9"; ILit 46%N; ILit 62%N]))] ->
  Cap true r n x ->
  (n = 1 /\ RsidShape x) \/ (n = 2 /\ OrForm x) \/ (n = 3 /\ PChars x).
Proof.
  intros Hg H. apply Cap_groups in H. destruct H as (a & Hin & Hc). rewrite Hg in Hin.
  destruct Hin as [E | [E | [E | []]]]; injection E as <- <-.
  - left. split; [reflexivity|]. exact (Cap_reads true _ RsidShape x Reads_rs_body Hc).
  - right. left. split; [reflexivity|]. exact (Cap_reads true _ OrForm x Reads_or_num Hc).
  - right. right. split; [reflexivity|]. exact (Cap_reads true _ PChars x Reads_p_value Hc).
Qed.

Lemma entry_of_formed (r : re) (text : str) (m : mobj) :
  groups_of r
  = [(1, cat [ch "r"; ch "s"; atleast digit 3]); (2, or_num);
     (3, plus (Cls false [rg "0" "9"; ILit 46%N; ILit 62%N]))] ->
  always_sets r 2 = true ->
  In m (finditer true r text) -> entry_formed (entry_of m).
Proof.
  intros Hg Hs Hin. unfold entry_formed, entry_of. simpl. split; [|split].
  - destruct (finditer_sets true r text m 2 Hin Hs) as (x & Hx).
    exists x. split; [exact Hx|].
    destruct (or_groups_form r 2 x Hg (finditer_group true r text m 2 x Hin Hx))
      as [[E _] | [[_ H] | [E _]]]; [discriminate | exact H | discriminate].
  - intros x Hx.
    destruct (or_groups_form r 1 x Hg (finditer_group true r text m 1 x Hin Hx))
      as [[_ H] | [[E _] | [E _]]]; [exact H | discriminate | discriminate].
  - intros x Hx.
    destruct (or_groups_form r 3 x Hg (finditer_group true r text m 3 x Hin Hx))
      as [[E _] | [[E _] | [_ H]]]; [discriminate | discriminate | exact H].
Qed.

(** Where a retained entry comes from. *)
Lemma extract_or_pvals_origin (text : str) (e : or_entry) :
  In e (extract_or_pvals text) ->
  exists m, e = entry_of m
            /\ (In m (finditer true or_re1 text) \/ In m (finditer true or_re2 text)).
Proof.
  unfold extract_or_pvals. destruct text as [|c t]; [contradiction|].
  intros H. apply in_map_iff in H. destruct H as ([k v] & <- & H). simpl.
  apply fold_setdefault_In in H. destruct H as [[] | [H _]].
  apply in_app_or in H.
  destruct H as [H | H]; apply in_map_iff in H; destruct H as (m & <- & Hm); eauto.
Qed.

Lemma fold_setdefault_keys (V : Type) (key : V -> str) (l : list V) : forall u,
  List.map fst u = List.map key (List.map snd u) ->
  List.map fst (fold_left (fun u e => Dict.setdefault u (key e) e) l u)
  = List.map key (List.map snd (fold_left (fun u e => Dict.setdefault u (key e) e) l u)).
Proof.
  induction l as [|e l IH]; intros u H; simpl; [exact H|].
  apply IH. rewrite setdefault_spec. destruct (mem (key e) (List.map fst u)); [exact H|].
  rewrite !map_app, H. reflexivity.
Qed.

Lemma extract_or_pvals_formed (text : str) (e : or_entry) :
  In e (extract_or_pvals text) -> entry_formed e.
Proof.
  intros H. apply extract_or_pvals_origin in H. destruct H as (m & -> & [H | H]).
  - exact (entry_of_formed or_re1 text m or_re1_groups eq_refl H).
  - exact (entry_of_formed or_re2 text m or_re2_groups eq_refl H).
Qed.

(** X1: in a text within U+0000..U+00FF, every retained odds-ratio entry
    has an odds ratio of the form digits, point, digits; its rsID, when
    it has one, is [rs] in either case and three or more digits, and its
    p-value, when it has one, is a non-empty string of digits, points
    and greater-than signs. *)
Theorem or_entries_formed (text : str) (H : Latin1 text) :
  Forall entry_formed (extract_or_pvals text).
Proof. apply Forall_forall. intros e. apply extract_or_pvals_formed. Qed.

Lemma or_entries_formed_witness :
  Latin1 (py "RS123456 (OR = 1.45, P = 0.003)")
  /\ extract_or_pvals (py "RS123456 (OR = 1.45, P = 0.003)") <> []
  /\ Forall entry_formed (extract_or_pvals (py "RS123456 (OR = 1.45, P = 0.003)")).
Proof.
  split; [apply Latin1_py|]. split; [vm_compute; discriminate|].
  apply (or_entries_formed (py "RS123456 (OR = 1.45, P = 0.003)")). apply Latin1_py.
Defined.

(** X2: no two retained entries have the same key: the rsID, or the string
    made of the odds ratio and the p-value for an entry without rsID. *)
Theorem or_entries_unique (text : str) : NoDup (List.map or_key (extract_or_pvals text)).
Proof.
  unfold extract_or_pvals. destruct text as [|c t]; [constructor|].
  rewrite <- fold_setdefault_keys by reflexivity.
  apply fold_setdefault_NoDup. constructor.
Qed.

Lemma OrForm_float (x : str) : OrForm x -> x <> [] /\ exists v, F64.float_of_str x = Some v.
Proof.
  intros (ip & ds & -> & Hi & Hd & Hne & _). split.
  - destruct ip; [contradiction | discriminate].
  - exact (digits_point_float ip ds Hi Hd Hne).
Qed.

Lemma infer_effect_direction_marker (or_str p_str : str) (v : F64.float) :
  F64.float_of_str or_str = Some v -> In (infer_effect_direction or_str p_str) MARKERS.
Proof.
  intros H. unfold infer_effect_direction. rewrite H, eff_by_ratio. unfold by_ratio, MARKERS.
  destruct (p_significant p_str) as [[|]|]; destruct (F64.compare v (F64.of_Z 1)); simpl; auto.
Qed.

Lemma markers_nonempty (m : str) : In m MARKERS -> m <> [].
Proof. intros [<- | [<- | [<- | [<- | []]]]]; discriminate. Qed.

Lemma or_lines_marker (e : or_entry) :
  entry_formed e ->
  exists marker, In marker MARKERS
                 /\ snd (fst (or_lines e)) = or_label e ++ ARROW_SEP ++ marker.
Proof.
  intros ((x & Hx & Hf) & _ & _). apply OrForm_float in Hf. destruct Hf as (Hne & v & Hv).
  exists (infer_effect_direction x (or_empty (o_P e))).
  pose proof (infer_effect_direction_marker x (or_empty (o_P e)) v Hv) as Hm.
  split; [exact Hm|].
  apply markers_nonempty in Hm.
  unfold or_lines, or_label. rewrite Hx. cbn [snd fst or_empty].
  destruct x as [|c x]; [contradiction|].
  destruct (infer_effect_direction (c :: x) (or_empty (o_P e))); [contradiction|].
  destruct (or_empty (o_rsid e)); reflexivity.
Qed.

(** X3: the effect line of a retained entry is its label, the arrow and one
    of the four markers: the word Unknown of line 360 is never written. *)
Theorem effect_line_never_unknown (text : str) :
  Forall (fun e => exists marker, In marker MARKERS
                     /\ snd (fst (or_lines e)) = or_label e ++ ARROW_SEP ++ marker)
         (extract_or_pvals text).
Proof.
  apply Forall_forall. intros e H. apply or_lines_marker. exact (extract_or_pvals_formed text e H).
Qed.

(** ** The loose odds-ratio pattern and its p-value (app.py, line 301) *)

Lemma or_re1_run (A : Type) (s : st) (k : st -> option A) :
  run true or_re1 s k
  = run true or_head s (fun s6 =>
      if at_boundary s6
      then rep_opt (run true (Cls true (set ")"))) false (bound (Some 80) 0 s6) s6
             (fun s7 => rep_opt (run true (p_clause 3)) true (bound (Some 1) 0 s7) s7 k)
      else None).
Proof. reflexivity. Qed.

Lemma p_clause_first (A : Type) (n : nat) (s : st) (k : st -> option A) (x : A) :
  run true (p_clause n) s k = Some x -> exists c t, rest s = c :: t /\ is_word c = true.
Proof.
  intros H.
  change (p_clause n)
    with (Seq (Cls false [ILit 80%N])
              (cat [star space; Cls false (set "=<>"); star space;
                    Grp n (plus (Cls false [rg "0" "9"; ILit 46%N; ILit 62%N]))])) in H.
  cbn [run] in H.
  destruct (rest s) as [|c t]; [discriminate|].
  destruct (cls_mem true false [ILit 80%N] c) eqn:E; [|discriminate].
  exists c, t. split; [reflexivity|].
  apply same_letter_P. apply lit_ok_ci. exact E.
Qed.

(** After a word character, at a word boundary, no p-value clause starts. *)
Lemma p_clause_not_here (A : Type) (n : nat) (s : st) (k : st -> option A) :
  word_opt (prev s) = true -> at_boundary s = true -> run true (p_clause n) s k = None.
Proof.
  intros Hw Hb. destruct (run true (p_clause n) s k) eqn:E; [|reflexivity].
  apply p_clause_first in E. destruct E as (c & t & Hr & Hc).
  unfold at_boundary in Hb. rewrite Hw, Hr in Hb. simpl in Hb. rewrite Hc in Hb. discriminate.
Qed.

(** The lazy gap takes nothing and the optional clause is skipped. *)
Lemma or_tail_run (A : Type) (s : st) (k : st -> option A) (y : A) :
  word_opt (prev s) = true -> at_boundary s = true -> k s = Some y ->
  rep_opt (run true (Cls true (set ")"))) false (bound (Some 80) 0 s) s
    (fun s7 => rep_opt (run true (p_clause 3)) true (bound (Some 1) 0 s7) s7 k) = Some y.
Proof.
  intros Hw Hb Hk.
  assert (H1 : rep_opt (run true (p_clause 3)) true (bound (Some 1) 0 s) s k = Some y).
  { destruct (bound (Some 1) 0 s) as [|n]; cbn [rep_opt]; [exact Hk|].
    rewrite (p_clause_not_here _ 3 s _ Hw Hb). exact Hk. }
  destruct (bound (Some 80) 0 s) as [|n]; cbn [rep_opt]; [exact H1|].
  rewrite H1. reflexivity.
Qed.

Lemma digit_word (c : char) : is_digit c = true -> is_word c = true.
Proof. unfold is_digit, is_word. intros ->. reflexivity. Qed.

Lemma OrForm_last (x : str) : OrForm x -> exists w c, x = w ++ [c] /\ is_digit c = true.
Proof.
  intros (ip & ds & -> & _ & Hd & _ & Hne).
  destruct (exists_last Hne) as (ds' & c & ->).
  exists (ip ++ 46%N :: ds'), c. split.
  - rewrite <- app_assoc. reflexivity.
  - apply Forall_app in Hd. destruct Hd as [_ Hd]. inversion Hd. assumption.
Qed.

(** Where the head of the pattern stops: after a digit, with no third group. *)
Lemma or_head_stop (s s' : st) :
  M true or_head s s' -> lookup 3 (caps s) = None ->
  word_opt (prev s') = true /\ lookup 3 (caps s') = None.
Proof.
  intros HM Hc. split.
  - unfold or_head in HM.
    apply M_cat_cons in HM. destruct HM as (s1 & _ & HM).
    apply M_cat_cons in HM. destruct HM as (s2 & _ & HM).
    apply M_cat_cons in HM. destruct HM as (s3 & _ & HM).
    apply M_cat_cons in HM. destruct HM as (s4 & _ & HM).
    apply M_cat_cons in HM. destruct HM as (s5 & _ & HM).
    cbn [cat] in HM.
    apply (M_grp_reads true 2 or_num OrForm s5 s' Reads_or_num) in HM.
    destruct HM as (w & [_ Hp] & Hf & _).
    apply OrForm_last in Hf. destruct Hf as (w' & c & -> & Hd).
    rewrite Hp, after_last. simpl. apply digit_word. exact Hd.
  - destruct (lookup 3 (caps s')) as [x|] eqn:E; [|reflexivity].
    destruct (caps_provenance true 3 x or_head s s' HM E) as [H | H]; [congruence|].
    apply Cap_groups in H. destruct H as (a & Hin & _).
    destruct Hin as [H | [H | []]]; discriminate.
Qed.

Lemma or_re1_match_at (pos : nat) (p : option char) (t : str) (m : mobj) :
  match_at true or_re1 pos (mkSt p t []) = Some m -> group m 3 = None.
Proof.
  unfold match_at. rewrite or_re1_run. intros H.
  apply run_sound in H. destruct H as (s6 & HM & H).
  destruct (or_head_stop _ _ HM eq_refl) as [Hw Hc].
  destruct (at_boundary s6) eqn:Hb; [|discriminate].
  rewrite (or_tail_run mobj s6
             (fun s' => Some (mkM pos (consumed (mkSt p t []) s') s' (caps s')))
             _ Hw Hb eq_refl) in H.
  injection H as <-. exact Hc.
Qed.

(** X4: the pattern of line 301 never fills its third group: the gap before
    the p-value is lazy and the p-value is optional, so the match stops
    right after the odds ratio, where the word boundary leaves no room
    for the letter P. *)
Theorem loose_pattern_reads_no_p_value (text : str) :
  Forall (fun m => group m 3 = None) (finditer true or_re1 text).
Proof.
  apply Forall_forall. intros m H. apply finditer_from_at in H.
  destruct H as (pos & p & t & H). exact (or_re1_match_at pos p t m H).
Qed.

(** X5: a retained entry without rsID has no p-value: only the parenthetical
    pattern of line 304 reads p-values, and it requires an rsID. *)
Theorem entry_without_rsid_has_no_p_value (text : str) :
  Forall (fun e => o_rsid e = None -> o_P e = None) (extract_or_pvals text).
Proof.
  apply Forall_forall. intros e H.
  apply extract_or_pvals_origin in H. destruct H as (m & -> & [H | H]); simpl.
  - intros _. apply finditer_from_at in H.
    destruct H as (pos & p & t & H). exact (or_re1_match_at pos p t m H).
  - intros Hr. destruct (finditer_sets true or_re2 text m 1 H eq_refl) as (x & Hx). congruence.
Qed.

(** ** The permission gate (app.py, lines 50-87) *)

(** A search for a pattern that only reads finds it exactly when the text
    holds a string of the pattern's form. *)
Lemma search_Reads (ci : bool) (r : re) (P : str -> Prop) (text : str) :
  Reads ci r P ->
  (found (search ci r text) = true <-> exists a w b, text = a ++ w ++ b /\ P w).
Proof.
  intros Hr. rewrite found_search. split.
  - intros (a & b & s' & Ht & HM). apply Hr in HM. destruct HM as (w & [[Hrest _] _] & Pw).
    exists a, w, (rest s'). simpl in Hrest. rewrite <- Hrest. auto.
  - intros (a & w & b & Ht & Pw). exists a, (w ++ b), (advance (at_split a (w ++ b)) w b).
    split; [exact Ht|]. apply Hr. exists w. split; [|exact Pw].
    apply reads_advance. reflexivity.
Qed.

Lemma space_mem_ci (c : char) : cls_mem true false [ISpace] c = true <-> is_space c = true.
Proof. unfold cls_mem. simpl. rewrite orb_false_r. reflexivity. Qed.

Lemma Reads_spaces_ci : Reads true (star space) (Forall (fun c => is_space c = true)).
Proof.
  eapply Reads_weaken; [|apply Reads_rep_cls]. intros w. unfold upto.
  rewrite (Forall_iff _ _ w space_mem_ci). split; [intros (? & _) | intros ?; repeat split]; auto; lia.
Qed.

Lemma Reads_status_on :
  Reads true status_on_re
    (fun w => exists w1 sp w2, w = w1 ++ sp ++ w2
                /\ Forall2 same_letter w1 (py "Status:")
                /\ Forall (fun c => is_space c = true) sp
                /\ Forall2 same_letter w2 (py "ON")).
Proof.
  eapply Reads_weaken;
    [|apply Reads_seq; [apply Reads_lits | apply Reads_seq; [apply Reads_spaces_ci | apply Reads_lits]]].
  intros w. split.
  - intros (w1 & w' & -> & H1 & sp & w2 & -> & Hs & H2).
    exists w1, sp, w2. rewrite Forall2_ci in H1, H2. auto.
  - intros (w1 & sp & w2 & -> & H1 & Hs & H2).
    exists w1, (sp ++ w2). rewrite <- Forall2_ci in H1, H2.
    split; [reflexivity|]. split; [exact H1|]. exists sp, w2. auto.
Qed.

Lemma status_on_found (content : str) :
  found (search true status_on_re content) = true <-> StatusOn content.
Proof.
  assert (A1 : Forall (fun l => (l < 128)%N) (py "Status:")) by (repeat constructor).
  assert (A2 : Forall (fun l => (l < 128)%N) (py "ON")) by (repeat constructor).
  rewrite (search_Reads true status_on_re _ content Reads_status_on). unfold StatusOn. split.
  - intros (a & w & b & -> & w1 & sp & w2 & -> & H1 & Hs & H2). exists a, w1, sp, w2, b.
    apply (spells_ci _ _ A1) in H1. apply (spells_ci _ _ A2) in H2.
    split; [|auto]. rewrite <- !app_assoc. reflexivity.
  - intros (a & w1 & sp & w2 & b & -> & H1 & Hs & H2). exists a, (w1 ++ sp ++ w2), b.
    apply (spells_ci _ _ A1) in H1. apply (spells_ci _ _ A2) in H2.
    split; [rewrite <- !app_assoc; reflexivity|]. exists w1, sp, w2. auto.
Qed.

(** X6: with a response within U+0000..U+00FF, the application is enabled
    exactly when the connection test passes, the README request succeeds
    and the stripped page holds [Status:], blanks and [ON], each letter
    in either case, anywhere; a page that also says that the status is
    off is enabled all the same. *)
Theorem application_enabled_iff (internet : bool) (response : result str)
    (L : Latin1Response response) :
  fst (check_application_status internet response) = true
  <-> internet = true /\ exists text, response = Ok text /\ StatusOn (strip text).
Proof.
  unfold check_application_status. destruct internet; simpl.
  - destruct response as [text | e].
    + pose proof (status_on_found (strip text)) as Hs.
      destruct (found (search true status_on_re (strip text))) eqn:E; simpl.
      * split; [intros _ | reflexivity]. split; [reflexivity|]. exists text.
        split; [reflexivity | apply Hs; reflexivity].
      * split.
        -- destruct (found (search true status_off_re (strip text))); discriminate.
        -- intros (_ & t & Ht & H). injection Ht as <-. apply Hs in H. discriminate.
    + split; [discriminate|]. intros (_ & t & Ht & _). discriminate.
  - split; [discriminate|]. intros [H _]. discriminate.
Qed.

Lemma application_enabled_iff_witness :
  Latin1Response (Ok (py "status: on, Status: OFF"))
  /\ fst (check_application_status true (Ok (py "status: on, Status: OFF"))) = true
  /\ StatusOn (strip (py "status: on, Status: OFF")).
Proof.
  assert (L : Latin1Response (Ok (py "status: on, Status: OFF"))) by (apply Latin1_py).
  split; [exact L|]. split; [vm_compute; reflexivity|].
  destruct (application_enabled_iff true (Ok (py "status: on, Status: OFF")) L) as [Hon _].
  destruct (Hon eq_refl) as (_ & text & E & Hs). injection E as <-. exact Hs.
Defined.

(** X7: whenever the check refuses, the status it returns is one for which
    [show_permission_dialog] puts up a dialog, and when it grants no
    dialog would be shown: no refusal is silent. *)
Theorem dialog_shown_iff_refused (internet : bool) (response : result str) :
  fst (show_permission_dialog (snd (check_application_status internet response))) = None
  <-> fst (check_application_status internet response) = true.
Proof.
  unfold check_application_status. destruct internet; simpl.
  - destruct response as [text | e].
    + destruct (found (search true status_on_re (strip text))); simpl.
      * split; reflexivity.
      * destruct (found (search true status_off_re (strip text))); simpl; split; discriminate.
    + simpl. split; discriminate.
  - split; discriminate.
Qed.

(** ** The genotyping method (app.py, lines 274-279) *)

Lemma method_scan_first (text : str) (table : list str) :
  (exists k, FirstIn (fun k => Occurs (lower k) (lower text)) table k
             /\ method_scan table text = k)
  \/ ((forall k, In k table -> ~ Occurs (lower k) (lower text)) /\ method_scan table text = []).
Proof.
  induction table as [|k table IH]; simpl.
  - right. split; [intros e [] | reflexivity].
  - destruct (contains (lower text) (lower k)) eqn:E.
    + left. exists k. split; [|reflexivity]. exists [], table.
      split; [reflexivity|]. split; [apply contains_Occurs; exact E | intros y []].
    + assert (Hk : ~ Occurs (lower k) (lower text)).
      { intros H. apply contains_Occurs in H. congruence. }
      destruct IH as [(x & (pre & post & -> & Hx & Hpre) & Hs) | [Hn Hs]].
      * left. exists x. split; [|exact Hs]. exists (k :: pre), post.
        split; [reflexivity|]. split; [exact Hx|].
        intros y [<- | Hy]; [exact Hk | apply Hpre; exact Hy].
      * right. split; [|exact Hs]. intros y [<- | Hy]; [exact Hk | apply Hn; exact Hy].
Qed.

Lemma Occurs_nil (k : str) : Occurs k [] -> k = [].
Proof.
  intros (a & b & H). symmetry in H. apply app_eq_nil in H. destruct H as [_ H].
  apply app_eq_nil in H. tauto.
Qed.

(** X8: the genotyping method is the first keyword of the table, in table
    order, that occurs in the text when both are lowered, wherever in the
    text the keywords stand; without any it is the empty string. *)
Theorem genotyping_first_keyword_wins (text : str) :
  (exists k, FirstIn (fun k => Occurs (lower k) (lower text)) GENOTYPE_KEYWORDS k
             /\ find_genotyping_method text = k)
  \/ ((forall k, In k GENOTYPE_KEYWORDS -> ~ Occurs (lower k) (lower text))
      /\ find_genotyping_method text = []).
Proof.
  destruct text as [|c text]; [|exact (method_scan_first (c :: text) GENOTYPE_KEYWORDS)].
  right. split; [|reflexivity]. intros k Hk H. apply Occurs_nil in H.
  vm_compute in Hk.
  repeat (destruct Hk as [<- | Hk]; [discriminate|]). exact Hk.
Qed.

Lemma Occurs_prefix (k x t : str) : Occurs (k ++ x) t -> Occurs k t.
Proof.
  intros (a & b & ->). exists a, (x ++ b). rewrite <- app_assoc. reflexivity.
Qed.

Lemma method_scan_in (text : str) (table : list str) :
  method_scan table text = [] \/ In (method_scan table text) table.
Proof.
  induction table as [|k table IH]; simpl; [auto|].
  destruct (contains (lower text) (lower k)); [auto|]. destruct IH; auto.
Qed.

(** X9: two entries of the keyword table are never returned: [massarray]
    and [MassARRAY genotyping] are found only in texts in which the first
    entry, [MassARRAY], is found before them. *)
Theorem massarray_entries_unreachable (text : str) :
  find_genotyping_method text <> py "massarray"
  /\ find_genotyping_method text <> py "MassARRAY genotyping".
Proof.
  unfold find_genotyping_method. destruct text as [|c text]; [split; discriminate|].
  set (t := c :: text).
  change (method_scan GENOTYPE_KEYWORDS t)
    with (if contains (lower t) (py "massarray") then py "MassARRAY"
          else if contains (lower t) (py "massarray") then py "massarray"
          else if contains (lower t) (py "massarray" ++ py " genotyping")
               then py "MassARRAY genotyping"
          else method_scan (List.map py ["whole exome sequencing"; "WES"; "PCR"; "TaqMan";
                                         "microarray"; "sequencing"; "Sanger";
                                         "genotyping"]%string) t).
  destruct (contains (lower t) (py "massarray")) eqn:E1; [split; discriminate|].
  destruct (contains (lower t) (py "massarray" ++ py " genotyping")) eqn:E2.
  - apply contains_Occurs, Occurs_prefix, contains_Occurs in E2. congruence.
  - match goal with |- context [method_scan ?tb t] =>
      destruct (method_scan_in t tb) as [H | H]; revert H;
      generalize (method_scan tb t)
    end; intros r H.
    + rewrite H. split; discriminate.
    + vm_compute in H.
      repeat (destruct H as [H | H]; [rewrite <- H; split; discriminate|]). contradiction.
Qed.

(** ** Letter case (app.py, lines 175-189 and 274-279) *)

Lemma same_case_lower (t1 t2 : str) : Forall2 same_letter t1 t2 -> lower t1 = lower t2.
Proof.
  induction 1 as [|c1 c2 t1 t2 Hc _ IH]; [reflexivity|].
  unfold lower in *. simpl. rewrite Hc, IH. reflexivity.
Qed.

Lemma same_letter_word (c1 c2 : char) : same_letter c1 c2 -> is_word c1 = is_word c2.
Proof.
  unfold same_letter. intros H. rewrite <- (is_word_lower c1), H. apply is_word_lower.
Qed.

Lemma same_case_after (a1 a2 : str) : Forall2 same_letter a1 a2 ->
  forall p1 p2, word_opt p1 = word_opt p2 -> word_opt (after p1 a1) = word_opt (after p2 a2).
Proof.
  induction 1 as [|c1 c2 a1 a2 Hc _ IH]; intros p1 p2 Hp; simpl; [exact Hp|].
  apply IH. simpl. apply same_letter_word. exact Hc.
Qed.

Lemma same_case_head (b1 b2 : str) : Forall2 same_letter b1 b2 ->
  word_opt (hd_error b1) = word_opt (hd_error b2).
Proof. intros [|c1 c2 ? ? Hc _]; simpl; [reflexivity | apply same_letter_word; exact Hc]. Qed.

Lemma same_case_boundary (a1 a2 b1 b2 : str) :
  Forall2 same_letter a1 a2 -> Forall2 same_letter b1 b2 ->
  at_boundary (at_split a1 b1) = at_boundary (at_split a2 b2).
Proof.
  intros Ha Hb. unfold at_boundary, at_split. simpl.
  rewrite (same_case_after a1 a2 Ha None None eq_refl), (same_case_head b1 b2 Hb). reflexivity.
Qed.

Lemma same_case_trans (w1 w2 r : str) :
  Forall2 same_letter w1 w2 -> Forall2 same_letter w1 r -> Forall2 same_letter w2 r.
Proof.
  intros H. revert r. induction H as [|c1 c2 w1 w2 Hc _ IH]; intros r Hr; inversion Hr; subst.
  - constructor.
  - constructor; [unfold same_letter in *; congruence | apply IH; assumption].
Qed.

Lemma same_case_WholeWord (r t1 t2 : str) :
  Forall2 same_letter t1 t2 -> WholeWord r t1 -> WholeWord r t2.
Proof.
  intros H (a & w & b & -> & Hw & B1 & B2).
  apply Forall2_app_inv_l in H. destruct H as (a' & x & Ha & H & ->).
  apply Forall2_app_inv_l in H. destruct H as (w' & b' & Hw' & Hb & ->).
  exists a', w', b'. split; [reflexivity|].
  split; [exact (same_case_trans w w' r Hw' Hw)|].
  split.
  - rewrite <- B1. symmetry. apply same_case_boundary; [exact Ha|].
    apply Forall2_app; assumption.
  - rewrite <- B2. symmetry. apply same_case_boundary; [|exact Hb].
    apply Forall2_app; assumption.
Qed.

Lemma same_case_sym (t1 t2 : str) : Forall2 same_letter t1 t2 -> Forall2 same_letter t2 t1.
Proof.
  induction 1; constructor; [unfold same_letter in *; congruence | assumption].
Qed.

Lemma method_scan_lower (t1 t2 : str) (table : list str) :
  lower t1 = lower t2 -> method_scan table t1 = method_scan table t2.
Proof.
  intros Hl. induction table as [|k tl IH]; simpl; [reflexivity|].
  rewrite Hl, IH. reflexivity.
Qed.

Lemma case_pair_letter (c d : char) : CasePair c d <-> same_letter c d.
Proof.
  unfold CasePair, capital, same_letter, lower_char.
  destruct (between 65 90 c) eqn:C1; destruct (between 192 222 c) eqn:C2;
    destruct (N.eqb c 215) eqn:C3; destruct (between 65 90 d) eqn:D1;
    destruct (between 192 222 d) eqn:D2; destruct (N.eqb d 215) eqn:D3;
    cbn [andb negb];
    repeat match goal with
           | H : between _ _ _ = true |- _ => apply between_iff in H
           | H : between _ _ _ = false |- _ =>
               rewrite <- Bool.not_true_iff_false, between_iff in H
           | H : N.eqb _ _ = true |- _ => apply N.eqb_eq in H
           | H : N.eqb _ _ = false |- _ => apply N.eqb_neq in H
           end; lia.
Qed.

Lemma case_pair_text (t1 t2 : str) : Forall2 CasePair t1 t2 <-> Forall2 same_letter t1 t2.
Proof.
  split; induction 1; constructor; auto; apply case_pair_letter; assumption.
Qed.

(** X10: two texts within U+0000..U+00FF that differ only in the case of
    their letters give the same study design, the same region and the
    same genotyping method. *)
Theorem letter_case_is_ignored (t1 t2 : str) (H1 : Latin1 t1) (H2 : Latin1 t2)
    (H : Forall2 CasePair t1 t2) :
  find_study_design t1 = find_study_design t2
  /\ find_region t1 = find_region t2
  /\ find_genotyping_method t1 = find_genotyping_method t2.
Proof.
  apply case_pair_text in H. pose proof (same_case_lower t1 t2 H) as Hl.
  split; [|split].
  - rewrite !find_study_design_scan, Hl. reflexivity.
  - rewrite !find_region_scan. apply region_scan_ext. intros r _. split.
    + apply same_case_WholeWord. exact H.
    + apply same_case_WholeWord. apply same_case_sym. exact H.
  - unfold find_genotyping_method. destruct H as [|c1 c2 u1 u2 Hc Hu]; [reflexivity|].
    apply method_scan_lower. exact Hl.
Qed.

Lemma letter_case_is_ignored_witness :
  Latin1 (py "A COHORT in punjab by pcr") /\ Latin1 (py "a cohort in Punjab by PCR")
  /\ Forall2 CasePair (py "A COHORT in punjab by pcr") (py "a cohort in Punjab by PCR")
  /\ find_study_design (py "A COHORT in punjab by pcr") = py "Cohort"
  /\ find_region (py "A COHORT in punjab by pcr") = py "Punjab"
  /\ find_genotyping_method (py "A COHORT in punjab by pcr") = py "PCR".
Proof.
  assert (H : Forall2 CasePair (py "A COHORT in punjab by pcr") (py "a cohort in Punjab by PCR")).
  { repeat (constructor; [unfold CasePair, capital; simpl; lia|]). constructor. }
  split; [apply Latin1_py|]. split; [apply Latin1_py|]. split; [exact H|].
  destruct (letter_case_is_ignored _ _ (Latin1_py _) (Latin1_py _) H) as (E1 & E2 & E3).
  rewrite E1, E2, E3. repeat split; vm_compute; reflexivity.
Defined.

(** ** [str.strip] *)

Lemma lstrip_last (w : str) (c : char) :
  is_space c = false -> exists w', lstrip (w ++ [c]) = w' ++ [c].
Proof.
  intros Hc. induction w as [|d w IH]; simpl.
  - rewrite Hc. exists []. reflexivity.
  - destruct (is_space d); [exact IH | exists (d :: w); reflexivity].
Qed.

Lemma rstrip_last (w : str) (c : char) : is_space c = false -> rstrip (w ++ [c]) = w ++ [c].
Proof.
  intros Hc. unfold rstrip. rewrite rev_app_distr. simpl. rewrite Hc.
  change (c :: rev w) with ([c] ++ rev w). rewrite rev_app_distr, rev_involutive. reflexivity.
Qed.

(** Stripping keeps a last character that is not a blank. *)
Lemma strip_last (w : str) (c : char) :
  is_space c = false -> exists w', strip (w ++ [c]) = w' ++ [c].
Proof.
  intros Hc. unfold strip. destruct (lstrip_last w c Hc) as (w' & ->).
  exists w'. apply rstrip_last. exact Hc.
Qed.

Lemma lstrip_id (s : str) : Forall (fun c => is_space c = false) s -> lstrip s = s.
Proof. intros [|c t Hc _]; simpl; [reflexivity | rewrite Hc; reflexivity]. Qed.

(** Stripping leaves a string without blanks as it is. *)
Lemma strip_id (s : str) : Forall (fun c => is_space c = false) s -> strip s = s.
Proof.
  intros H. unfold strip, rstrip. rewrite (lstrip_id s H), lstrip_id.
  - apply rev_involutive.
  - apply Forall_rev. exact H.
Qed.

(** ** Ranges under [re.I] *)

Lemma range_from_In (x : char) (n : nat) : forall lo,
  In x (range_from lo n) <-> (lo <= x < lo + N.of_nat n)%N.
Proof.
  induction n as [|n IH]; intros lo; cbn [range_from In].
  - lia.
  - rewrite IH. lia.
Qed.

Lemma range_In (x lo hi : char) : In x (range lo hi) <-> (lo <= x <= hi)%N.
Proof. unfold range. rewrite range_from_In. lia. Qed.

Lemma gene_char_iff (c : char) :
  gene_char c = true <->
  ((48 <= c <= 57) \/ (65 <= c <= 90) \/ (97 <= c <= 122) \/ c = 45 \/ c = 95)%N.
Proof.
  unfold gene_char. rewrite !orb_true_iff, !between_iff, !N.eqb_eq. tauto.
Qed.

(** A character whose lowered form is the lowered form of a gene
    character is a gene character. *)
Lemma gene_char_ci (c x : char) :
  gene_char x = true -> lower_char c = lower_char x -> gene_char c = true.
Proof.
  rewrite !gene_char_iff. intros Hx E.
  destruct (lower_char_cases c) as [Ec | [Ec Hc]]; rewrite Ec in E.
  - destruct Hx as [Hx | [Hx | Hx]].
    + rewrite lower_char_small in E by lia. lia.
    + rewrite lower_char_upper in E by lia. lia.
    + rewrite lower_char_small in E by lia. lia.
  - destruct Hx as [Hx | [Hx | Hx]].
    + rewrite lower_char_small in E by lia. lia.
    + rewrite lower_char_upper in E by lia. lia.
    + rewrite lower_char_small in E by lia. lia.
Qed.

Lemma gene_item (ci : bool) (c : char) (i : item) :
  In i gene_chars -> item_mem ci c i = true -> gene_char c = true.
Proof.
  assert (R : forall lo hi, (forall x, (lo <= x <= hi)%N -> gene_char x = true) ->
                            item_mem ci c (IRange lo hi) = true -> gene_char c = true).
  { intros lo hi Hr. destruct ci; cbn [item_mem].
    - rewrite existsb_exists. intros (x & Hx & E). apply range_In in Hx.
      apply N.eqb_eq in E. exact (gene_char_ci c x (Hr x Hx) E).
    - intros H. apply between_iff in H. apply Hr. exact H. }
  assert (L : forall l, gene_char l = true -> item_mem ci c (ILit l) = true -> gene_char c = true).
  { intros l Hl. destruct ci; cbn [item_mem]; intros E; apply N.eqb_eq in E.
    - exact (gene_char_ci c l Hl E).
    - subst c. exact Hl. }
  intros [<- | [<- | [<- | [<- | [<- | []]]]]].
  - apply R. intros x Hx. apply gene_char_iff. simpl in Hx. lia.
  - apply R. intros x Hx. apply gene_char_iff. simpl in Hx. lia.
  - apply R. intros x Hx. apply gene_char_iff. simpl in Hx. lia.
  - apply L. reflexivity.
  - apply L. reflexivity.
Qed.

Lemma gene_class (ci : bool) (c : char) :
  cls_mem ci false gene_chars c = true -> gene_char c = true.
Proof.
  unfold cls_mem. cbn [xorb]. rewrite existsb_exists.
  intros (i & Hi & H). exact (gene_item ci c i Hi H).
Qed.

Lemma upper_class (c : char) :
  cls_mem false false [rg "A" "Z"; rg "0" "9"] c = true -> gene_char c = true.
Proof.
  unfold cls_mem. cbn [xorb]. rewrite existsb_exists.
  intros (i & Hi & H). apply (gene_item false c i); [|exact H].
  destruct Hi as [<- | [<- | []]]; simpl; auto.
Qed.

Lemma gene_char_no_space (c : char) : gene_char c = true -> is_space c = false.
Proof.
  rewrite gene_char_iff. intros H. unfold is_space.
  rewrite !orb_false_iff, !between_false, !N.eqb_neq. lia.
Qed.

(** ** What the gene patterns capture (app.py, lines 238-266) *)

Lemma pat1_groups (rsi : str) :
  groups_of (pat1 rsi)
  = [(1, plus (Cls false gene_chars));
     (2, cat [lits rsi; star (Cls true (set ")")); ch ")"])].
Proof.
  unfold pat1. rewrite !groups_of_cat_cons. simpl. rewrite groups_of_lits. reflexivity.
Qed.

Lemma pat2_groups (rsi : str) : groups_of (pat2 rsi) = [(1, plus (Cls false gene_chars))].
Proof.
  unfold pat2. rewrite !groups_of_cat_cons, groups_of_lits. reflexivity.
Qed.

Lemma pat3_groups (rsi : str) :
  groups_of (pat3 rsi) = [(1, rep (Cls false [rg "A" "Z"; rg "0" "9"]) 2 15)].
Proof.
  unfold pat3. rewrite !groups_of_cat_cons. cbn [cat]. rewrite groups_of_lits. reflexivity.
Qed.

Lemma always_sets_cat_cons (r : re) (l : list re) (n : nat) :
  always_sets (cat l) n = true -> always_sets (cat (r :: l)) n = true.
Proof.
  destruct l as [|y l]; [discriminate|]. intros H. cbn [cat always_sets] in *.
  rewrite H. apply orb_true_r.
Qed.

Lemma pat2_sets (rsi : str) : always_sets (pat2 rsi) 1 = true.
Proof. unfold pat2. do 4 apply always_sets_cat_cons. reflexivity. Qed.

(** A run of gene characters, stripped, is itself. *)
Lemma gene_run (ci : bool) (items : list item) (lo : nat) (hi : option nat) (x : str) :
  (forall c, cls_mem ci false items c = true -> gene_char c = true) ->
  1 <= lo ->
  (exists s s', M ci (Rep (Cls false items) lo hi true) s s' /\ consumed s s' = x) ->
  strip x <> [] /\ Forall (fun c => gene_char c = true) (strip x).
Proof.
  intros Hcls Hlo H.
  apply (Cap_reads ci _ _ x (Reads_rep_cls ci false items lo hi true)) in H.
  destruct H as (F & L & _).
  assert (G : Forall (fun c => gene_char c = true) x).
  { eapply Forall_impl; [|exact F]. exact Hcls. }
  rewrite strip_id.
  - split; [|exact G]. intros ->. simpl in L. lia.
  - eapply Forall_impl; [|exact G]. exact gene_char_no_space.
Qed.

Lemma search_first_group (ci : bool) (r a : re) (text : str) (m : mobj) :
  groups_of r = [(1, a)] \/ (exists b, groups_of r = [(1, a); (2, b)]) ->
  always_sets r 1 = true ->
  search ci r text = Some m ->
  exists s s', M ci a s s' /\ consumed s s' = grp m 1.
Proof.
  intros Hg Hs Hm. destruct (search_sets ci r text m 1 Hm Hs) as (x & Hx).
  rewrite (grp_group m 1 x Hx).
  pose proof (search_group ci r text m 1 x Hm Hx) as Hc.
  apply Cap_groups in Hc. destruct Hc as (c & Hin & Hc).
  destruct Hg as [Hg | (b & Hg)]; rewrite Hg in Hin.
  - destruct Hin as [E | []]. injection E as <-. exact Hc.
  - destruct Hin as [E | [E | []]]; [|discriminate]. injection E as <-. exact Hc.
Qed.

(** X11: in a text within U+0000..U+00FF, a gene name, when one is found for
    an rsID, is not empty and holds only ASCII letters, digits, hyphens
    and underscores: it never has a blank, a parenthesis or a comma in
    it. *)
Theorem gene_names_are_tokens (text rsi g : str) (L : Latin1 text) :
  gene (associate text rsi) = Some g ->
  g <> [] /\ Forall (fun c => gene_char c = true) g.
Proof.
  unfold associate.
  destruct (search true (pat1 rsi) text) as [m1|] eqn:H1.
  { cbn [gene]. intros E. injection E as <-.
    apply (gene_run true gene_chars 1 None); [apply gene_class | lia |].
    apply (search_first_group true (pat1 rsi) _ text m1); [|reflexivity | exact H1].
    right. eexists. apply pat1_groups. }
  destruct (search false (pat2 rsi) text) as [m2|] eqn:H2.
  { cbn [gene]. intros E. injection E as <-.
    apply (gene_run false gene_chars 1 None); [apply gene_class | lia |].
    apply (search_first_group false (pat2 rsi) _ text m2); [|apply pat2_sets | exact H2].
    left. apply pat2_groups. }
  destruct (search false (pat3 rsi) text) as [m3|] eqn:H3; [|discriminate].
  cbn [gene]. intros E. injection E as <-.
  apply (gene_run false [rg "A" "Z"; rg "0" "9"] 2 (Some 15)); [apply upper_class | lia |].
  apply (search_first_group false (pat3 rsi) _ text m3); [|reflexivity | exact H3].
  left. apply pat3_groups.
Qed.

Lemma gene_names_are_tokens_witness :
  Latin1 (py "PPARG (rs1801282 (Pro12Ala))")
  /\ gene (associate (py "PPARG (rs1801282 (Pro12Ala))") (py "rs1801282")) = Some (py "PPARG")
  /\ py "PPARG" <> [] /\ Forall (fun c => gene_char c = true) (py "PPARG").
Proof.
  assert (H : gene (associate (py "PPARG (rs1801282 (Pro12Ala))") (py "rs1801282"))
              = Some (py "PPARG")) by (vm_compute; reflexivity).
  split; [apply Latin1_py|]. split; [exact H|].
  exact (gene_names_are_tokens _ _ _ (Latin1_py _) H).
Defined.

(** ** The annotation of an rsID (app.py, lines 240-248) *)

Lemma paren_ci (c : char) : lit_ok true c 41%N <-> c = 41%N.
Proof.
  rewrite lit_ok_ci. split; [|intros ->; reflexivity].
  lower_cases c; intros H; lia.
Qed.

Lemma pat1_sets (rsi : str) : always_sets (pat1 rsi) 2 = true.
Proof. unfold pat1. do 4 apply always_sets_cat_cons. reflexivity. Qed.

(** The second group of the first pattern ends with the closing parenthesis. *)
Lemma search_pat1_inner (text rsi : str) (m : mobj) :
  search true (pat1 rsi) text = Some m -> exists w, grp m 2 = w ++ [41%N].
Proof.
  intros Hm. destruct (search_sets true (pat1 rsi) text m 2 Hm (pat1_sets rsi)) as (x & Hx).
  rewrite (grp_group m 2 x Hx).
  pose proof (search_group true (pat1 rsi) text m 2 x Hm Hx) as Hc.
  apply Cap_groups in Hc. destruct Hc as (a & Hin & Hc). rewrite pat1_groups in Hin.
  destruct Hin as [E | [E | []]]; [discriminate|]. injection E as <-.
  apply (Cap_reads true _ _ x
           (Reads_seq true _ _ _ _ (Reads_lits true rsi)
              (Reads_seq true _ _ _ _
                 (Reads_rep_cls true true (set ")") 0 None true)
                 (Reads_cls true false [ILit 41%N])))) in Hc.
  destruct Hc as (w1 & w2 & -> & _ & w3 & w4 & -> & _ & c & -> & Hc).
  apply (paren_ci c) in Hc. subst c.
  exists (w1 ++ w3). rewrite <- app_assoc. reflexivity.
Qed.

Lemma RsidShape_no_paren (rsi : str) : RsidShape rsi -> ~ In 41%N rsi.
Proof.
  intros (c1 & c2 & ds & -> & H1 & H2 & _ & F) [H | [H | H]].
  - destruct H1; subst; discriminate.
  - destruct H2; subst; discriminate.
  - rewrite Forall_forall in F. apply F in H. discriminate.
Qed.

Lemma skipn_prefix (p b : str) : skipn (length p) (p ++ b) = b.
Proof. induction p; simpl; auto. Qed.

(** X12: for an rsID associated through the first pattern the annotation is
    never empty: it ends with the closing parenthesis that the pattern
    reads with the rsID.  For every other rsID the annotation is empty. *)
Theorem annotation_ends_with_parenthesis (text rsi : str) :
  RsidShape rsi ->
  match search true (pat1 rsi) text with
  | Some _ => exists w, annot (associate text rsi) = w ++ py ")"
  | None => annot (associate text rsi) = []
  end.
Proof.
  intros Hshape. unfold associate.
  destruct (search true (pat1 rsi) text) as [m1|] eqn:H1.
  - cbn [annot]. destruct (search_pat1_inner text rsi m1 H1) as (w & ->).
    destruct (strip_last w 41%N eq_refl) as (w' & ->).
    destruct (startswith (w' ++ [41%N]) rsi) eqn:E; [|exists w'; reflexivity].
    apply startswith_iff in E. destruct E as (b & E). rewrite E, skipn_prefix.
    destruct (exists_last (l := b)) as (b' & c & ->).
    + intros ->. rewrite app_nil_r in E. apply (RsidShape_no_paren rsi Hshape).
      rewrite <- E. apply in_or_app. right. left. reflexivity.
    + rewrite app_assoc in E. apply app_inj_tail in E. destruct E as [_ <-].
      exact (strip_last b' 41%N eq_refl).
  - destruct (search false (pat2 rsi) text); [reflexivity|].
    destruct (search false (pat3 rsi) text); reflexivity.
Qed.

Lemma annotation_ends_with_parenthesis_witness :
  RsidShape (py "rs745975")
  /\ match search true (pat1 (py "rs745975")) (py "HNF4A (rs745975)") with
     | Some _ => exists w, annot (associate (py "HNF4A (rs745975)") (py "rs745975")) = w ++ py ")"
     | None => annot (associate (py "HNF4A (rs745975)") (py "rs745975")) = []
     end.
Proof.
  assert (H : RsidShape (py "rs745975")).
  { exists 114%N, 115%N, (py "745975"). split; [reflexivity|].
    split; [left; reflexivity|]. split; [left; reflexivity|].
    split; [simpl; lia | repeat constructor]. }
  split; [exact H|].
  exact (annotation_ends_with_parenthesis (py "HNF4A (rs745975)") (py "rs745975") H).
Defined.

(** ** The assembled row (app.py, lines 333-434) *)

Lemma design_scan_label (t : str) (table : list (str * list str)) :
  design_scan table t = [] \/ In (design_scan table t) (List.map fst table).
Proof.
  induction table as [|[label keys] table IH]; simpl; [auto|].
  destruct (existsb (contains t) keys); [auto|]. destruct IH; auto.
Qed.

Lemma find_study_design_label (text : str) :
  find_study_design text = [] \/ In (find_study_design text) (List.map fst STUDY_DESIGN_KEYWORDS).
Proof. rewrite find_study_design_scan. apply design_scan_label. Qed.

Lemma derive_comments (big : str) :
  d_comments (derive big)
  = if contains (lower (find_study_design big)) (py "case control")
    then CASE_CONTROL_REMARK else HEURISTIC_REMARK.
Proof.
  unfold derive. destruct (extract_rsids_and_genes_with_annotations big) as [[rsids gm] go].
  reflexivity.
Qed.

Lemma derive_study_design (big : str) : d_study_design (derive big) = find_study_design big.
Proof.
  unfold derive. destruct (extract_rsids_and_genes_with_annotations big) as [[rsids gm] go].
  reflexivity.
Qed.

(** X13: the remark is the case-control one exactly when the study design
    found is [Case control]; with any other design, or none, it is the
    remark on heuristic parsing. *)
Theorem remark_follows_study_design (big : str) :
  (d_study_design (derive big) = py "Case control"
   /\ d_comments (derive big) = CASE_CONTROL_REMARK)
  \/ (d_study_design (derive big) <> py "Case control"
      /\ d_comments (derive big) = HEURISTIC_REMARK).
Proof.
  rewrite derive_comments, derive_study_design.
  destruct (find_study_design_label big) as [H | H]; revert H;
    generalize (find_study_design big); intros sd H.
  - subst sd. right. split; [discriminate | reflexivity].
  - vm_compute in H.
    destruct H as [<- | H]; [left; split; reflexivity|].
    repeat (destruct H as [<- | H]; [right; split; [discriminate | reflexivity]|]).
    contradiction.
Qed.

(** ** Corpora without rsID *)

Lemma NoRsid_find_rsids (big : str) : NoRsid big -> find_rsids big = [].
Proof.
  intros H. rewrite find_rsids_hits.
  destruct (rsid_hits big) as [|[i x] l] eqn:E; [reflexivity|]. exfalso.
  destruct (rsid_hits_spec big i x) as [(a & b & Ht & _) Hs]; [rewrite E; left; reflexivity|].
  apply (H x Hs). exists a, b. exact Ht.
Qed.

Lemma derive_no_rsids (big : str) :
  find_rsids big = [] ->
  d_gene_cell (derive big) = [] /\ d_snp_list (derive big) = []
  /\ d_allele_cell (derive big) = []
  /\ d_assoc (derive big) = join newline (List.map (fun e => fst (fst (or_lines e))) (extract_or_pvals big))
  /\ d_pvalue (derive big) = join newline (List.map (fun e => snd (or_lines e)) (extract_or_pvals big)).
Proof.
  intros H. unfold derive, extract_rsids_and_genes_with_annotations.
  destruct big as [|c t].
  - repeat split; reflexivity.
  - rewrite H. cbn [annotate_loop Dict.sorted_by_value List.map].
    cbn [d_gene_cell d_snp_list d_allele_cell d_assoc d_pvalue].
    rewrite !map_map.
    destruct (extract_or_pvals (c :: t)); cbn [p_only_lines List.map]; rewrite ?app_nil_r;
      repeat split; reflexivity.
Qed.

(** X14: with nothing spelled like an rsID in a corpus within
    U+0000..U+00FF, the Gene cell, the SNP/Variant cell and the
    allele-frequency cell are empty, and the association and p-value
    cells hold the lines of the odds-ratio entries and nothing else. *)
Theorem no_rsid_empty_cells (big : str) (L : Latin1 big) :
  NoRsid big ->
  d_gene_cell (derive big) = [] /\ d_snp_list (derive big) = []
  /\ d_allele_cell (derive big) = []
  /\ d_assoc (derive big) = join newline (List.map (fun e => fst (fst (or_lines e))) (extract_or_pvals big))
  /\ d_pvalue (derive big) = join newline (List.map (fun e => snd (or_lines e)) (extract_or_pvals big)).
Proof. intros H. apply derive_no_rsids. apply NoRsid_find_rsids. exact H. Qed.

Lemma no_rsid_empty_cells_witness :
  Latin1 (py "odds of 2.5 in India")
  /\ NoRsid (py "odds of 2.5 in India")
  /\ d_gene_cell (derive (py "odds of 2.5 in India")) = []
  /\ d_snp_list (derive (py "odds of 2.5 in India")) = []
  /\ d_allele_cell (derive (py "odds of 2.5 in India")) = [].
Proof.
  assert (H : NoRsid (py "odds of 2.5 in India")).
  { intros x (c1 & c2 & ds & -> & H1 & H2 & _) (a & b & E).
    assert (Hin : In c1 (py "odds of 2.5 in India")).
    { rewrite E. apply in_or_app. right. left. reflexivity. }
    simpl in Hin. destruct H1; subst c1; intuition discriminate. }
  split; [apply Latin1_py|]. split; [exact H|].
  destruct (no_rsid_empty_cells _ (Latin1_py _) H) as (H1 & H2 & H3 & _). auto.
Defined.

(** ** Lines of the association cells (app.py, lines 350-361 and 421-423) *)

Lemma one_line_app (a b : str) : one_line (a ++ b) <-> one_line a /\ one_line b.
Proof. unfold one_line. rewrite in_app_iff. tauto. Qed.

Lemma one_line_chars (P : char -> Prop) (x : str) :
  (forall c, P c -> c <> 10%N) -> Forall P x -> one_line x.
Proof.
  intros HP F H. rewrite Forall_forall in F. exact (HP _ (F _ H) eq_refl).
Qed.

Lemma digit_not_break (c : char) : is_digit c = true -> c <> 10%N.
Proof. intros H ->. discriminate. Qed.

Lemma Digits_one_line (x : str) : Digits x -> one_line x.
Proof. apply one_line_chars. exact digit_not_break. Qed.

Lemma RsidShape_one_line (x : str) : RsidShape x -> one_line x.
Proof.
  intros (c1 & c2 & ds & -> & H1 & H2 & _ & F) [H | [H | H]].
  - destruct H1; subst; discriminate.
  - destruct H2; subst; discriminate.
  - exact (Digits_one_line ds F H).
Qed.

Lemma OrForm_one_line (x : str) : OrForm x -> one_line x.
Proof.
  intros (ip & ds & -> & Hi & Hd & _). apply one_line_app. split; [exact (Digits_one_line ip Hi)|].
  intros [H | H]; [discriminate | exact (Digits_one_line ds Hd H)].
Qed.

Lemma PChars_one_line (x : str) : PChars x -> one_line x.
Proof.
  intros [_ F]. apply (one_line_chars _ x) in F; [exact F|].
  intros c [H | [-> | ->]]; [exact (digit_not_break c H) | discriminate | discriminate].
Qed.

Lemma markers_one_line (m : str) : In m MARKERS -> one_line m.
Proof.
  intros [<- | [<- | [<- | [<- | []]]]]; unfold one_line; simpl; intuition discriminate.
Qed.

Lemma or_empty_one_line (P : str -> Prop) (o : option str) :
  (forall x, P x -> one_line x) -> (forall x, o = Some x -> P x) -> one_line (or_empty o).
Proof.
  intros HP Ho. destruct o as [x|]; simpl; [apply HP, Ho; reflexivity | intros []].
Qed.

Lemma or_lines_one_line (e : or_entry) :
  entry_formed e ->
  one_line (fst (fst (or_lines e))) /\ one_line (snd (fst (or_lines e)))
  /\ one_line (snd (or_lines e)).
Proof.
  intros He. destruct (or_lines_marker e He) as (marker & Hm & Heff).
  destruct He as ((x & Hx & Hf) & Hr & Hp).
  assert (Lr : one_line (or_empty (o_rsid e))) by exact (or_empty_one_line _ _ RsidShape_one_line Hr).
  assert (Lp : one_line (or_empty (o_P e))) by exact (or_empty_one_line _ _ PChars_one_line Hp).
  assert (Lo : one_line (or_empty (o_OR e))) by (rewrite Hx; exact (OrForm_one_line x Hf)).
  assert (Ll : one_line (or_label e)).
  { unfold or_label. destruct (or_empty (o_rsid e)) as [|c r]; [|exact Lr].
    apply one_line_app. split; [|exact Lo]. unfold one_line. simpl. intuition discriminate. }
  assert (La : one_line ARROW_SEP) by (unfold one_line; simpl; intuition discriminate).
  split; [|split].
  - change (fst (fst (or_lines e)))
      with (match or_empty (o_rsid e) with [] => py "OR:" ++ or_empty (o_OR e)
                                         | _ => or_empty (o_rsid e) end
            ++ py " (OR=" ++ or_empty (o_OR e) ++ py ") P=" ++ or_empty (o_P e)).
    assert (Ll' : one_line (match or_empty (o_rsid e) with
                            | [] => py "OR:" ++ or_empty (o_OR e)
                            | _ => or_empty (o_rsid e) end)).
    { unfold or_label in Ll. destruct (or_empty (o_rsid e)); exact Ll. }
    rewrite !one_line_app. repeat split; auto; unfold one_line; simpl; intuition discriminate.
  - rewrite Heff, !one_line_app. repeat split; auto. exact (markers_one_line marker Hm).
  - change (snd (or_lines e))
      with (match or_empty (o_rsid e) with [] => py "OR:" ++ or_empty (o_OR e)
                                         | _ => or_empty (o_rsid e) end
            ++ ARROW_SEP ++ or_empty (o_P e)).
    assert (Ll' : one_line (match or_empty (o_rsid e) with
                            | [] => py "OR:" ++ or_empty (o_OR e)
                            | _ => or_empty (o_rsid e) end)).
    { unfold or_label in Ll. destruct (or_empty (o_rsid e)); exact Ll. }
    rewrite !one_line_app. repeat split; auto.
Qed.

Lemma line_breaks_app (a b : str) : line_breaks (a ++ b) = line_breaks a + line_breaks b.
Proof. apply count_occ_app. Qed.

Lemma line_breaks_one_line (a : str) : one_line a -> line_breaks a = 0.
Proof. intros H. apply count_occ_not_In. exact H. Qed.

(** Joining lines without line break gives one break between two lines. *)
Lemma line_breaks_join (ls : list str) :
  Forall one_line ls -> line_breaks (join newline ls) = length ls - 1.
Proof.
  induction 1 as [|x ls Hx _ IH]; [reflexivity|].
  destruct ls as [|y ls].
  - simpl. apply line_breaks_one_line. exact Hx.
  - change (join newline (x :: y :: ls)) with (x ++ newline ++ join newline (y :: ls)).
    rewrite !line_breaks_app, IH, (line_breaks_one_line x Hx). simpl. lia.
Qed.

Lemma derive_or_cells (big : str) :
  d_effect (derive big)
  = join newline (List.map (fun e => snd (fst (or_lines e))) (extract_or_pvals big))
  /\ (extract_or_pvals big <> [] ->
      d_assoc (derive big)
      = join newline (List.map (fun e => fst (fst (or_lines e))) (extract_or_pvals big))
      /\ d_pvalue (derive big)
         = join newline (List.map (fun e => snd (or_lines e)) (extract_or_pvals big))).
Proof.
  unfold derive. destruct (extract_rsids_and_genes_with_annotations big) as [[rsids gm] go].
  cbn [d_effect d_assoc d_pvalue]. rewrite !map_map. split; [reflexivity|].
  intros Hne. destruct (extract_or_pvals big); [contradiction|].
  cbn [List.map]. rewrite !app_nil_r. split; reflexivity.
Qed.

(** X15: the effect cell has one line per retained odds-ratio entry, and so
    have the association cell and the p-value cell when there is an
    entry: no line holds a line break, so that the lines of the three
    cells correspond one to one. *)
Theorem association_cells_line_up (big : str) :
  line_breaks (d_effect (derive big)) = length (extract_or_pvals big) - 1
  /\ (extract_or_pvals big <> [] ->
      line_breaks (d_assoc (derive big)) = length (extract_or_pvals big) - 1
      /\ line_breaks (d_pvalue (derive big)) = length (extract_or_pvals big) - 1).
Proof.
  destruct (derive_or_cells big) as [He Hap].
  assert (F : forall f : or_entry -> str,
            (forall e, entry_formed e -> one_line (f e)) ->
            line_breaks (join newline (List.map f (extract_or_pvals big)))
            = length (extract_or_pvals big) - 1).
  { intros f Hf. rewrite line_breaks_join, length_map; [reflexivity|].
    apply Forall_forall. intros l Hl. apply in_map_iff in Hl. destruct Hl as (e & <- & Hin).
    apply Hf. exact (extract_or_pvals_formed big e Hin). }
  split.
  - rewrite He. apply F. intros e H. apply (or_lines_one_line e H).
  - intros Hne. destruct (Hap Hne) as [-> ->]. split; apply F; intros e H; apply (or_lines_one_line e H).
Qed.

(** ** The columns of the row (app.py, lines 414-442) *)

Lemma parse_article_columns (unescape : str -> str) (soup : Page) (r : row) :
  parse_article unescape soup = Ok r -> List.map fst r = DEFAULT_COLS.
Proof.
  unfold parse_article. destruct (extract_basic_metadata unescape soup) as [meta|e]; [|discriminate].
  cbn [bind]. intros H. injection H as <-. reflexivity.
Qed.

(** X16: a row has exactly the eighteen columns of [DEFAULT_COLS], in that
    order: the table built from it leaves no column without a value. *)
Theorem row_has_the_default_columns (unescape : str -> str) (soup : Page) (r : row) :
  parse_article unescape soup = Ok r ->
  List.map fst r = DEFAULT_COLS /\ NoDup (List.map fst r).
Proof.
  intros H. rewrite (parse_article_columns unescape soup r H). split; [reflexivity|].
  unfold DEFAULT_COLS. cbn [List.map].
  repeat (constructor; [intros Hin; repeat (destruct Hin as [Hin | Hin]; [discriminate|]); exact Hin|]).
  constructor.
Qed.

Lemma row_has_the_default_columns_witness :
  exists r, parse_article (fun s => s) (text_page (py "n=450 in Punjab")) = Ok r
            /\ List.map fst r = DEFAULT_COLS /\ NoDup (List.map fst r).
Proof.
  assert (H : {r | parse_article (fun s => s) (text_page (py "n=450 in Punjab")) = Ok r}).
  { eexists. vm_compute. reflexivity. }
  destruct H as [r H]. exists r. split; [exact H|].
  exact (row_has_the_default_columns (fun s => s) (text_page (py "n=450 in Punjab")) r H).
Defined.

(** ** Runs of digits *)

Lemma digit_run (lo hi : nat) (x : str) :
  lo <= hi ->
  (exists s s', M false (rep digit lo hi) s s' /\ consumed s s' = x) -> DigitRun lo hi x.
Proof.
  intros Hle H.
  apply (Cap_reads false _ _ x (Reads_rep_cls false false [IDigit] lo (Some hi) true)) in H.
  destruct H as (F & L & U). unfold upto in U. split; [lia|].
  eapply Forall_impl; [|exact F]. intros c. apply digit_mem.
Qed.

Lemma int_of_digits_range (x : str) : Digits x -> forall acc : Z,
  (0 <= acc)%Z ->
  (acc * 10 ^ Z.of_nat (length x)
   <= fold_left (fun a c => 10 * a + (Z.of_N c - 48)) x acc
   < (acc + 1) * 10 ^ Z.of_nat (length x))%Z.
Proof.
  induction 1 as [|c x Hc _ IH]; intros acc Hacc.
  - simpl. lia.
  - unfold is_digit in Hc. apply between_iff in Hc.
    cbn [fold_left length]. rewrite Nat2Z.inj_succ, Z.pow_succ_r by lia.
    specialize (IH (10 * acc + (Z.of_N c - 48))%Z ltac:(lia)).
    assert (P : (0 < 10 ^ Z.of_nat (length x))%Z) by (apply Z.pow_pos_nonneg; lia).
    nia.
Qed.

Lemma DigitRun_int (lo hi : nat) (x : str) :
  DigitRun lo hi x -> (0 <= int_of_digits x < 10 ^ Z.of_nat hi)%Z.
Proof.
  intros [L D]. pose proof (int_of_digits_range x D 0%Z ltac:(lia)) as H.
  unfold int_of_digits.
  assert (P : (10 ^ Z.of_nat (length x) <= 10 ^ Z.of_nat hi)%Z)
    by (apply Z.pow_le_mono_r; lia).
  lia.
Qed.

(** ** The year (app.py, lines 115-122) *)

Lemma year_of_search (r : re) (text : str) (m : mobj) :
  groups_of r = [(1, rep digit 4 4)] -> always_sets r 1 = true ->
  search false r text = Some m -> DigitRun 4 4 (grp m 1).
Proof.
  intros Hg Hs Hm. apply digit_run; [lia|].
  exact (search_first_group false r _ text m (or_introl Hg) Hs Hm).
Qed.

(** X17: for a page within U+0000..U+00FF, the year of the metadata is empty
    or made of exactly four digits: the first four digits in a row of
    the publication date or, without them, the four digits after the
    copyright sign. *)
Theorem year_has_four_digits (unescape : str -> str) (soup : Page) (meta : Metadata)
    (L : Latin1Page soup) :
  extract_basic_metadata unescape soup = Ok meta ->
  year meta = [] \/ DigitRun 4 4 (year meta).
Proof.
  unfold extract_basic_metadata. destruct (title_of soup) as [t|e]; [|discriminate].
  cbn [bind]. intros H. injection H as <-. cbn [year].
  assert (C : match search false copyright_re (page_text soup) with
              | Some m => grp m 1 | None => [] end = []
              \/ DigitRun 4 4 match search false copyright_re (page_text soup) with
                              | Some m => grp m 1 | None => [] end).
  { destruct (search false copyright_re (page_text soup)) as [m|] eqn:E; [|auto].
    right. exact (year_of_search copyright_re _ m eq_refl eq_refl E). }
  match goal with
  | |- context [search false year_re ?d] =>
      destruct d as [|c0 d0] eqn:Ed; [exact C|];
      destruct (search false year_re (c0 :: d0)) as [m|] eqn:E; [|exact C]
  end.
  pose proof (year_of_search year_re _ m eq_refl eq_refl E) as Hy.
  destruct (grp m 1) as [|y ys]; [exact C | right; exact Hy].
Qed.

Lemma year_has_four_digits_witness :
  Latin1Page (mkPage [mkMeta (Some (py "citation_date")) None (Some (py "2021/03/15"))]
                     None (py "text") [] None)
  /\ exists meta,
       extract_basic_metadata (fun s => s)
         (mkPage [mkMeta (Some (py "citation_date")) None (Some (py "2021/03/15"))]
                 None (py "text") [] None) = Ok meta
       /\ year meta = py "2021"
       /\ (year meta = [] \/ DigitRun 4 4 (year meta)).
Proof.
  assert (L : Latin1Page (mkPage [mkMeta (Some (py "citation_date")) None
                                         (Some (py "2021/03/15"))]
                                 None (py "text") [] None)).
  { split; [apply Latin1_py|]. constructor; [apply Latin1_py | constructor]. }
  split; [exact L|].
  assert (H : {meta | extract_basic_metadata (fun s => s)
      (mkPage [mkMeta (Some (py "citation_date")) None (Some (py "2021/03/15"))]
              None (py "text") [] None) = Ok meta /\ year meta = py "2021"}).
  { eexists. split; vm_compute; reflexivity. }
  destruct H as [meta [H Hy]]. exists meta. split; [exact H|]. split; [exact Hy|].
  exact (year_has_four_digits (fun s => s) _ meta L H).
Defined.

(** ** The range of the sample size (app.py, lines 191-208) *)

Lemma size_group (r : re) (text : str) (m : mobj) (n : nat) :
  (forall a, In (n, a) (groups_of r) -> a = num26) -> always_sets r n = true ->
  search false r text = Some m -> (0 <= int_of_digits (grp m n) < 1000000)%Z.
Proof.
  intros Hg Hs Hm. destruct (search_sets false r text m n Hm Hs) as (x & Hx).
  rewrite (grp_group m n x Hx).
  pose proof (search_group false r text m n x Hm Hx) as Hc.
  apply Cap_groups in Hc. destruct Hc as (a & Hin & Hc). apply Hg in Hin. subst a.
  apply (digit_run 2 6) in Hc; [|lia]. exact (DigitRun_int 2 6 x Hc).
Qed.

Lemma findall_size (text : str) (x : str) :
  In x (findall1 false size_re5 text) -> (0 <= int_of_digits x < 1000000)%Z.
Proof.
  unfold findall1. intros H. apply in_map_iff in H. destruct H as (m & <- & Hin).
  destruct (finditer_sets false size_re5 text m 1 Hin eq_refl) as (x & Hx). rewrite Hx.
  pose proof (finditer_group false size_re5 text m 1 x Hin Hx) as Hc.
  apply Cap_groups in Hc. destruct Hc as (a & Hi & Hc).
  destruct Hi as [E | []]. injection E as <-.
  apply (digit_run 2 6) in Hc; [|lia]. exact (DigitRun_int 2 6 x Hc).
Qed.

Ltac one_group :=
  let a := fresh "a" in let H := fresh "H" in
  intros a H; simpl in H;
  repeat (destruct H as [H | H]; [first [now injection H as <- | discriminate]|]);
  contradiction.

(** X18: the sample size is the empty string or an integer from 0 to
    1999998, whichever rule gives it. *)
Theorem sample_size_range (text : str) :
  find_sample_size text = VStr []
  \/ exists z, find_sample_size text = VInt z /\ (0 <= z <= 1999998)%Z.
Proof.
  unfold find_sample_size. destruct text as [|c0 t0]; [auto|].
  set (t := remove_char 44%N (c0 :: t0)).
  destruct (search false size_re1 t) as [m|] eqn:E1.
  { right. eexists. split; [reflexivity|].
    pose proof (size_group size_re1 t m 1 ltac:(one_group) eq_refl E1). lia. }
  destruct (search false size_re2 t) as [m|] eqn:E2.
  { right. eexists. split; [reflexivity|].
    assert (G : forall a, In (1, a) (groups_of size_re2) -> a = num26).
    { unfold size_re2. rewrite !groups_of_cat_cons. unfold txt, opt. cbn [groups_of].
      rewrite !groups_of_lits. one_group. }
    pose proof (size_group size_re2 t m 1 G eq_refl E2). lia. }
  destruct (search false size_re3 t) as [m|] eqn:E3.
  { right. eexists. split; [reflexivity|].
    pose proof (size_group size_re3 t m 1 ltac:(one_group) eq_refl E3). lia. }
  destruct (search false size_re4 t) as [m|] eqn:E4.
  { right. eexists. split; [reflexivity|].
    pose proof (size_group size_re4 t m 1 ltac:(one_group) eq_refl E4).
    pose proof (size_group size_re4 t m 2 ltac:(one_group) eq_refl E4). lia. }
  destruct (List.map int_of_digits (findall1 false size_re5 t)) as [|n nums] eqn:E5; [auto|].
  destruct (30 <=? list_max n nums)%Z eqn:E; [|auto].
  right. eexists. split; [reflexivity|].
  destruct (list_max_spec nums n) as [Hin _]. rewrite <- E5 in Hin.
  apply in_map_iff in Hin. destruct Hin as (x & <- & Hx).
  pose proof (findall_size t x Hx). lia.
Qed.

(** ** The longest paragraph (app.py, lines 167-171) *)

Lemma longest_acc (l : list Tag) : forall pre mid best,
  (forall q, In q pre -> length (t_text q) < length (t_text best)) ->
  (forall q, In q mid -> length (t_text q) <= length (t_text best)) ->
  FirstLongest (pre ++ best :: mid ++ l) (longest best l).
Proof.
  induction l as [|p l IH]; intros pre mid best Hpre Hmid; cbn [longest].
  - exists pre, mid. rewrite app_nil_r. auto.
  - destruct (Nat.ltb_spec (length (t_text best)) (length (t_text p))) as [Hlt | Hge].
    + replace (pre ++ best :: mid ++ p :: l) with ((pre ++ best :: mid) ++ p :: [] ++ l)
        by (rewrite <- app_assoc; reflexivity).
      apply IH; [|intros q []].
      intros q Hq. apply in_app_or in Hq. destruct Hq as [Hq | [<- | Hq]].
      * specialize (Hpre q Hq). lia.
      * exact Hlt.
      * specialize (Hmid q Hq). lia.
    + replace (pre ++ best :: mid ++ p :: l) with (pre ++ best :: (mid ++ [p]) ++ l)
        by (rewrite <- app_assoc; reflexivity).
      apply IH; [exact Hpre|].
      intros q Hq. apply in_app_or in Hq. destruct Hq as [Hq | [<- | []]]; [auto | exact Hge].
Qed.

(** X19: without abstract hint in the meta elements and without element
    marked as abstract, the abstract is the stripped text of the first of
    the longest paragraphs, the length being that of the raw text: every
    paragraph before it is strictly shorter, none after it is longer.
    Without paragraph it is empty. *)
Theorem abstract_is_first_longest_paragraph (soup : Page) :
  truthy (por (por (get_meta soup (py "citation_abstract")) (get_meta soup (py "og:description")))
              (get_meta soup (py "description"))) = false ->
  find is_abstract_box (tags soup) = None ->
  (filter (tag_named [py "p"]) (tags soup) = [] /\ get_abstract_text soup = [])
  \/ exists p, FirstLongest (filter (tag_named [py "p"]) (tags soup)) p
               /\ get_abstract_text soup = t_text_strip p.
Proof.
  intros Hh Hb. unfold get_abstract_text. rewrite Hb.
  destruct (por (por (get_meta soup (py "citation_abstract")) (get_meta soup (py "og:description")))
                (get_meta soup (py "description"))) as [[|c t]|]; [|discriminate|].
  - destruct (filter (tag_named [py "p"]) (tags soup)) as [|p paras]; [left; auto|].
    right. exists (longest p paras). split; [|reflexivity].
    apply (longest_acc paras [] [] p); intros q [].
  - destruct (filter (tag_named [py "p"]) (tags soup)) as [|p paras]; [left; auto|].
    right. exists (longest p paras). split; [|reflexivity].
    apply (longest_acc paras [] [] p); intros q [].
Qed.

Lemma abstract_is_first_longest_paragraph_witness :
  get_abstract_text paragraphs_page = py "Results"
  /\ ((filter (tag_named [py "p"]) (tags paragraphs_page) = []
       /\ get_abstract_text paragraphs_page = [])
      \/ exists p, FirstLongest (filter (tag_named [py "p"]) (tags paragraphs_page)) p
                   /\ get_abstract_text paragraphs_page = t_text_strip p).
Proof.
  split; [vm_compute; reflexivity|].
  apply (abstract_is_first_longest_paragraph paragraphs_page); vm_compute; reflexivity.
Defined.

(** ** The form of the mean age (app.py, lines 210-219) *)

Lemma reads_progress (s s' : st) (w : str) :
  reads s w s' -> (progress s s' = true <-> w <> []).
Proof.
  intros [[Hr _] _]. unfold progress. rewrite Nat.ltb_lt, Hr, length_app.
  destruct w; simpl; split; intros H; try lia; try discriminate. contradiction.
Qed.

(** An optional pattern reads nothing or what the pattern reads. *)
Lemma Reads_opt (ci : bool) (a : re) (P : str -> Prop) :
  Reads ci a P -> (forall w, P w -> w <> []) ->
  Reads ci (opt a) (fun w => w = [] \/ P w).
Proof.
  intros Ha Hne s s'. unfold opt. cbn [M pow]. split.
  - intros (s1 & j & -> & Hj & Hp). unfold upto in Hj.
    destruct j as [|[|j]]; [| |lia]; cbn [pow] in Hp.
    + subst s'. exists []. split; [apply reads_nil | left; reflexivity].
    + destruct Hp as (s2 & [HM _] & ->). apply Ha in HM. destruct HM as (w & Hr & Pw).
      exists w. auto.
  - intros (w & Hr & [-> | Pw]).
    + exists s, 0. split; [reflexivity|]. split; [simpl; lia|].
      cbn [pow]. destruct s, s'. destruct Hr as [[Hrest Hprev] Hcaps]. simpl in *. congruence.
    + exists s, 1. split; [reflexivity|]. split; [simpl; lia|].
      cbn [pow]. exists s'. split; [|reflexivity]. split.
      * apply Ha. exists w. auto.
      * apply (reads_progress s s' w Hr). exact (Hne w Pw).
Qed.

Lemma Reads_age_num : Reads true age_num AgeForm.
Proof.
  eapply Reads_weaken;
    [|apply Reads_seq;
      [apply (Reads_rep_cls true false [rg "0" "9"] 1 (Some 3) true)
      |apply (Reads_opt true (cat [ch "."; plus d09])
                (fun w => exists ds, w = 46%N :: ds /\ ds <> [] /\ Digits ds))]].
  - intros w. unfold AgeForm, upto. split.
    + intros (ip & fr & -> & (F & L1 & L2) & Hfr). exists ip, fr.
      split; [reflexivity|]. split; [lia|].
      split; [apply (Forall_iff _ _ ip d09_mem_ci); exact F | exact Hfr].
    + intros (ip & fr & -> & L & D & Hfr). exists ip, fr.
      split; [reflexivity|]. split; [|exact Hfr].
      split; [apply (Forall_iff _ _ ip d09_mem_ci); exact D | lia].
  - eapply Reads_weaken; [|apply Reads_seq; [apply Reads_cls | apply Reads_rep_cls]].
    intros w. unfold upto. split.
    + intros (w1 & ds & -> & (c & -> & Hc) & F & L & _). apply (point_ci c) in Hc. subst c.
      exists ds. split; [reflexivity|]. split; [intros ->; simpl in L; lia|].
      apply (Forall_iff _ _ ds d09_mem_ci). exact F.
    + intros (ds & -> & Hne & D). exists [46%N], ds. split; [reflexivity|].
      split; [exists 46%N; split; [reflexivity | apply (point_ci 46%N); reflexivity]|].
      split; [apply (Forall_iff _ _ ds d09_mem_ci); exact D|].
      split; [destruct ds; [contradiction | simpl; lia] | exact I].
  - intros w (ds & -> & _). discriminate.
Qed.

(** What a group that is always set holds, when every group of that
    number encloses the same reading pattern. *)
Lemma search_group_form (ci : bool) (r a : re) (P : str -> Prop) (text : str) (m : mobj) (n : nat) :
  Reads ci a P ->
  (forall b, In (n, b) (groups_of r) -> b = a) -> always_sets r n = true ->
  search ci r text = Some m -> P (grp m n).
Proof.
  intros Ha Hg Hs Hm. destruct (search_sets ci r text m n Hm Hs) as (x & Hx).
  rewrite (grp_group m n x Hx).
  pose proof (search_group ci r text m n x Hm Hx) as Hc.
  apply Cap_groups in Hc. destruct Hc as (b & Hin & Hc). apply Hg in Hin. subst b.
  exact (Cap_reads ci a P x Ha Hc).
Qed.

(** X20: the mean age is empty or has one of three forms, in which every
    number is an age of one to three digits with an optional decimal
    part: [X ± Y], [X] alone, or [case:X±Y control:U±V]. *)
Theorem mean_age_forms (text : str) :
  find_mean_age text = []
  \/ (exists x y, AgeForm x /\ AgeForm y
                  /\ find_mean_age text = x ++ py " " ++ [PLUSMINUS] ++ py " " ++ y)
  \/ (exists x, AgeForm x /\ find_mean_age text = x)
  \/ (exists x y u v, AgeForm x /\ AgeForm y /\ AgeForm u /\ AgeForm v
                      /\ find_mean_age text
                         = py "case:" ++ x ++ [PLUSMINUS] ++ y
                           ++ py " control:" ++ u ++ [PLUSMINUS] ++ v).
Proof.
  unfold find_mean_age. destruct text as [|c0 t0]; [auto|].
  set (t := c0 :: t0).
  assert (G : forall r n m, (forall b, In (n, b) (groups_of r) -> b = age_num) ->
                            always_sets r n = true -> search true r t = Some m ->
                            AgeForm (grp m n)).
  { intros r n m. apply (search_group_form true r age_num AgeForm t m n Reads_age_num). }
  destruct (search true age_re1 t) as [m|] eqn:E1.
  { right. left. exists (grp m 1), (grp m 2).
    split; [apply (G age_re1 1 m ltac:(one_group) eq_refl E1)|].
    split; [apply (G age_re1 2 m ltac:(one_group) eq_refl E1) | reflexivity]. }
  destruct (search true age_re2 t) as [m|] eqn:E2.
  { right. right. left. exists (grp m 1).
    split; [apply (G age_re2 1 m ltac:(one_group) eq_refl E2) | reflexivity]. }
  destruct (search true age_re3 t) as [m|] eqn:E3; [|auto].
  right. right. right. exists (grp m 1), (grp m 2), (grp m 3), (grp m 4).
  split; [apply (G age_re3 1 m ltac:(one_group) eq_refl E3)|].
  split; [apply (G age_re3 2 m ltac:(one_group) eq_refl E3)|].
  split; [apply (G age_re3 3 m ltac:(one_group) eq_refl E3)|].
  split; [apply (G age_re3 4 m ltac:(one_group) eq_refl E3) | reflexivity].
Qed.

(** ** P-values that are not numbers (app.py, lines 320-326) *)

Lemma split_dot_point (s : str) :
  1 <= points s ->
  exists a b, F64.split_dot s = (a, Some b) /\ points s = S (points b).
Proof.
  unfold points. induction s as [|c s IH]; cbn [count_occ F64.split_dot]; [lia|].
  unfold char_eqb. destruct (N.eq_dec c 46%N) as [-> | Hc].
  - intros _. exists [], s. rewrite N.eqb_refl. split; [reflexivity|].
    destruct (N.eq_dec 46 46); [reflexivity | contradiction].
  - intros H. apply N.eqb_neq in Hc. rewrite Hc.
    destruct (N.eq_dec c 46%N) as [E | _]; [apply N.eqb_neq in Hc; contradiction|].
    destruct (IH H) as (a & b & -> & Hb). exists (c :: a), b. auto.
Qed.

Lemma points_not_digits (s : str) : 1 <= points s -> F64.all_digits s = false.
Proof.
  unfold points, F64.all_digits. induction s as [|c s IH]; cbn [count_occ forallb]; [lia|].
  destruct (N.eq_dec c 46%N) as [-> | _]; [reflexivity|].
  intros H. rewrite (IH H). apply andb_false_r.
Qed.

(** [float()] refuses a string with two points. *)
Lemma float_two_points (s : str) : 2 <= points s -> F64.float_of_str s = None.
Proof.
  intros H. unfold F64.float_of_str.
  destruct (split_dot_point s ltac:(lia)) as (a & b & -> & Hb).
  rewrite (points_not_digits b ltac:(lia)), andb_false_r. reflexivity.
Qed.

Lemma points_remove_gt (s : str) : points (remove_char 62%N s) = points s.
Proof.
  unfold points, remove_char, char_eqb. induction s as [|c s IH]; [reflexivity|].
  cbn [filter count_occ]. destruct (N.eqb_spec c 62%N) as [-> | Hc]; cbn [negb].
  - rewrite IH. destruct (N.eq_dec 62 46); [discriminate | reflexivity].
  - cbn [count_occ]. rewrite IH. reflexivity.
Qed.

(** X21: a p-value in which two points stand, as when the full stop after it
    is taken with it, is not a number for [float]: it is passed over and
    the marker is the one the odds ratio alone gives, even when the
    value written is above 0.05. *)
Theorem p_value_with_two_points_is_ignored (or_str p_str : str) :
  2 <= points p_str ->
  infer_effect_direction or_str p_str = infer_effect_direction or_str [].
Proof.
  intros H. unfold infer_effect_direction.
  destruct (F64.float_of_str or_str) as [orv|]; [|reflexivity].
  rewrite p_significant_spec by (intros ->; unfold points in H; simpl in H; lia).
  rewrite float_two_points by (rewrite points_remove_gt; exact H).
  reflexivity.
Qed.

Lemma p_value_with_two_points_is_ignored_witness :
  2 <= points (py "0.20.")
  /\ infer_effect_direction (py "0.5") (py "0.20.") = RISK_DOWN
  /\ infer_effect_direction (py "0.5") (py "0.20") = NOT_SIGNIFICANT.
Proof.
  split; [vm_compute; lia|]. split; [|vm_compute; reflexivity].
  rewrite (p_value_with_two_points_is_ignored (py "0.5") (py "0.20.")) by (vm_compute; lia).
  vm_compute. reflexivity.
Defined.

(** ** The quality marker (app.py, lines 407-409) *)

Lemma word_found (w big : str) :
  Forall (fun l => (l < 128)%N) w ->
  (found (search true (lits w) big) = true <-> Mentions w big).
Proof.
  intros Hw. rewrite (search_Reads true (lits w) _ big (Reads_lits true w)). unfold Mentions.
  split; intros (a & x & b & Ht & H); exists a, x, b; (split; [exact Ht|]).
  - apply (spells_ci _ _ Hw). apply Forall2_ci. exact H.
  - apply Forall2_ci. apply (spells_ci _ _ Hw). exact H.
Qed.

Lemma derive_quality (big : str) :
  d_quality (derive big)
  = if found (search true (txt "SIFT") big) || found (search true (txt "PolyPhen") big)
    then QUALITY_MARKER else [].
Proof.
  unfold derive. destruct (extract_rsids_and_genes_with_annotations big) as [[rsids gm] go].
  reflexivity.
Qed.

(** X22: for a corpus within U+0000..U+00FF, the quality cell holds the
    marker exactly when [SIFT] or [PolyPhen] is spelled in it, each
    letter in either case, be it inside a longer word; otherwise it is
    empty. *)
Theorem quality_marker_iff_tool_named (big : str) (L : Latin1 big) :
  ((Mentions (py "SIFT") big \/ Mentions (py "PolyPhen") big)
   /\ d_quality (derive big) = QUALITY_MARKER)
  \/ (~ Mentions (py "SIFT") big /\ ~ Mentions (py "PolyPhen") big
      /\ d_quality (derive big) = []).
Proof.
  rewrite derive_quality. unfold txt.
  assert (H1 := word_found (py "SIFT") big). assert (H2 := word_found (py "PolyPhen") big).
  assert (E1 : found (search true (lits (py "SIFT")) big) = true <-> Mentions (py "SIFT") big)
    by (apply H1; repeat constructor).
  assert (E2 : found (search true (lits (py "PolyPhen")) big) = true
               <-> Mentions (py "PolyPhen") big)
    by (apply H2; repeat constructor).
  clear H1 H2.
  destruct (found (search true (lits (py "SIFT")) big)).
  - left. split; [left; apply E1; reflexivity | reflexivity].
  - destruct (found (search true (lits (py "PolyPhen")) big)).
    + left. split; [right; apply E2; reflexivity | reflexivity].
    + right. split; [|split; [|reflexivity]]; intros H; [apply E1 in H | apply E2 in H];
        discriminate.
Qed.

Lemma quality_marker_iff_tool_named_witness :
  Latin1 (py "scored with polyphen-2")
  /\ Mentions (py "PolyPhen") (py "scored with polyphen-2")
  /\ d_quality (derive (py "scored with polyphen-2")) = QUALITY_MARKER
  /\ d_quality (derive (py "no tool is named")) = [].
Proof.
  split; [apply Latin1_py|].
  assert (Q : d_quality (derive (py "scored with polyphen-2")) = QUALITY_MARKER)
    by (vm_compute; reflexivity).
  destruct (quality_marker_iff_tool_named (py "scored with polyphen-2") (Latin1_py _))
    as [[[Hs | Hp] _] | (_ & _ & Hq)].
  - exfalso. destruct Hs as (a & w & b & Ht & Hw).
    inversion Hw as [|c l w' k' Hc Hw']; subst.
    assert (Hin : In c (py "scored with polyphen-2")).
    { rewrite Ht. apply in_or_app. right. left. reflexivity. }
    inversion Hw' as [|c2 l2 w2 k2 Hc2 Hw2]; subst.
    inversion Hw2 as [|c3 l3 w3 k3 Hc3 Hw3]; subst.
    assert (Hf : exists a' b', py "scored with polyphen-2" = a' ++ c3 :: b').
    { exists (a ++ [c; c2]), (w3 ++ b). rewrite Ht, <- !app_assoc. reflexivity. }
    destruct Hf as (a' & b' & Hf).
    assert (Hin3 : In c3 (py "scored with polyphen-2")).
    { rewrite Hf. apply in_or_app. right. left. reflexivity. }
    unfold AsciiCase in Hc3. simpl in Hin3.
    repeat (destruct Hin3 as [<- | Hin3]; [lia|]). exact Hin3.
  - split; [exact Hp|]. split; [exact Q | vm_compute; reflexivity].
  - rewrite Q in Hq. discriminate.
Defined.

(** ** Trigger phrases that add nothing (app.py, lines 30-36) *)

Lemma contains_longer (t k x : str) : contains t k = false -> contains t (k ++ x) = false.
Proof.
  intros H. destruct (contains t (k ++ x)) eqn:E; [|reflexivity].
  apply contains_Occurs, Occurs_prefix, contains_Occurs in E. congruence.
Qed.

(** X23: four trigger phrases of the study-design table change nothing:
    [case-control study], [prospective cohort], [retrospective cohort]
    and [randomized controlled trial] each contain another phrase of
    their own label, so the table without them gives the same result on
    every text. *)
Theorem redundant_design_triggers (text : str) :
  find_study_design text = design_scan STUDY_DESIGN_CORE (lower text).
Proof.
  rewrite find_study_design_scan. generalize (lower text). intros t.
  unfold STUDY_DESIGN_KEYWORDS, STUDY_DESIGN_CORE. cbn [design_scan List.map existsb].
  pose proof (contains_longer t (py "case-control") (py " study")) as H1.
  pose proof (contains_longer t (py "randomized") (py " controlled trial")) as H3.
  change (py "case-control" ++ py " study") with (py "case-control study") in H1.
  change (py "randomized" ++ py " controlled trial") with (py "randomized controlled trial") in H3.
  assert (H2 : contains t (py "cohort") = false ->
               contains t (py "prospective cohort") = false
               /\ contains t (py "retrospective cohort") = false).
  { intros H. split.
    - destruct (contains t (py "prospective cohort")) eqn:E; [|reflexivity].
      apply contains_Occurs in E. destruct E as (a & b & ->).
      assert (O : Occurs (py "cohort") (a ++ py "prospective cohort" ++ b)).
      { exists (a ++ py "prospective "), b. rewrite <- !app_assoc. reflexivity. }
      apply contains_Occurs in O. congruence.
    - destruct (contains t (py "retrospective cohort")) eqn:E; [|reflexivity].
      apply contains_Occurs in E. destruct E as (a & b & ->).
      assert (O : Occurs (py "cohort") (a ++ py "retrospective cohort" ++ b)).
      { exists (a ++ py "retrospective "), b. rewrite <- !app_assoc. reflexivity. }
      apply contains_Occurs in O. congruence. }
  destruct (contains t (py "case-control")) eqn:E1; [reflexivity|].
  rewrite (H1 eq_refl), !orb_false_r, ?orb_false_l.
  destruct (contains t (py "case control")); [reflexivity|].
  destruct (contains t (py "cohort")) eqn:E2; [reflexivity|].
  destruct (H2 eq_refl) as [-> ->]. cbn [orb].
  destruct (contains t (py "cross-sectional")); [reflexivity|].
  destruct (contains t (py "randomized")) eqn:E3; [reflexivity|].
  rewrite (H3 eq_refl), !orb_false_r. reflexivity.
Qed.
